(** * Distance-vector routing engine of [Lab Works/Lab 8/main.py]

    A shallow embedding of the routing part of the RIP simulator: the link
    records, the routing-table rows, the per-router table operations
    ([initialize_routing_table], [get_distance_vector_for_neighbor],
    [process_message], [update_routing_table], [check_timeouts],
    [handle_link_failure], [handle_link_recovery]) and the coordinator
    operations that touch the tables ([_load_json_topology],
    [initialize_routing_tables], [_simulate_link_failure],
    [_schedule_link_recovery], [restart_simulation]).

    Conventions.
    - Python dictionaries are [gmap]s; a loop over [d.items()] is a left
      fold over [map_to_list d].  The program iterates in insertion
      order; for the loops of the router the result is the same for every
      order of the items ([update_routing_table_any_order],
      [check_timeouts_any_order], [handle_link_failure_any_order],
      [get_distance_vector_any_order],
      [initialize_routing_table_any_order]).
    - [time.time()] is an explicit argument [now], read once per
      operation; clock readings are whole numbers of seconds in [Z].
    - A cost is a Python [int] or [math.inf]: the type [Cost].
    - [Link] objects are shared between the coordinator's [links]
      dictionary (under both orientations of the endpoint pair) and the
      [neighbors] dictionaries of the two endpoint routers.  The sharing
      is modelled by a store of links addressed by references; the
      dictionaries hold references.
    - [check_timeouts], [handle_link_failure] and [handle_link_recovery]
      are the part of the coroutine that writes the tables, up to its
      [await self.send_triggered_update()]; the triggered update that
      ends them is [send_triggered_update], and the whole coroutines are
      [check_timeouts_and_update], [handle_link_failure_and_update] and
      [handle_link_recovery_and_update].  The triggered update builds
      advertisements, which deletes expired hold-down records and counts
      messages; it never writes a row.  The coordinator operations
      ([_simulate_link_failure], [_schedule_link_recovery],
      [_simulate_cost_change]) are composed of the table parts.
    - The random loss of [send_message] is an argument of the
      operation.  Logging, drawing and the files of [TableLogger] are
      left out; the queue to the visualisation is modelled on its own
      ([VisualizationQueue]). *)

From stdpp Require Import gmap strings list fin_maps pretty.
From Stdlib Require Import ZArith Lia.

Local Open Scope Z_scope.

(** ** Enumerations *)

Inductive LinkStatus := UP | DOWN.
Inductive RouteStatus := VALID | INVALID | GARBAGE.
Inductive ConvergenceState := CONVERGING | CONVERGED | DIVERGING.
Inductive MessageType := REGULAR | POISON_REVERSE | TRIGGERED.

#[global] Instance LinkStatus_eq_dec : EqDecision LinkStatus.
Proof. solve_decision. Defined.
#[global] Instance RouteStatus_eq_dec : EqDecision RouteStatus.
Proof. solve_decision. Defined.
#[global] Instance ConvergenceState_eq_dec : EqDecision ConvergenceState.
Proof. solve_decision. Defined.
#[global] Instance MessageType_eq_dec : EqDecision MessageType.
Proof. solve_decision. Defined.

(** ** Costs: a Python [int] or [inf] *)

Inductive Cost := Fin (c : Z) | inf.

#[global] Instance Cost_eq_dec : EqDecision Cost.
Proof. solve_decision. Defined.

(** [a < b] on costs, as Python compares an [int] with [math.inf]. *)
Definition cost_lt (a b : Cost) : bool :=
  match a, b with
  | Fin x, Fin y => bool_decide (x < y)
  | Fin _, inf => true
  | inf, _ => false
  end.

(** ** Timers *)

Module RIPTimers.
Definition PERIODIC_UPDATE : Z := 15.
Definition ROUTE_TIMEOUT : Z := 90.
Definition GARBAGE_COLLECTION : Z := 60.
Definition HOLD_DOWN : Z := 90.
Definition CONVERGENCE_TIMEOUT : Z := 45.
End RIPTimers.

(** ** Links *)

Module Link.
(** [propagation_delay] and [packet_loss_rate] only matter to
    [send_message] and are not part of the record here. *)
Record t := mk {
  router1 : string;
  router2 : string;
  cost : Z;
  status : LinkStatus;
  last_failure_time : Z
}.

Definition is_operational (l : t) : bool := bool_decide (status l = UP).

Definition set_status (s : LinkStatus) (l : t) : t :=
  mk (router1 l) (router2 l) (cost l) s (last_failure_time l).
Definition set_cost (c : Z) (l : t) : t :=
  mk (router1 l) (router2 l) c (status l) (last_failure_time l).
Definition set_last_failure_time (x : Z) (l : t) : t :=
  mk (router1 l) (router2 l) (cost l) (status l) x.
End Link.

(** ** Routing-table rows *)

Module RouteEntry.
Record t := mk {
  destination : string;
  cost : Cost;
  next_hop : option string;
  status : RouteStatus;
  last_update_time : Z;
  timeout_time : Z;
  garbage_time : Z
}.

(** The dataclass constructor followed by [__post_init__]: the three
    timer fields are not constructor arguments; [last_update_time] is
    the clock, [timeout_time] and [garbage_time] start at 0. *)
Definition new (now : Z) (dest : string) (c : Cost)
    (nh : option string) (st : RouteStatus) : t :=
  mk dest c nh st now 0 0.

Definition set_cost (c : Cost) (e : t) : t :=
  mk (destination e) c (next_hop e) (status e)
     (last_update_time e) (timeout_time e) (garbage_time e).
Definition set_next_hop (nh : option string) (e : t) : t :=
  mk (destination e) (cost e) nh (status e)
     (last_update_time e) (timeout_time e) (garbage_time e).
Definition set_status (st : RouteStatus) (e : t) : t :=
  mk (destination e) (cost e) (next_hop e) st
     (last_update_time e) (timeout_time e) (garbage_time e).
Definition set_last_update_time (x : Z) (e : t) : t :=
  mk (destination e) (cost e) (next_hop e) (status e)
     x (timeout_time e) (garbage_time e).
Definition set_timeout_time (x : Z) (e : t) : t :=
  mk (destination e) (cost e) (next_hop e) (status e)
     (last_update_time e) x (garbage_time e).
Definition set_garbage_time (x : Z) (e : t) : t :=
  mk (destination e) (cost e) (next_hop e) (status e)
     (last_update_time e) (timeout_time e) x.
End RouteEntry.

(** ** Network statistics *)

Module NetworkStats.
Record t := mk {
  last_route_change_time : Z;
  total_route_changes : Z;
  total_messages : Z;
  poison_reverse_messages : Z;
  convergence_state : ConvergenceState;
  convergence_detected_at : Z;
  periodic_updates_enabled : bool
}.

(** [NetworkStats()] with the dataclass defaults. *)
Definition fresh : t := mk 0 0 0 0 CONVERGING 0 true.

Definition set_periodic_updates_enabled (b : bool) (s : t) : t :=
  mk (last_route_change_time s) (total_route_changes s) (total_messages s)
     (poison_reverse_messages s) (convergence_state s)
     (convergence_detected_at s) b.

(** The three assignments made by [update_routing_table] for every
    changed route. *)
Definition route_changed (now : Z) (s : t) : t :=
  mk now (total_route_changes s + 1) (total_messages s)
     (poison_reverse_messages s) CONVERGING
     (convergence_detected_at s) (periodic_updates_enabled s).

(** The two assignments made by [check_timeouts], [handle_link_failure]
    and [handle_link_recovery], which do not count the change. *)
Definition tables_changed (now : Z) (s : t) : t :=
  mk now (total_route_changes s) (total_messages s)
     (poison_reverse_messages s) CONVERGING
     (convergence_detected_at s) (periodic_updates_enabled s).

(** The counters touched by [send_message]: [total_messages += 1], and
    [poison_reverse_messages += 1] when the message poisons routes. *)
Definition message_sent (poisoned : bool) (s : t) : t :=
  mk (last_route_change_time s) (total_route_changes s) (total_messages s + 1)
     (if poisoned then poison_reverse_messages s + 1
      else poison_reverse_messages s)
     (convergence_state s) (convergence_detected_at s)
     (periodic_updates_enabled s).

(** The two assignments of [convergence_monitor]. *)
Definition converged (now : Z) (s : t) : t :=
  mk (last_route_change_time s) (total_route_changes s) (total_messages s)
     (poison_reverse_messages s) CONVERGED now (periodic_updates_enabled s).
End NetworkStats.

(** ** Messages *)

Module Message.
Record t := mk {
  source : string;
  destination : string;
  distance_vector : gmap string Cost;
  timestamp : Z;
  message_id : string;
  message_type : MessageType;
  poison_reverse_routes : gset string
}.
End Message.

(** ** The store of shared [Link] objects

    A store is the list of the [Link] objects allocated so far; a
    reference is a position in it. *)

(** ** Routers *)

Module AsyncRouter.
(** The fields that hold routing state.  [inbox], [running], [logger]
    and the bookkeeping of the send timers are not modelled. *)
Record t := mk {
  id : string;
  neighbors : gmap string nat;
  routing_table : gmap string RouteEntry.t;
  distance_vector : gmap string Cost;
  hold_down_routes : gmap string Z
}.

Definition set_routing_table (rt : gmap string RouteEntry.t) (r : t) : t :=
  mk (id r) (neighbors r) rt (distance_vector r) (hold_down_routes r).
Definition set_distance_vector (dv : gmap string Cost) (r : t) : t :=
  mk (id r) (neighbors r) (routing_table r) dv (hold_down_routes r).
Definition set_hold_down_routes (hd : gmap string Z) (r : t) : t :=
  mk (id r) (neighbors r) (routing_table r) (distance_vector r) hd.
Definition set_neighbors (nb : gmap string nat) (r : t) : t :=
  mk (id r) nb (routing_table r) (distance_vector r) (hold_down_routes r).

(** [AsyncRouter(router_id, network)] *)
Definition new (router_id : string) : t := mk router_id ∅ ∅ ∅ ∅.

Definition add_neighbor (neighbor_id : string) (l : nat) (r : t) : t :=
  set_neighbors (<[neighbor_id := l]> (neighbors r)) r.

(** [self.neighbors[n]], read through the store.  A reference held by a
    router always points to a live object in the program; a neighbour
    whose reference is not in the store is treated as no neighbour. *)
Definition link_of (σ : list Link.t) (r : t) (n : string)
    : option Link.t :=
  neighbors r !! n ≫= λ l, σ !! l.

(** *** [initialize_routing_table] *)

Definition init_entry (now : Z) (r : t) (dest : string) : t :=
  let entry :=
    if decide (dest = id r)
    then RouteEntry.new now dest (Fin 0) (Some (id r)) VALID
    else RouteEntry.new now dest inf None INVALID in
  set_distance_vector (<[dest := RouteEntry.cost entry]> (distance_vector r))
    (set_routing_table (<[dest := entry]> (routing_table r)) r).

Definition init_neighbor (σ : list Link.t) (now : Z) (r : t)
    (item : string * nat) : t :=
  let '(neighbor_id, l) := item in
  match σ !! l, routing_table r !! neighbor_id with
  | Some link, Some entry =>
      if Link.is_operational link then
        let entry' :=
          RouteEntry.set_last_update_time now
            (RouteEntry.set_status VALID
               (RouteEntry.set_next_hop (Some neighbor_id)
                  (RouteEntry.set_cost (Fin (Link.cost link)) entry))) in
        set_distance_vector
          (<[neighbor_id := Fin (Link.cost link)]> (distance_vector r))
          (set_routing_table (<[neighbor_id := entry']> (routing_table r)) r)
      else r
  | _, _ => r
  end.

Definition initialize_routing_table (σ : list Link.t) (now : Z)
    (all_routers : list string) (r : t) : t :=
  foldl (init_neighbor σ now)
        (foldl (init_entry now) r all_routers)
        (map_to_list (neighbors r)).

(** *** [update_routing_table] *)

(** [inf if neighbor_cost_to_dest == inf else neighbor_cost + neighbor_cost_to_dest] *)
Definition new_cost (neighbor_cost : Z) (advertised : Cost) : Cost :=
  match advertised with
  | inf => inf
  | Fin c => Fin (neighbor_cost + c)
  end.

(** The row that the loop body works on: the one in the table, or the
    one it creates when the destination is new. *)
Definition entry_for (now : Z) (r : t) (dest : string) : RouteEntry.t :=
  match routing_table r !! dest with
  | Some e => e
  | None => RouteEntry.new now dest inf None INVALID
  end.

(** One iteration of [for dest, neighbor_cost_to_dest in received_vector.items()]. *)
Definition update_entry (from_neighbor : string) (neighbor_cost now : Z)
    (st : t * NetworkStats.t * bool) (item : string * Cost)
    : t * NetworkStats.t * bool :=
  let '(r, stats, updated) := st in
  let '(dest, advertised) := item in
  if decide (dest = id r) then st else
  let nc := new_cost neighbor_cost advertised in
  let entry := entry_for now r dest in
  let old_cost := RouteEntry.cost entry in
  let '(entry', hd', route_changed) :=
    if decide (RouteEntry.next_hop entry = Some from_neighbor) then
      if decide (nc ≠ old_cost) then
        let e1 :=
          RouteEntry.set_timeout_time (now + RIPTimers.ROUTE_TIMEOUT)
            (RouteEntry.set_last_update_time now
               (RouteEntry.set_cost nc entry)) in
        if decide (nc = inf) then
          (RouteEntry.set_garbage_time (now + RIPTimers.GARBAGE_COLLECTION)
             (RouteEntry.set_status INVALID e1),
           <[dest := now + RIPTimers.HOLD_DOWN]> (hold_down_routes r),
           true)
        else
          (RouteEntry.set_garbage_time 0 (RouteEntry.set_status VALID e1),
           hold_down_routes r, true)
      else (entry, hold_down_routes r, false)
    else if cost_lt nc (RouteEntry.cost entry) && bool_decide (nc ≠ inf) then
      match hold_down_routes r !! dest with
      | None =>
          (RouteEntry.set_garbage_time 0
             (RouteEntry.set_timeout_time (now + RIPTimers.ROUTE_TIMEOUT)
                (RouteEntry.set_last_update_time now
                   (RouteEntry.set_status VALID
                      (RouteEntry.set_next_hop (Some from_neighbor)
                         (RouteEntry.set_cost nc entry))))),
           hold_down_routes r, true)
      | Some _ => (entry, hold_down_routes r, false)
      end
    else (entry, hold_down_routes r, false) in
  let r1 :=
    set_hold_down_routes hd'
      (set_routing_table (<[dest := entry']> (routing_table r)) r) in
  if route_changed then
    (set_distance_vector
       (<[dest := RouteEntry.cost entry']> (distance_vector r1)) r1,
     NetworkStats.route_changed now stats, true)
  else (r1, stats, updated).

(** The two assignments at the top of [update_routing_table]. *)
Definition refresh (now : Z) (e : RouteEntry.t) : RouteEntry.t :=
  RouteEntry.set_timeout_time (now + RIPTimers.ROUTE_TIMEOUT)
    (RouteEntry.set_last_update_time now e).

Definition update_routing_table (σ : list Link.t) (now : Z)
    (from_neighbor : string) (received_vector : gmap string Cost)
    (r : t) (stats : NetworkStats.t) : t * NetworkStats.t * bool :=
  match link_of σ r from_neighbor with
  | None => (r, stats, false)
  | Some link =>
      let r0 :=
        set_routing_table
          (alter (refresh now) from_neighbor (routing_table r)) r in
      foldl (update_entry from_neighbor (Link.cost link) now)
            (r0, stats, false) (map_to_list received_vector)
  end.

(** *** [process_message] *)

Definition process_message (σ : list Link.t) (now : Z)
    (message : Message.t) (r : t) (stats : NetworkStats.t)
    : t * NetworkStats.t * bool :=
  match link_of σ r (Message.source message) with
  | None => (r, stats, false)
  | Some link =>
      if Link.is_operational link then
        update_routing_table σ now (Message.source message)
          (Message.distance_vector message) r stats
      else (r, stats, false)
  end.

(** *** [get_distance_vector_for_neighbor] *)

(** One iteration of [for dest, entry in self.routing_table.items()];
    the state is [vector], [poison_routes] and [self.hold_down_routes]. *)
Definition advertise_entry (self_id neighbor_id : string) (now : Z)
    (st : gmap string Cost * gset string * gmap string Z)
    (item : string * RouteEntry.t)
    : gmap string Cost * gset string * gmap string Z :=
  let '(vector, poison_routes, hd) := st in
  let '(dest, entry) := item in
  if decide (RouteEntry.status entry = GARBAGE) then st else
  let poisoned :=
    bool_decide (RouteEntry.next_hop entry = Some neighbor_id)
    && bool_decide (dest ≠ self_id) in
  let cost := if poisoned then inf else RouteEntry.cost entry in
  let poison_routes' :=
    if poisoned then {[dest]} ∪ poison_routes else poison_routes in
  match hd !! dest with
  | Some expiry =>
      if bool_decide (now < expiry) then (vector, poison_routes', hd)
      else (<[dest := cost]> vector, poison_routes', delete dest hd)
  | None => (<[dest := cost]> vector, poison_routes', hd)
  end.

(** Returns the vector, the poisoned destinations and the router, whose
    expired hold-down records have been deleted. *)
Definition get_distance_vector_for_neighbor (now : Z)
    (neighbor_id : string) (r : t)
    : gmap string Cost * gset string * t :=
  let '(vector, poison_routes, hd) :=
    foldl (advertise_entry (id r) neighbor_id now)
          (∅, ∅, hold_down_routes r) (map_to_list (routing_table r)) in
  (vector, poison_routes, set_hold_down_routes hd r).

(** *** [check_timeouts], up to its [await]

    The sweep of the timers, which is the part of the coroutine that
    writes the tables.  When a route has changed the coroutine ends
    with [await self.send_triggered_update()]; the whole of it is
    [check_timeouts_and_update] below. *)

Definition invalidate (now : Z) (e : RouteEntry.t) : RouteEntry.t :=
  RouteEntry.set_garbage_time (now + RIPTimers.GARBAGE_COLLECTION)
    (RouteEntry.set_cost inf (RouteEntry.set_status INVALID e)).

(** One iteration of [for dest, entry in list(self.routing_table.items())]. *)
Definition sweep_entry (now : Z) (st : t * bool)
    (item : string * RouteEntry.t) : t * bool :=
  let '(r, routes_changed) := st in
  let '(dest, entry) := item in
  if decide (dest = id r) then st else
  if bool_decide (RouteEntry.status entry = VALID)
     && bool_decide (0 < RouteEntry.timeout_time entry)
     && bool_decide (RouteEntry.timeout_time entry < now)
  then
    (mk (id r) (neighbors r)
        (<[dest := invalidate now entry]> (routing_table r))
        (<[dest := inf]> (distance_vector r))
        (<[dest := now + RIPTimers.HOLD_DOWN]> (hold_down_routes r)),
     true)
  else if bool_decide (RouteEntry.status entry = INVALID)
          && bool_decide (0 < RouteEntry.garbage_time entry)
          && bool_decide (RouteEntry.garbage_time entry < now)
  then
    (set_routing_table
       (<[dest := RouteEntry.set_status GARBAGE entry]> (routing_table r)) r,
     true)
  else st.

(** The boolean tells whether the triggered update is sent next. *)
Definition check_timeouts (now : Z) (r : t) (stats : NetworkStats.t)
    : t * NetworkStats.t * bool :=
  let '(r', routes_changed) :=
    foldl (sweep_entry now) (r, false) (map_to_list (routing_table r)) in
  if routes_changed
  then (r', NetworkStats.tables_changed now stats, true)
  else (r', stats, false).

(** *** [handle_link_failure], up to its [await]

    The part that writes the tables; the triggered update that follows
    when a route has changed is in [handle_link_failure_and_update]
    below. *)

Definition fail_entry (neighbor_id : string) (now : Z) (st : t * bool)
    (item : string * RouteEntry.t) : t * bool :=
  let '(r, routes_changed) := st in
  let '(dest, entry) := item in
  if bool_decide (RouteEntry.next_hop entry = Some neighbor_id)
     && bool_decide (dest ≠ id r)
  then
    (mk (id r) (neighbors r)
        (<[dest := RouteEntry.set_garbage_time
                     (now + RIPTimers.GARBAGE_COLLECTION)
                     (RouteEntry.set_status INVALID
                        (RouteEntry.set_cost inf entry))]>
           (routing_table r))
        (<[dest := inf]> (distance_vector r))
        (<[dest := now + RIPTimers.HOLD_DOWN]> (hold_down_routes r)),
     true)
  else st.

Definition handle_link_failure (now : Z) (neighbor_id : string)
    (r : t) (stats : NetworkStats.t) : t * NetworkStats.t * bool :=
  match neighbors r !! neighbor_id with
  | None => (r, stats, false)
  | Some _ =>
      let '(r', routes_changed) :=
        foldl (fail_entry neighbor_id now) (r, false)
              (map_to_list (routing_table r)) in
      if routes_changed
      then (r', NetworkStats.tables_changed now stats, true)
      else (r', stats, false)
  end.

(** *** [handle_link_recovery], up to its [await]

    The part that writes the tables; the triggered update that follows
    is in [handle_link_recovery_and_update] below. *)

Definition handle_link_recovery (now : Z) (neighbor_id : string)
    (new_cost : Z) (r : t) (stats : NetworkStats.t)
    : t * NetworkStats.t * bool :=
  match neighbors r !! neighbor_id with
  | None => (r, stats, false)
  | Some _ =>
      match routing_table r !! neighbor_id with
      | None => (r, stats, false)
      | Some entry =>
          let entry' :=
            RouteEntry.set_timeout_time (now + RIPTimers.ROUTE_TIMEOUT)
              (RouteEntry.set_last_update_time now
                 (RouteEntry.set_status VALID
                    (RouteEntry.set_next_hop (Some neighbor_id)
                       (RouteEntry.set_cost (Fin new_cost) entry)))) in
          (set_distance_vector
             (<[neighbor_id := Fin new_cost]> (distance_vector r))
             (set_routing_table
                (<[neighbor_id := entry']> (routing_table r)) r),
           NetworkStats.tables_changed now stats, true)
      end
  end.

(** *** [send_message], up to its [await]

    [dropped] is the answer of [link.should_drop_packet()], which the
    program draws at random; it is only asked for when the link is
    operational.  The result is the message handed to the coordinator
    after the propagation delay, if any. *)
Definition send_message (σ : list Link.t) (now : Z) (dropped : bool)
    (neighbor_id : string) (distance_vector : gmap string Cost)
    (poison_routes : gset string) (r : t) (stats : NetworkStats.t)
    : option Message.t * NetworkStats.t :=
  match link_of σ r neighbor_id with
  | None => (None, stats)
  | Some link =>
      if negb (Link.is_operational link) then (None, stats)
      else if dropped then (None, stats)
      else
        let poisoned := bool_decide (poison_routes ≠ ∅) in
        (Some (Message.mk (id r) neighbor_id distance_vector now
                 (id r +:+ "-" +:+ neighbor_id +:+ "-" +:+ pretty (now * 1000))
                 (if poisoned then POISON_REVERSE else REGULAR)
                 poison_routes),
         NetworkStats.message_sent poisoned stats)
  end.

(** *** One advertisement

    One iteration of the loop of [send_periodic_update] and of
    [send_triggered_update], for a neighbour [neighbor_id] of the
    router, up to the [await] inside [send_message]: the vector is built
    and handed to [send_message] when the link is operational. *)
Definition advertise_to (σ : list Link.t) (now : Z) (dropped : bool)
    (neighbor_id : string) (r : t) (stats : NetworkStats.t)
    : option Message.t * t * NetworkStats.t :=
  match link_of σ r neighbor_id with
  | Some link =>
      if Link.is_operational link then
        let '(dv, poison_routes, r') :=
          get_distance_vector_for_neighbor now neighbor_id r in
        let '(message, stats') :=
          send_message σ now dropped neighbor_id dv poison_routes r' stats in
        (message, r', stats')
      else (None, r, stats)
  | None => (None, r, stats)
  end.

(** *** [send_triggered_update], and the coroutines that end with it

    [check_timeouts], [handle_link_failure] and [handle_link_recovery]
    end, when they have changed a route, with
    [await self.send_triggered_update()].  That call returns at once
    when the last triggered update is less than
    [MIN_TRIGGERED_INTERVAL] old; otherwise its loop builds, for each
    neighbour with an operational link, the advertisement for that
    neighbour and hands it to [send_message], where the coroutine
    sleeps for the propagation delay.  So the iterations of one call
    happen at their own clock readings, and on the store of links as it
    is by then.

    An iteration is given by what it finds when it starts: the store,
    the clock, the neighbour reached and the answer of the drop test.
    [sends] lists the iterations of one call in the order in which they
    happen; a call that returns at its rate limit, or for a router
    without neighbours, makes none.  The result is the messages handed
    over, oldest first, the router and the statistics. *)
Record sending := mk_sending {
  sending_store : list Link.t;
  sending_clock : Z;
  sending_dropped : bool;
  sending_neighbor : string
}.

Definition send_triggered_update (sends : list sending) (r : t)
    (stats : NetworkStats.t) : list Message.t * t * NetworkStats.t :=
  foldl (λ (st : list Message.t * t * NetworkStats.t) s,
           let '(message, r', stats') :=
             advertise_to (sending_store s) (sending_clock s)
               (sending_dropped s) (sending_neighbor s) st.1.2 st.2 in
           (st.1.1 ++ option_list message, r', stats'))
        ([], r, stats) sends.

(** The end of the three coroutines: the triggered update when a route
    has changed, nothing otherwise. *)
Definition then_triggered_update (sends : list sending)
    (res : t * NetworkStats.t * bool)
    : list Message.t * t * NetworkStats.t * bool :=
  if res.2
  then (send_triggered_update sends res.1.1 res.1.2, true)
  else ([], res.1.1, res.1.2, false).

(** The whole of [check_timeouts], of [handle_link_failure] and of
    [handle_link_recovery]: the part that writes the tables, then the
    triggered update. *)
Definition check_timeouts_and_update (now : Z) (sends : list sending)
    (r : t) (stats : NetworkStats.t)
    : list Message.t * t * NetworkStats.t * bool :=
  then_triggered_update sends (check_timeouts now r stats).

Definition handle_link_failure_and_update (now : Z) (neighbor_id : string)
    (sends : list sending) (r : t) (stats : NetworkStats.t)
    : list Message.t * t * NetworkStats.t * bool :=
  then_triggered_update sends (handle_link_failure now neighbor_id r stats).

Definition handle_link_recovery_and_update (now : Z) (neighbor_id : string)
    (new_cost : Z) (sends : list sending) (r : t) (stats : NetworkStats.t)
    : list Message.t * t * NetworkStats.t * bool :=
  then_triggered_update sends
    (handle_link_recovery now neighbor_id new_cost r stats).
End AsyncRouter.

(** ** The coordinator *)

Module AsyncNetwork.
(** One element of [topology_data['links']]; [delay] and [loss_rate] are
    read by the program but end up in fields that are not modelled. *)
Record link_data := mk_link_data {
  ld_router1 : string;
  ld_router2 : string;
  ld_cost : Z
}.

Record t := mk {
  routers : gmap string AsyncRouter.t;
  links : gmap (string * string) nat;
  store : list Link.t;
  stats : NetworkStats.t
}.

(** [AsyncNetwork()] *)
Definition new : t := mk ∅ ∅ [] NetworkStats.fresh.

(** First loop of [_load_json_topology]: one [Link] object per record,
    registered under both orientations of its endpoints. *)
Definition load_link
    (st : gmap (string * string) nat * list Link.t * gset string)
    (d : link_data)
    : gmap (string * string) nat * list Link.t * gset string :=
  let '(lks, σ, router_ids) := st in
  let r1 := ld_router1 d in
  let r2 := ld_router2 d in
  let ref := length σ in
  (<[(r2, r1) := ref]> (<[(r1, r2) := ref]> lks),
   σ ++ [Link.mk r1 r2 (ld_cost d) UP 0],
   {[r1]} ∪ {[r2]} ∪ router_ids).

(** Inner loop of the last part of [_load_json_topology]. *)
Definition attach_links (lks : gmap (string * string) nat)
    (router_id : string) (router : AsyncRouter.t) : AsyncRouter.t :=
  foldl (λ rt (item : string * string * nat),
           let '((r1, r2), l) := item in
           if decide (r1 = router_id)
           then AsyncRouter.add_neighbor r2 l rt else rt)
        router (map_to_list lks).

Definition _load_json_topology (topology_data : list link_data) (net : t) : t :=
  let '(lks, σ, router_ids) :=
    foldl load_link (links net, store net, ∅) topology_data in
  let rs :=
    foldl (λ m router_id, <[router_id := AsyncRouter.new router_id]> m)
          (routers net) (elements router_ids) in
  mk (map_imap (λ router_id router, Some (attach_links lks router_id router)) rs)
     lks σ (stats net).

Definition default_topology : list link_data :=
  [ mk_link_data "A" "B" 2;
    mk_link_data "A" "C" 5;
    mk_link_data "B" "C" 1;
    mk_link_data "B" "D" 3;
    mk_link_data "C" "D" 2 ].

Definition load_default_topology (net : t) : t :=
  _load_json_topology default_topology net.

Definition initialize_routing_tables (now : Z) (net : t) : t :=
  let all_router_ids := (map_to_list (routers net)).*1 in
  mk (AsyncRouter.initialize_routing_table (store net) now all_router_ids
        <$> routers net)
     (links net) (store net) (stats net).

(** [await self.routers[r].handle_link_failure(n)] guarded by
    [if r in self.routers]: the table part of the handler.  The
    triggered update the handler ends with, which counts messages and
    deletes expired hold-down records, is not part of the coordinator
    operations below. *)
Definition notify_link_failure (now : Z) (r n : string) (net : t) : t :=
  match routers net !! r with
  | None => net
  | Some router =>
      let '(router', stats', _) :=
        AsyncRouter.handle_link_failure now n router (stats net) in
      mk (<[r := router']> (routers net)) (links net) (store net) stats'
  end.

Definition _simulate_link_failure (now : Z) (r1 r2 : string) (link : nat)
    (net : t) : t :=
  let σ :=
    alter (λ l, Link.set_last_failure_time now (Link.set_status DOWN l))
          link (store net) in
  notify_link_failure now r2 r1
    (notify_link_failure now r1 r2
       (mk (routers net) (links net) σ (stats net))).

(** [for link in self.links.values(): link.status = LinkStatus.UP] *)
Definition all_links_up (lks : gmap (string * string) nat)
    (σ : list Link.t) : list Link.t :=
  foldl (λ σ (item : string * string * nat),
           alter (Link.set_status UP) item.2 σ)
        σ (map_to_list lks).

Definition restart_simulation (now : Z) (net : t) : t :=
  let stats0 :=
    NetworkStats.set_periodic_updates_enabled true NetworkStats.fresh in
  let net1 :=
    initialize_routing_tables now
      (mk (routers net) (links net) (store net) stats0) in
  mk (routers net1) (links net1) (all_links_up (links net1) (store net1))
     (stats net1).

(** [await self.routers[r].handle_link_recovery(n, link.cost)] guarded by
    [if r in self.routers]: the table part of the handler, as for
    [notify_link_failure]. *)
Definition notify_link_recovery (now : Z) (r n : string) (new_cost : Z)
    (net : t) : t :=
  match routers net !! r with
  | None => net
  | Some router =>
      let '(router', stats', _) :=
        AsyncRouter.handle_link_recovery now n new_cost router (stats net) in
      mk (<[r := router']> (routers net)) (links net) (store net) stats'
  end.

(** [_schedule_link_recovery] once its sleep is over, with the network
    still running. *)
Definition _schedule_link_recovery (now : Z) (r1 r2 : string) (link : nat)
    (net : t) : t :=
  match store net !! link with
  | Some l =>
      if decide (Link.status l = DOWN) then
        let σ := alter (Link.set_status UP) link (store net) in
        notify_link_recovery now r2 r1 (Link.cost l)
          (notify_link_recovery now r1 r2 (Link.cost l)
             (mk (routers net) (links net) σ (stats net)))
      else net
  | None => net
  end.

Definition toggle_periodic_updates (net : t) : t :=
  mk (routers net) (links net) (store net)
     (NetworkStats.set_periodic_updates_enabled
        (negb (NetworkStats.periodic_updates_enabled (stats net)))
        (stats net)).

(** One round of [convergence_monitor], after its sleep. *)
Definition convergence_monitor (now : Z) (s : NetworkStats.t)
    : NetworkStats.t :=
  if bool_decide (NetworkStats.convergence_state s = CONVERGING)
     && bool_decide (RIPTimers.CONVERGENCE_TIMEOUT
                     < now - NetworkStats.last_route_change_time s)
  then NetworkStats.converged now s
  else s.

(** How a coordinator operation ends: normally, or with the [KeyError]
    of a dictionary access, the state being what it was at that point. *)
Inductive outcome :=
| Returned (net : t)
| KeyError (net : t).

(** One endpoint's part of [_simulate_cost_change]:
    [self.routers[r].neighbors[n].cost = new_cost] and the call of
    [handle_link_recovery], guarded by [if r in self.routers]. *)
Definition cost_change_at (now : Z) (r n : string) (new_cost : Z)
    (net : t) : outcome :=
  match routers net !! r with
  | None => Returned net
  | Some router =>
      match AsyncRouter.neighbors router !! n with
      | None => KeyError net
      | Some l =>
          Returned
            (notify_link_recovery now r n new_cost
               (mk (routers net) (links net)
                   (alter (Link.set_cost new_cost) l (store net))
                   (stats net)))
      end
  end.

(** [_simulate_cost_change] once the link [(r1, r2)] and the new cost
    have been drawn. *)
Definition _simulate_cost_change (now : Z) (r1 r2 : string) (link : nat)
    (new_cost : Z) (net : t) : outcome :=
  match store net !! link with
  | None => Returned net
  | Some l =>
      if decide (new_cost ≠ Link.cost l) then
        let net1 :=
          mk (routers net) (links net)
             (alter (Link.set_cost new_cost) link (store net)) (stats net) in
        match cost_change_at now r1 r2 new_cost net1 with
        | Returned net2 => cost_change_at now r2 r1 new_cost net2
        | KeyError net2 => KeyError net2
        end
      else Returned net
  end.
End AsyncNetwork.

(** ** The queue between the simulation and the display

    [queue.Queue(maxsize=1000)], used from one thread at a time: the
    list of the updates waiting, oldest first.  The payload of an update
    is a dictionary whose shape depends on the kind of update; it is a
    parameter here. *)

Module VisualizationQueue.
Section queue.
Context {A : Type}.

Record VisualizationUpdate := mk_update {
  update_type : string;
  data : A;
  timestamp : Z
}.

Record t := mk {
  queue : list VisualizationUpdate;
  running : bool
}.

Definition maxsize : nat := 1000.

(** [VisualizationQueue()] *)
Definition new : t := mk [] true.

(** [put_nowait] raises [Full] when the queue holds [maxsize] items; the
    handler then takes the oldest one out and puts again.  [get_nowait]
    on the empty queue raises [Empty], which the inner handler passes
    over. *)
Definition put_update (now : Z) (ty : string) (d : A) (q : t) : t :=
  if negb (running q) then q else
  let update := mk_update ty d now in
  if bool_decide (length (queue q) < maxsize)%nat
  then mk (queue q ++ [update]) (running q)
  else
    match queue q with
    | [] => q
    | _ :: rest => mk (rest ++ [update]) (running q)
    end.

(** Returns the updates taken out, oldest first, and the queue left. *)
Definition get_updates (q : t) : list VisualizationUpdate * t :=
  (queue q, mk [] (running q)).

Definition stop (q : t) : t := mk (queue q) false.

(** [put_update] once for each update of a list, oldest first, each
    with its own type, data and clock reading. *)
Definition put_all (us : list VisualizationUpdate) (q : t) : t :=
  foldl (λ q u, put_update (timestamp u) (update_type u) (data u) q) q us.
End queue.
#[global] Arguments VisualizationUpdate : clear implicits.
#[global] Arguments t : clear implicits.
End VisualizationQueue.

Import AsyncRouter.

(** ** The router as a transition system

    The atomic segments of a router's coroutines, and the
    re-initialisation done by a restart.  Between two of them the
    scheduler may run anything else, and the store of links may have been
    changed by the coordinator, so each step takes its own store, clock
    and statistics. *)

Inductive router_step : AsyncRouter.t → AsyncRouter.t → Prop :=
| step_initialize σ now all_routers r :
    id r ∈ all_routers →
    router_step r (initialize_routing_table σ now all_routers r)
| step_process_message σ now message stats r :
    router_step r (process_message σ now message r stats).1.1
| step_check_timeouts now stats r :
    router_step r (check_timeouts now r stats).1.1
| step_link_failure now n stats r :
    router_step r (handle_link_failure now n r stats).1.1
| step_link_recovery now n c stats r :
    router_step r (handle_link_recovery now n c r stats).1.1
| step_advertise now n r :
    router_step r (get_distance_vector_for_neighbor now n r).2.

(** Timer sweeps one after the other, each at its own time. *)
Definition run_sweeps (sweeps : list (Z * NetworkStats.t))
    (r : AsyncRouter.t) : AsyncRouter.t :=
  foldl (λ r x, (check_timeouts x.1 r x.2).1.1) r sweeps.

(** ** The statistics as a transition system *)

(** The statistics after [k] counted route changes, the last at [now]. *)
Definition after_route_changes (now k : Z) (s : NetworkStats.t)
    : NetworkStats.t :=
  NetworkStats.mk now (NetworkStats.total_route_changes s + k)
    (NetworkStats.total_messages s) (NetworkStats.poison_reverse_messages s)
    CONVERGING (NetworkStats.convergence_detected_at s)
    (NetworkStats.periodic_updates_enabled s).

(** The transitions of the shared statistics object: every place of the
    program that assigns to a field of [network.stats]. *)
Inductive stats_step : NetworkStats.t → NetworkStats.t → Prop :=
| stats_process_message σ now message r s :
    stats_step s (process_message σ now message r s).1.2
| stats_check_timeouts now r s :
    stats_step s (check_timeouts now r s).1.2
| stats_link_failure now n r s :
    stats_step s (handle_link_failure now n r s).1.2
| stats_link_recovery now n c r s :
    stats_step s (handle_link_recovery now n c r s).1.2
| stats_send_message σ now dropped n dv poison_routes r s :
    stats_step s (send_message σ now dropped n dv poison_routes r s).2
| stats_convergence_monitor now s :
    stats_step s (AsyncNetwork.convergence_monitor now s)
| stats_toggle_periodic_updates net :
    stats_step (AsyncNetwork.stats net)
      (AsyncNetwork.stats (AsyncNetwork.toggle_periodic_updates net))
| stats_restart_simulation now net :
    stats_step (AsyncNetwork.stats net)
      (AsyncNetwork.stats (AsyncNetwork.restart_simulation now net)).

(** ** Properties used in the statements *)

(** The self-route: cost 0 through the router itself, VALID. *)
Definition self_route_ok (r : AsyncRouter.t) : Prop :=
  ∃ e, routing_table r !! id r = Some e
       ∧ RouteEntry.cost e = Fin 0
       ∧ RouteEntry.next_hop e = Some (id r)
       ∧ RouteEntry.status e = VALID.

(** What the loops leave alone: the identity, the neighbours and the
    router's own row. *)
Definition self_row (r : AsyncRouter.t) :=
  (id r, neighbors r, routing_table r !! id r).

(** The invariant carried along the runs of a router. *)
Definition self_route_inv (r : AsyncRouter.t) : Prop :=
  neighbors r !! id r = None ∧ self_route_ok r.

(** A cost in the range the specification gives: [0..15] or [inf]. *)
Definition cost_in_range (c : Cost) : Prop :=
  match c with
  | inf => True
  | Fin z => 0 ≤ z ≤ 15
  end.

Definition cost_nonneg (c : Cost) : Prop :=
  match c with
  | inf => True
  | Fin z => 0 ≤ z
  end.

#[global] Instance cost_nonneg_dec c : Decision (cost_nonneg c).
Proof. destruct c; simpl; apply _. Defined.

(** Where a finite cost found in the table after an update comes from:
    it was there before, or it is the link cost plus the advertised
    cost. *)
Definition cost_origin (link_cost : Z) (vec : gmap string Cost)
    (r : AsyncRouter.t) (d : string) (c : Z) : Prop :=
  (∃ e0, routing_table r !! d = Some e0 ∧ RouteEntry.cost e0 = Fin c)
  ∨ (∃ a, vec !! d = Some (Fin a) ∧ c = link_cost + a).

(** Two rows that agree on the route they describe. *)
Definition same_route (e' e : RouteEntry.t) : Prop :=
  RouteEntry.cost e' = RouteEntry.cost e
  ∧ RouteEntry.next_hop e' = RouteEntry.next_hop e
  ∧ RouteEntry.status e' = RouteEntry.status e.

(** The destination is held down and its row still describes the route
    of [e]. *)
Definition held_route (D : string) (e : RouteEntry.t) (r : AsyncRouter.t) : Prop :=
  is_Some (hold_down_routes r !! D)
  ∧ ∃ e', routing_table r !! D = Some e' ∧ same_route e' e.

(** The row written by the first loop of [initialize_routing_table]. *)
Definition initial_entry (now : Z) (self dest : string) : RouteEntry.t :=
  if decide (dest = self)
  then RouteEntry.new now dest (Fin 0) (Some self) VALID
  else RouteEntry.new now dest inf None INVALID.

(** The part of a row that [update_routing_table] compares with an
    advertisement; a missing row counts as the row the loop would
    create. *)
Definition view (r : AsyncRouter.t) (d : string) : Cost * option string :=
  match routing_table r !! d with
  | Some e => (RouteEntry.cost e, RouteEntry.next_hop e)
  | None => (inf, None)
  end.

(** An advertised item that can no longer change the table: the
    destination is the router itself, or the route goes through the
    advertiser at the advertised cost, or the route goes elsewhere and the
    advertised one is not better or the destination is held down. *)
Definition settled (from : string) (nc : Z) (r : AsyncRouter.t)
    (x : string * Cost) : Prop :=
  x.1 = id r
  ∨ (if decide ((view r x.1).2 = Some from)
     then new_cost nc x.2 = (view r x.1).1
     else cost_lt (new_cost nc x.2) (view r x.1).1
          && bool_decide (new_cost nc x.2 ≠ inf) = false
          ∨ is_Some (hold_down_routes r !! x.1)).

(** What an advertisement under construction says about a destination:
    its cost in the vector, whether it is poisoned, and its hold-down
    record. *)
Definition advertised_at (D : string)
    (st : gmap string Cost * gset string * gmap string Z)
    : option Cost * bool * option Z :=
  (st.1.1 !! D, bool_decide (D ∈ st.1.2), st.2 !! D).

(** ** The loop bodies, taken apart

    Each loop body decides what to do with a destination from the row of
    that destination (and its hold-down record), then writes under that
    key.  The decision and the write are named here; the equations that
    tie them to the loop bodies are [update_entry_unfold] and its
    siblings. *)

Definition route_decision (from_neighbor : string) (nc : Cost) (now : Z)
    (entry : RouteEntry.t) (held : option Z)
    : RouteEntry.t * option Z * bool :=
  if decide (RouteEntry.next_hop entry = Some from_neighbor) then
    if decide (nc ≠ RouteEntry.cost entry) then
      let e1 :=
        RouteEntry.set_timeout_time (now + RIPTimers.ROUTE_TIMEOUT)
          (RouteEntry.set_last_update_time now (RouteEntry.set_cost nc entry)) in
      if decide (nc = inf) then
        (RouteEntry.set_garbage_time (now + RIPTimers.GARBAGE_COLLECTION)
           (RouteEntry.set_status INVALID e1),
         Some (now + RIPTimers.HOLD_DOWN), true)
      else
        (RouteEntry.set_garbage_time 0 (RouteEntry.set_status VALID e1),
         None, true)
    else (entry, None, false)
  else if cost_lt nc (RouteEntry.cost entry) && bool_decide (nc ≠ inf) then
    match held with
    | None =>
        (RouteEntry.set_garbage_time 0
           (RouteEntry.set_timeout_time (now + RIPTimers.ROUTE_TIMEOUT)
              (RouteEntry.set_last_update_time now
                 (RouteEntry.set_status VALID
                    (RouteEntry.set_next_hop (Some from_neighbor)
                       (RouteEntry.set_cost nc entry))))),
         None, true)
    | Some _ => (entry, None, false)
    end
  else (entry, None, false).

Definition apply_decision (now : Z) (dest : string)
    (dec : RouteEntry.t * option Z * bool)
    (st : t * NetworkStats.t * bool) : t * NetworkStats.t * bool :=
  let r := st.1.1 in
  (mk (id r) (neighbors r)
     (<[dest := dec.1.1]> (routing_table r))
     (if dec.2 then <[dest := RouteEntry.cost dec.1.1]> (distance_vector r)
      else distance_vector r)
     (match dec.1.2 with
      | Some t => <[dest := t]> (hold_down_routes r)
      | None => hold_down_routes r
      end),
  if dec.2 then NetworkStats.route_changed now st.1.2 else st.1.2,
  if dec.2 then true else st.2).

(** What the sweep does to a row: nothing, expire it, or collect it. *)
Definition sweep_action (now : Z) (entry : RouteEntry.t)
    : option (RouteEntry.t * bool) :=
  if bool_decide (RouteEntry.status entry = VALID)
     && bool_decide (0 < RouteEntry.timeout_time entry)
     && bool_decide (RouteEntry.timeout_time entry < now)
  then Some (invalidate now entry, true)
  else if bool_decide (RouteEntry.status entry = INVALID)
          && bool_decide (0 < RouteEntry.garbage_time entry)
          && bool_decide (RouteEntry.garbage_time entry < now)
  then Some (RouteEntry.set_status GARBAGE entry, false)
  else None.

Definition apply_sweep (now : Z) (dest : string)
    (act : option (RouteEntry.t * bool)) (st : t * bool) : t * bool :=
  match act with
  | Some (e, expired) =>
      (mk (id st.1) (neighbors st.1)
          (<[dest := e]> (routing_table st.1))
          (if expired then <[dest := inf]> (distance_vector st.1)
           else distance_vector st.1)
          (if expired
           then <[dest := now + RIPTimers.HOLD_DOWN]> (hold_down_routes st.1)
           else hold_down_routes st.1),
       true)
  | None => st
  end.

Definition apply_failure (now : Z) (dest : string) (entry : RouteEntry.t)
    (st : t * bool) : t * bool :=
  (mk (id st.1) (neighbors st.1)
      (<[dest := RouteEntry.set_garbage_time
                   (now + RIPTimers.GARBAGE_COLLECTION)
                   (RouteEntry.set_status INVALID
                      (RouteEntry.set_cost inf entry))]>
         (routing_table st.1))
      (<[dest := inf]> (distance_vector st.1))
      (<[dest := now + RIPTimers.HOLD_DOWN]> (hold_down_routes st.1)),
   true).

(** What an advertisement does with a row: the cost to put in the
    vector if any, whether the destination is poisoned, and whether its
    hold-down record is deleted. *)
Definition advertise_action (self_id neighbor_id : string) (now : Z)
    (dest : string) (entry : RouteEntry.t) (held : option Z)
    : option (option Cost * bool * bool) :=
  if decide (RouteEntry.status entry = GARBAGE) then None else
  let poisoned :=
    bool_decide (RouteEntry.next_hop entry = Some neighbor_id)
    && bool_decide (dest ≠ self_id) in
  let cost := if poisoned then inf else RouteEntry.cost entry in
  match held with
  | Some expiry =>
      if bool_decide (now < expiry) then Some (None, poisoned, false)
      else Some (Some cost, poisoned, true)
  | None => Some (Some cost, poisoned, false)
  end.

Definition apply_advertise (dest : string)
    (act : option (option Cost * bool * bool))
    (st : gmap string Cost * gset string * gmap string Z)
    : gmap string Cost * gset string * gmap string Z :=
  match act with
  | None => st
  | Some (c, poisoned, expired) =>
      (match c with Some c => <[dest := c]> st.1.1 | None => st.1.1 end,
       if poisoned then {[dest]} ∪ st.1.2 else st.1.2,
       if expired then delete dest st.2 else st.2)
  end.

(** What the neighbour loop of the initialisation does with a
    neighbour: the row it writes, if any. *)
Definition init_action (σ : list Link.t) (now : Z) (neighbor_id : string)
    (l : nat) (row : option RouteEntry.t) : option (RouteEntry.t * Z) :=
  match σ !! l, row with
  | Some link, Some entry =>
      if Link.is_operational link then
        Some (RouteEntry.set_last_update_time now
                (RouteEntry.set_status VALID
                   (RouteEntry.set_next_hop (Some neighbor_id)
                      (RouteEntry.set_cost (Fin (Link.cost link)) entry))),
              Link.cost link)
      else None
  | _, _ => None
  end.

Definition apply_init (neighbor_id : string)
    (act : option (RouteEntry.t * Z)) (r : t) : t :=
  match act with
  | Some (e, c) =>
      set_distance_vector (<[neighbor_id := Fin c]> (distance_vector r))
        (set_routing_table (<[neighbor_id := e]> (routing_table r)) r)
  | None => r
  end.

(** ** Properties used in the statements about single operations *)

(** The three dictionaries of a router at one destination. *)
Definition at_dest (D : string) (r : AsyncRouter.t)
    : option RouteEntry.t * option Cost * option Z :=
  (routing_table r !! D, distance_vector r !! D, hold_down_routes r !! D).

(** The row and the vector item of a destination. *)
Definition row_and_cost (D : string) (r : AsyncRouter.t)
    : option RouteEntry.t * option Cost :=
  (routing_table r !! D, distance_vector r !! D).

(** A row made unreachable, by a link failure or by the expiry of its
    timeout: cost [inf], INVALID, garbage timer started. *)
Definition unreachable_row (now : Z) (e : RouteEntry.t) : RouteEntry.t :=
  RouteEntry.mk (RouteEntry.destination e) inf (RouteEntry.next_hop e)
    INVALID (RouteEntry.last_update_time e) (RouteEntry.timeout_time e)
    (now + RIPTimers.GARBAGE_COLLECTION).

(** The row of a neighbour after [handle_link_recovery]: the direct
    route at the cost given, its timer started; the garbage timer is not
    touched. *)
Definition recovered_row (now : Z) (n : string) (c : Z) (e : RouteEntry.t)
    : RouteEntry.t :=
  RouteEntry.mk (RouteEntry.destination e) (Fin c) (Some n) VALID now
    (now + RIPTimers.ROUTE_TIMEOUT) (RouteEntry.garbage_time e).

(** The router as the loop of [update_routing_table] finds it: the row
    of the advertiser refreshed. *)
Definition refreshed (now : Z) (from : string) (r : AsyncRouter.t)
    : AsyncRouter.t :=
  set_routing_table (alter (refresh now) from (routing_table r)) r.

(** A row whose status agrees with its cost: a VALID row has a finite
    cost and a next hop, any other row has cost [inf]. *)
Definition row_coherent (e : RouteEntry.t) : Prop :=
  match RouteEntry.status e with
  | VALID => RouteEntry.cost e ≠ inf ∧ is_Some (RouteEntry.next_hop e)
  | _ => RouteEntry.cost e = inf
  end.

(** What every operation of a router keeps: the rows are coherent and
    every destination that had a row has one. *)
Definition keeps_rows (r r' : AsyncRouter.t) : Prop :=
  (map_Forall (λ _ e, row_coherent e) (routing_table r) →
   map_Forall (λ _ e, row_coherent e) (routing_table r'))
  ∧ dom (routing_table r) ⊆ dom (routing_table r').

(** [distance_vector] holds, for a destination, the cost of its row; a
    row without an item in [distance_vector] is an unreachable one. *)
Definition vector_mirrors_table (r : AsyncRouter.t) : Prop :=
  ∀ D,
    match routing_table r !! D, distance_vector r !! D with
    | Some e, Some c => RouteEntry.cost e = c
    | Some e, None => RouteEntry.cost e = inf
    | None, Some _ => False
    | None, None => True
    end.

(** What holds of the statistics at every moment. *)
Definition stats_ok (s : NetworkStats.t) : Prop :=
  (NetworkStats.convergence_state s = CONVERGED →
   RIPTimers.CONVERGENCE_TIMEOUT
   < NetworkStats.convergence_detected_at s
     - NetworkStats.last_route_change_time s)
  ∧ NetworkStats.convergence_state s ≠ DIVERGING
  ∧ 0 ≤ NetworkStats.total_route_changes s
  ∧ 0 ≤ NetworkStats.poison_reverse_messages s
  ∧ NetworkStats.poison_reverse_messages s ≤ NetworkStats.total_messages s.

(** A link object between two routers, as [_load_json_topology] makes
    it: UP, never failed. *)
Definition joins (a b : string) (link : Link.t) : Prop :=
  Link.status link = UP
  ∧ Link.last_failure_time link = 0
  ∧ ((Link.router1 link = a ∧ Link.router2 link = b)
     ∨ (Link.router1 link = b ∧ Link.router2 link = a)).

(** A router named by some record of the topology. *)
Definition endpoint_of (topo : list AsyncNetwork.link_data) (a : string)
    : Prop :=
  ∃ d, d ∈ topo
       ∧ (AsyncNetwork.ld_router1 d = a ∨ AsyncNetwork.ld_router2 d = a).

(** The cost of the route to a destination; a destination without a row
    counts as unreachable, which is the row the loop of
    [update_routing_table] creates for it. *)
Definition route_cost (r : AsyncRouter.t) (D : string) : Cost := (view r D).1.

(** The items of a vector, for destinations other than the router
    itself, whose route has another cost in [r'] than in [r]. *)
Definition changed_routes (vec : gmap string Cost) (r r' : AsyncRouter.t)
    : list (string * Cost) :=
  filter (λ x, x.1 ≠ id r ∧ route_cost r' x.1 ≠ route_cost r x.1)
         (map_to_list vec).

(** The counters of [s'] are the ones of [s] or larger, by at most one
    message; a poison-reverse message is counted only with a message,
    and a counted route change leaves the state CONVERGING. *)
Definition counters_grow (s s' : NetworkStats.t) : Prop :=
  NetworkStats.total_route_changes s ≤ NetworkStats.total_route_changes s'
  ∧ NetworkStats.total_messages s ≤ NetworkStats.total_messages s'
  ∧ NetworkStats.total_messages s' ≤ NetworkStats.total_messages s + 1
  ∧ NetworkStats.poison_reverse_messages s
    ≤ NetworkStats.poison_reverse_messages s'
  ∧ NetworkStats.poison_reverse_messages s'
    - NetworkStats.poison_reverse_messages s
    ≤ NetworkStats.total_messages s' - NetworkStats.total_messages s
  ∧ (NetworkStats.total_route_changes s
     < NetworkStats.total_route_changes s' →
     NetworkStats.convergence_state s' = CONVERGING).

(** The statistics after [j] counted changes. *)
Definition counted (now j : Z) (s : NetworkStats.t) : NetworkStats.t :=
  if bool_decide (0 < j) then after_route_changes now j s else s.

(** Whether the iteration for an item changes the route, read off the
    router as the iteration finds it. *)
Definition hit (from : string) (nc now : Z) (r : AsyncRouter.t)
    (x : string * Cost) : Prop :=
  x.1 ≠ id r
  ∧ (route_decision from (new_cost nc x.2) now (entry_for now r x.1)
       (hold_down_routes r !! x.1)).2 = true.

#[global] Instance hit_dec from nc now r x : Decision (hit from nc now r x).
Proof. unfold hit. apply _. Defined.

(** What the triggered update that ends a coroutine may have done to a
    hold-down record: nothing, or it has deleted a record that had
    expired by the clock of one of its iterations. *)
Definition kept_or_expired (sends : list sending) (before after : option Z)
    : Prop :=
  after = before
  ∨ (after = None
     ∧ ∃ expiry s, before = Some expiry ∧ s ∈ sends
                   ∧ expiry ≤ sending_clock s).

(** ** Runs of the program used as examples *)

Module Scenario.
Import AsyncNetwork.

Definition router (name : string) (net : AsyncNetwork.t) : AsyncRouter.t :=
  default (AsyncRouter.new name) (routers net !! name).

(** The default topology, loaded and initialised at time 0. *)
Definition loaded : AsyncNetwork.t := load_default_topology AsyncNetwork.new.
Definition net0 : AsyncNetwork.t := initialize_routing_tables 0 loaded.

(** What B advertises to A, and C to A, from their initial tables. *)
Definition vector_B_to_A : gmap string Cost :=
  (get_distance_vector_for_neighbor 10 "A" (router "B" net0)).1.1.
Definition vector_C_to_A : gmap string Cost :=
  (get_distance_vector_for_neighbor 35 "A" (router "C" net0)).1.1.

Definition message_B_to_A (now : Z) : Message.t :=
  Message.mk "B" "A" vector_B_to_A now "B-A" REGULAR ∅.

(** A takes B's advertisement out of its inbox at time [now]. *)
Definition deliver_to_A (now : Z) (net : AsyncNetwork.t) : AsyncNetwork.t :=
  let '(r', stats', _) :=
    process_message (store net) now (message_B_to_A now)
      (router "A" net) (stats net) in
  AsyncNetwork.mk (<["A" := r']> (routers net)) (links net) (store net) stats'.

(** B's periodic advertisement reaches A every 15 seconds. *)
Definition net10 := deliver_to_A 10 net0.
Definition net25 := deliver_to_A 25 net10.
Definition net100 :=
  deliver_to_A 100 (deliver_to_A 85 (deliver_to_A 70 (deliver_to_A 55
    (deliver_to_A 40 net25)))).

(** The link A-B fails at time 30 and the simulation is restarted at 40. *)
Definition net30_failed := _simulate_link_failure 30 "A" "B" 0 net0.
Definition net40_restarted := restart_simulation 40 net30_failed.
Definition net40_fresh := initialize_routing_tables 40 loaded.

(** The link A-B fails at 30 after A has learnt routes through B, comes
    back at 50, and A sweeps its timers at 95. *)
Definition net30 := _simulate_link_failure 30 "A" "B" 0 net10.
Definition net50 := _schedule_link_recovery 50 "A" "B" 0 net30.
Definition A95 : AsyncRouter.t :=
  (check_timeouts 95 (router "A" net50) (stats net50)).1.1.

(** Three routers in a line, both links of cost 10. *)
Definition line_topology : list link_data :=
  [ mk_link_data "A" "B" 10; mk_link_data "B" "C" 10 ].
Definition line0 : AsyncNetwork.t :=
  initialize_routing_tables 0
    (_load_json_topology line_topology AsyncNetwork.new).
Definition line_vector_B_to_A : gmap string Cost :=
  (get_distance_vector_for_neighbor 10 "A" (router "B" line0)).1.1.
End Scenario.

#[global] Arguments update_entry : simpl never.
#[global] Arguments sweep_entry : simpl never.
#[global] Arguments fail_entry : simpl never.
#[global] Arguments advertise_entry : simpl never.
#[global] Arguments init_entry : simpl never.
#[global] Arguments init_neighbor : simpl never.

(** * Proofs *)

(** ** Loops as folds *)

Section fold_lemmas.
Context {S X : Type} (f : S → X → S).

(** A property kept by every iteration is kept by the loop. *)
Lemma foldl_invariant (P : S → Prop) (l : list X) (s : S) :
  (∀ s x, x ∈ l → P s → P (f s x)) → P s → P (foldl f s l).
Proof.
  revert s. induction l as [|x l IH]; intros s Hstep Hs; simpl; [done|].
  apply IH.
  - intros s' y Hy. apply Hstep. by right.
  - apply Hstep; [by left | done].
Qed.
End fold_lemmas.

Section keyed_fold_lemmas.
Context {S K V T : Type} (f : S → K * V → S) (get : S → T).

(** In a loop over the items of a dictionary, a key is visited once: what
    [get] observes after the loop is what the iteration at that key
    leaves, started from a state where [get] still has its initial
    value. *)
Lemma foldl_visit_once (I : S → Prop) (l : list (K * V)) (k : K) (v : V) (s : S) :
  NoDup l.*1 → (k, v) ∈ l →
  (∀ s x, x.1 ≠ k → get (f s x) = get s) →
  (∀ s x, I s → I (f s x)) → I s →
  ∃ s1, I s1 ∧ get s1 = get s ∧ get (foldl f s l) = get (f s1 (k, v)).
Proof.
  intros Hnd Hin Hother HI Hs.
  apply list_elem_of_split in Hin as (l1 & l2 & ->).
  rewrite fmap_app, fmap_cons in Hnd. simpl in Hnd.
  apply NoDup_app in Hnd as (_ & Hl1 & Hnd).
  apply NoDup_cons in Hnd as (Hl2 & _).
  assert (Hk1 : k ∉ l1.*1).
  { intros Hk. apply (Hl1 k Hk). by left. }
  exists (foldl f s l1). split; [|split].
  - apply (foldl_invariant f I); [|done]. intros; by apply HI.
  - apply (foldl_invariant f (λ s', get s' = get s)); [|done].
    intros s' [k' v'] Hx Hs'. rewrite Hother; [done|]. simpl.
    intros ->. apply Hk1. change k with (k, v').1. by apply list_elem_of_fmap_2.
  - rewrite foldl_app. simpl.
    apply (foldl_invariant f (λ s', get s' = get (f (foldl f s l1) (k, v)))); [|done].
    intros s' [k' v'] Hx Hs'. rewrite Hother; [done|]. simpl.
    intros ->. apply Hl2. change k with (k, v').1. by apply list_elem_of_fmap_2.
Qed.
End keyed_fold_lemmas.

Import AsyncNetwork Scenario.

(** ** Dropped messages *)

(** C9. A message whose source is not a neighbour, or whose link from the
    source is not operational when it is received, is dropped:
    [process_message] answers [False] and the router (routing table,
    distance vector, hold-down map) and the statistics are the ones it was
    given. *)
Theorem process_message_dropped (σ : list Link.t) (now : Z)
    (message : Message.t) (r : AsyncRouter.t) (stats : NetworkStats.t) :
  neighbors r !! Message.source message = None
  ∨ (∃ link, link_of σ r (Message.source message) = Some link
             ∧ Link.is_operational link = false) →
  process_message σ now message r stats = (r, stats, false).
Proof.
  unfold process_message, link_of.
  intros [Hnone | (link & Hlink & Hdown)].
  - by rewrite Hnone.
  - unfold link_of in Hlink. by rewrite Hlink, Hdown.
Qed.

Lemma process_message_dropped_witness :
  (neighbors (router "A" net30_failed) !! "B" = None
   ∨ ∃ link, link_of (store net30_failed) (router "A" net30_failed) "B"
             = Some link
             ∧ Link.is_operational link = false)
  ∧ process_message (store net30_failed) 31 (message_B_to_A 31)
      (router "A" net30_failed) (stats net30_failed)
    = (router "A" net30_failed, stats net30_failed, false).
Proof.
  assert (Hdown : neighbors (router "A" net30_failed) !! "B" = None
    ∨ ∃ link, link_of (store net30_failed) (router "A" net30_failed) "B"
              = Some link
              ∧ Link.is_operational link = false).
  { right. exists (Link.mk "A" "B" 2 DOWN 30). split; vm_compute; reflexivity. }
  split; [exact Hdown|].
  exact (process_message_dropped (store net30_failed) 31 (message_B_to_A 31)
           (router "A" net30_failed) (stats net30_failed) Hdown).
Defined.

(** ** The loop of [update_routing_table], one destination at a time *)

(** An iteration reads and writes the rows of its own destination only. *)
Lemma update_entry_other from nc now st x d' :
  d' ≠ x.1 →
  routing_table (update_entry from nc now st x).1.1 !! d'
  = routing_table st.1.1 !! d'
  ∧ hold_down_routes (update_entry from nc now st x).1.1 !! d'
    = hold_down_routes st.1.1 !! d'.
Proof.
  destruct st as [[r s] u], x as [d a]. simpl.
  intros Hd'. unfold update_entry.
  repeat (case_decide || case_match); simplify_eq/=; 
    rewrite ?lookup_insert_ne by done; try done.
Qed.

Lemma id_update_entry from nc now st x :
  id (update_entry from nc now st x).1.1 = id st.1.1.
Proof.
  destruct st as [[r s] u], x as [d a]. unfold update_entry.
  repeat (case_decide || case_match); simplify_eq/=; done.
Qed.

(** ** The order of iteration

    The program visits the items of a dictionary in insertion order, the
    folds above in the order of [map_to_list].  The two agree: iterations
    at different keys commute, so a loop gives the same result for every
    ordering of the items. *)

Section keyed_permutation.
Context {S K V : Type} (f : S → K * V → S).

Lemma foldl_keyed_permutation (l1 l2 : list (K * V)) (s : S) :
  (∀ s x y, x.1 ≠ y.1 → f (f s x) y = f (f s y) x) →
  NoDup l1.*1 → l1 ≡ₚ l2 → foldl f s l1 = foldl f s l2.
Proof.
  intros Hcomm Hnd Hperm. revert s.
  induction Hperm as [|x l1 l2 _ IH|x y l|l1 l2 l3 H12 IH1 _ IH2]; intros s.
  - done.
  - simpl. apply IH. rewrite fmap_cons in Hnd. by apply NoDup_cons in Hnd as [_ ?].
  - simpl. rewrite Hcomm; [done|].
    rewrite !fmap_cons in Hnd. apply NoDup_cons in Hnd as [Hy _].
    intros Heq. apply Hy. rewrite Heq. by left.
  - rewrite IH1 by done. apply IH2. by rewrite <- H12.
Qed.
End keyed_permutation.

Lemma update_entry_unfold from nc now st x :
  update_entry from nc now st x =
    if decide (x.1 = id st.1.1) then st
    else apply_decision now x.1
           (route_decision from (new_cost nc x.2) now
              (entry_for now st.1.1 x.1) (hold_down_routes st.1.1 !! x.1))
           st.
Proof.
  destruct st as [[r s] u], x as [d a]. unfold update_entry. simpl.
  case_decide; [done|]. unfold route_decision, apply_decision.
  destruct r. simpl.
  repeat (case_decide || case_match); simplify_eq/=; done.
Qed.

Lemma update_entry_self from nc now st x :
  x.1 = id st.1.1 → update_entry from nc now st x = st.
Proof. intros Hx. by rewrite update_entry_unfold, decide_True. Qed.

Lemma update_entry_comm from nc now st x y :
  x.1 ≠ y.1 →
  update_entry from nc now (update_entry from nc now st x) y
  = update_entry from nc now (update_entry from nc now st y) x.
Proof.
  intros Hne.
  destruct (decide (x.1 = id st.1.1)) as [Hx|Hx].
  { rewrite (update_entry_self _ _ _ st x Hx).
    by rewrite (update_entry_self _ _ _ (update_entry _ _ _ st y) x)
      by (by rewrite id_update_entry). }
  destruct (decide (y.1 = id st.1.1)) as [Hy|Hy].
  { rewrite (update_entry_self _ _ _ st y Hy).
    by rewrite (update_entry_self _ _ _ (update_entry _ _ _ st x) y)
      by (by rewrite id_update_entry). }
  rewrite (update_entry_unfold _ _ _ st x), (update_entry_unfold _ _ _ st y).
  rewrite !decide_False by done.
  rewrite !update_entry_unfold.
  destruct st as [[r s] u], x as [dx ax], y as [dy ay]. simpl in *.
  rewrite !decide_False by done.
  unfold entry_for. simpl.
  rewrite !lookup_insert_ne by done.
  fold (entry_for now r dx). fold (entry_for now r dy).
  assert (Hhd : ∀ (o : option Z) d d', d ≠ d' →
    match o with Some t => <[d := t]> (hold_down_routes r)
               | None => hold_down_routes r end !! d'
    = hold_down_routes r !! d').
  { intros [t|] d d' ?; [by rewrite lookup_insert_ne|done]. }
  rewrite !Hhd by done.
  destruct (route_decision from (new_cost nc ax) now (entry_for now r dx)
              (hold_down_routes r !! dx)) as [[e1 h1] c1].
  destruct (route_decision from (new_cost nc ay) now (entry_for now r dy)
              (hold_down_routes r !! dy)) as [[e2 h2] c2].
  unfold apply_decision. simpl.
  destruct c1, c2, h1, h2; simpl; f_equal; f_equal;
    by rewrite ?(insert_insert_ne _ dx dy) by done.
Qed.

Lemma update_routing_table_any_order σ now from vec r stats items link :
  link_of σ r from = Some link →
  items ≡ₚ map_to_list vec →
  update_routing_table σ now from vec r stats
  = foldl (update_entry from (Link.cost link) now)
      (set_routing_table (alter (refresh now) from (routing_table r)) r,
       stats, false) items.
Proof.
  intros Hlink Hperm. unfold update_routing_table. rewrite Hlink.
  apply foldl_keyed_permutation; [|apply NoDup_fst_map_to_list|done].
  intros. by apply update_entry_comm.
Qed.

Lemma sweep_entry_unfold now st x :
  sweep_entry now st x =
    if decide (x.1 = id st.1) then st
    else apply_sweep now x.1 (sweep_action now x.2) st.
Proof.
  destruct st as [[i nb rt dv hd] u], x as [d e].
  unfold sweep_entry, sweep_action, apply_sweep. simpl.
  case_decide; [done|].
  destruct (_ && _ && _); [done|]. by destruct (_ && _ && _).
Qed.

Lemma sweep_entry_comm now st x y :
  x.1 ≠ y.1 →
  sweep_entry now (sweep_entry now st x) y
  = sweep_entry now (sweep_entry now st y) x.
Proof.
  intros Hne. rewrite !sweep_entry_unfold.
  destruct st as [[i nb rt dv hd] u], x as [dx ex], y as [dy ey]. simpl in *.
  destruct (sweep_action now ex) as [[e1 b1]|],
           (sweep_action now ey) as [[e2 b2]|];
    repeat (case_decide; simpl); try done.
  destruct b1, b2; simpl; f_equal; f_equal;
    by rewrite ?(insert_insert_ne _ dx dy) by done.
Qed.

Lemma check_timeouts_any_order now r stats items :
  items ≡ₚ map_to_list (routing_table r) →
  check_timeouts now r stats =
    let '(r', routes_changed) := foldl (sweep_entry now) (r, false) items in
    if routes_changed
    then (r', NetworkStats.tables_changed now stats, true)
    else (r', stats, false).
Proof.
  intros Hperm. unfold check_timeouts.
  rewrite (foldl_keyed_permutation (sweep_entry now) _ items);
    [done| |apply NoDup_fst_map_to_list|done].
  intros. by apply sweep_entry_comm.
Qed.

Lemma fail_entry_unfold n now st x :
  fail_entry n now st x =
    if bool_decide (RouteEntry.next_hop x.2 = Some n)
       && bool_decide (x.1 ≠ id st.1)
    then apply_failure now x.1 x.2 st else st.
Proof. by destruct st as [r u], x as [d e]. Qed.

Lemma id_fail_entry n now st x : id (fail_entry n now st x).1 = id st.1.
Proof. rewrite fail_entry_unfold. by destruct (_ && _). Qed.

Lemma fail_entry_comm n now st x y :
  x.1 ≠ y.1 →
  fail_entry n now (fail_entry n now st x) y
  = fail_entry n now (fail_entry n now st y) x.
Proof.
  intros Hne.
  rewrite (fail_entry_unfold n now (fail_entry n now st x) y).
  rewrite (fail_entry_unfold n now (fail_entry n now st y) x).
  rewrite !id_fail_entry, !(fail_entry_unfold n now st).
  destruct st as [[i nb rt dv hd] u], x as [dx ex], y as [dy ey]. simpl in *.
  destruct (bool_decide (RouteEntry.next_hop ex = Some n) && bool_decide (dx ≠ i)),
           (bool_decide (RouteEntry.next_hop ey = Some n) && bool_decide (dy ≠ i));
    simpl; try done.
  unfold apply_failure. simpl. f_equal. f_equal;
    by rewrite (insert_insert_ne _ dx dy) by done.
Qed.

Lemma handle_link_failure_any_order now n r stats items l :
  neighbors r !! n = Some l →
  items ≡ₚ map_to_list (routing_table r) →
  handle_link_failure now n r stats =
    let '(r', routes_changed) := foldl (fail_entry n now) (r, false) items in
    if routes_changed
    then (r', NetworkStats.tables_changed now stats, true)
    else (r', stats, false).
Proof.
  intros Hn Hperm. unfold handle_link_failure. rewrite Hn.
  rewrite (foldl_keyed_permutation (fail_entry n now) _ items);
    [done| |apply NoDup_fst_map_to_list|done].
  intros. by apply fail_entry_comm.
Qed.

Lemma advertise_entry_unfold self n now st x :
  advertise_entry self n now st x
  = apply_advertise x.1 (advertise_action self n now x.1 x.2 (st.2 !! x.1)) st.
Proof.
  destruct st as [[v p] hd], x as [d e].
  unfold advertise_entry, advertise_action, apply_advertise. simpl.
  case_decide; [done|].
  destruct (hd !! d); [|done]. by destruct (bool_decide _).
Qed.

Lemma advertise_entry_comm self n now st x y :
  x.1 ≠ y.1 →
  advertise_entry self n now (advertise_entry self n now st x) y
  = advertise_entry self n now (advertise_entry self n now st y) x.
Proof.
  intros Hne. rewrite !advertise_entry_unfold.
  destruct st as [[v p] hd], x as [dx ex], y as [dy ey]. simpl in *.
  assert (Hhd : ∀ act d d', d ≠ d' →
    (apply_advertise d act (v, p, hd)).2 !! d' = hd !! d').
  { intros [[[c b] [|]]|] d d' ?; simpl; by rewrite ?lookup_delete_ne. }
  rewrite !Hhd by done.
  destruct (advertise_action self n now dx ex (hd !! dx)) as [[[c1 p1] x1]|],
           (advertise_action self n now dy ey (hd !! dy)) as [[[c2 p2] x2]|];
    simpl; try done.
  f_equal; [f_equal|].
  - destruct c1, c2; try done. by apply insert_insert_ne.
  - destruct p1, p2; try done.
    apply set_eq. intros z. rewrite !elem_of_union. tauto.
  - destruct x1, x2; try done. apply delete_delete.
Qed.

Lemma get_distance_vector_any_order now n r items :
  items ≡ₚ map_to_list (routing_table r) →
  get_distance_vector_for_neighbor now n r =
    let '(vector, poison_routes, hd) :=
      foldl (advertise_entry (id r) n now) (∅, ∅, hold_down_routes r) items in
    (vector, poison_routes, set_hold_down_routes hd r).
Proof.
  intros Hperm. unfold get_distance_vector_for_neighbor.
  rewrite (foldl_keyed_permutation (advertise_entry (id r) n now) _ items);
    [done| |apply NoDup_fst_map_to_list|done].
  intros. by apply advertise_entry_comm.
Qed.

Lemma init_neighbor_unfold σ now r x :
  init_neighbor σ now r x
  = apply_init x.1 (init_action σ now x.1 x.2 (routing_table r !! x.1)) r.
Proof.
  destruct x as [n l]. unfold init_neighbor, init_action, apply_init. simpl.
  destruct (σ !! l); [|done]. destruct (routing_table r !! n); [|done].
  by destruct (Link.is_operational _).
Qed.

Lemma init_neighbor_comm σ now r x y :
  x.1 ≠ y.1 →
  init_neighbor σ now (init_neighbor σ now r x) y
  = init_neighbor σ now (init_neighbor σ now r y) x.
Proof.
  intros Hne. rewrite !init_neighbor_unfold.
  destruct r as [i nb rt dv hd], x as [nx lx], y as [ny ly]. simpl in *.
  assert (Hrt : ∀ act n n', n ≠ n' →
    routing_table (apply_init n act (AsyncRouter.mk i nb rt dv hd)) !! n' = rt !! n').
  { intros [[e c]|] n n' ?; simpl; by rewrite ?lookup_insert_ne. }
  rewrite !Hrt by done.
  destruct (init_action σ now nx lx (rt !! nx)) as [[e1 c1]|],
           (init_action σ now ny ly (rt !! ny)) as [[e2 c2]|];
    simpl; try done.
  unfold set_distance_vector, set_routing_table. simpl.
  f_equal; by apply insert_insert_ne.
Qed.

Lemma initialize_routing_table_any_order σ now all r items :
  items ≡ₚ map_to_list (neighbors r) →
  initialize_routing_table σ now all r =
    foldl (init_neighbor σ now) (foldl (init_entry now) r all) items.
Proof.
  intros Hperm. unfold initialize_routing_table.
  apply foldl_keyed_permutation; [|apply NoDup_fst_map_to_list|done].
  intros. by apply init_neighbor_comm.
Qed.

(** ** Hold-down *)

Lemma update_entry_held from nc now D e st x :
  RouteEntry.next_hop e ≠ Some from →
  held_route D e st.1.1 →
  held_route D e (update_entry from nc now st x).1.1.
Proof.
  destruct st as [[r s] u], x as [d a]. simpl.
  intros Hnh ([t Ht] & e' & He' & Hc & Hn & Hs).
  destruct (decide (d = D)) as [->|Hne].
  - unfold update_entry, entry_for. rewrite He', Ht.
    rewrite Hn.
    repeat (case_decide || case_match); simplify_eq/=.
    all: unfold held_route, same_route; simpl; rewrite ?lookup_insert_eq; eauto 8.
  - destruct (update_entry_other from nc now (r, s, u) (d, a) D) as [H1 H2];
      [done|].
    unfold held_route. rewrite H1, H2. simpl. rewrite Ht, He'.
    unfold same_route. eauto 8.
Qed.

(** C6. While a destination is in the hold-down map,
    [update_routing_table] does not adopt a route to it from a neighbour
    other than the current next hop, whatever that neighbour advertises
    (a strictly smaller finite cost included): the cost, the next hop and
    the status of the row are the ones it had before the call. *)
Theorem hold_down_blocks_other_neighbors (σ : list Link.t) (now : Z)
    (from_neighbor : string) (received_vector : gmap string Cost)
    (r : AsyncRouter.t) (stats : NetworkStats.t)
    (D : string) (expiry : Z) (e : RouteEntry.t) :
  hold_down_routes r !! D = Some expiry →
  routing_table r !! D = Some e →
  RouteEntry.next_hop e ≠ Some from_neighbor →
  ∃ e', routing_table
          (update_routing_table σ now from_neighbor received_vector r stats).1.1
          !! D = Some e'
        ∧ RouteEntry.cost e' = RouteEntry.cost e
        ∧ RouteEntry.next_hop e' = RouteEntry.next_hop e
        ∧ RouteEntry.status e' = RouteEntry.status e.
Proof.
  intros Hhd He Hnh. unfold update_routing_table.
  destruct (link_of σ r from_neighbor) as [link|]; simpl; [|by exists e].
  apply (foldl_invariant _ (λ st, held_route D e st.1.1)).
  - intros st x _. by apply update_entry_held.
  - unfold held_route, same_route. simpl. split; [by eexists|].
    rewrite lookup_alter. case_decide; subst; rewrite He; simpl; by eexists.
Qed.

Lemma hold_down_blocks_other_neighbors_witness :
  let e := RouteEntry.mk "D" inf (Some "B") INVALID 10 100 90 in
  hold_down_routes (router "A" net30) !! "D" = Some 120
  ∧ routing_table (router "A" net30) !! "D" = Some e
  ∧ RouteEntry.next_hop e ≠ Some "C"
  ∧ vector_C_to_A !! "D" = Some (Fin 2)
  ∧ ∃ e', routing_table
            (update_routing_table (store net30) 35 "C" vector_C_to_A
               (router "A" net30) (stats net30)).1.1 !! "D" = Some e'
          ∧ RouteEntry.cost e' = RouteEntry.cost e
          ∧ RouteEntry.next_hop e' = RouteEntry.next_hop e
          ∧ RouteEntry.status e' = RouteEntry.status e.
Proof.
  intros e.
  assert (Hhd : hold_down_routes (router "A" net30) !! "D" = Some 120)
    by (vm_compute; reflexivity).
  assert (He : routing_table (router "A" net30) !! "D" = Some e)
    by (vm_compute; reflexivity).
  assert (Hnh : RouteEntry.next_hop e ≠ Some "C") by (vm_compute; discriminate).
  split; [exact Hhd|]. split; [exact He|]. split; [exact Hnh|].
  split; [vm_compute; reflexivity|].
  exact (hold_down_blocks_other_neighbors (store net30) 35 "C" vector_C_to_A
           (router "A" net30) (stats net30) "D" 120 e Hhd He Hnh).
Defined.

(** ** [initialize_routing_table] *)

Lemma init_entries_frame now r all :
  id (foldl (init_entry now) r all) = id r
  ∧ neighbors (foldl (init_entry now) r all) = neighbors r
  ∧ hold_down_routes (foldl (init_entry now) r all) = hold_down_routes r.
Proof.
  apply (foldl_invariant _ (λ r1, id r1 = id r ∧ neighbors r1 = neighbors r
    ∧ hold_down_routes r1 = hold_down_routes r)); [|done].
  intros s x _ (? & ? & ?). unfold init_entry. simpl. done.
Qed.

Lemma init_entry_lookup now r x D :
  routing_table (init_entry now r x) !! D =
    if decide (x = D) then Some (initial_entry now (id r) x)
    else routing_table r !! D.
Proof.
  unfold init_entry, initial_entry. simpl.
  destruct (decide (x = D)) as [->|Hne];
    [by rewrite lookup_insert_eq|by rewrite lookup_insert_ne].
Qed.

Lemma init_entries_lookup now r all D :
  routing_table (foldl (init_entry now) r all) !! D =
    if decide (D ∈ all) then Some (initial_entry now (id r) D)
    else routing_table r !! D.
Proof.
  induction all as [|x all IH] using rev_ind.
  - rewrite decide_False; [done | apply not_elem_of_nil].
  - rewrite foldl_app. cbn [foldl]. rewrite init_entry_lookup, IH.
    destruct (init_entries_frame now r all) as (-> & _ & _).
    destruct (decide (x = D)) as [->|Hne].
    + rewrite decide_True; [done|].
      apply elem_of_app. right. by apply list_elem_of_singleton.
    + destruct (decide (D ∈ all)) as [Hin|Hout].
      * rewrite decide_True; [done|]. apply elem_of_app. by left.
      * rewrite decide_False; [done|]. apply not_elem_of_app. split; [done|].
        by intros ?%list_elem_of_singleton.
Qed.

Lemma init_neighbor_frame σ now r x :
  id (init_neighbor σ now r x) = id r
  ∧ neighbors (init_neighbor σ now r x) = neighbors r
  ∧ hold_down_routes (init_neighbor σ now r x) = hold_down_routes r.
Proof. destruct x as [n l]. unfold init_neighbor. by repeat case_match. Qed.

Lemma init_neighbor_other σ now r x D :
  x.1 ≠ D →
  routing_table (init_neighbor σ now r x) !! D = routing_table r !! D.
Proof.
  destruct x as [n l]. simpl. intros Hne. unfold init_neighbor.
  repeat case_match; simpl; by rewrite ?lookup_insert_ne.
Qed.

(** The timer fields of a row are not written by the neighbour loop. *)
Lemma init_neighbor_timers σ now r x D e :
  routing_table (init_neighbor σ now r x) !! D = Some e →
  ∃ e0, routing_table r !! D = Some e0
        ∧ RouteEntry.timeout_time e = RouteEntry.timeout_time e0
        ∧ RouteEntry.garbage_time e = RouteEntry.garbage_time e0.
Proof.
  destruct x as [n l]. unfold init_neighbor.
  repeat case_match; simpl; eauto.
  destruct (decide (n = D)) as [->|Hne].
  - rewrite lookup_insert_eq. intros [= <-]. eauto.
  - rewrite lookup_insert_ne by done. eauto.
Qed.

Lemma initialize_routing_table_frame σ now all r :
  id (initialize_routing_table σ now all r) = id r
  ∧ neighbors (initialize_routing_table σ now all r) = neighbors r
  ∧ hold_down_routes (initialize_routing_table σ now all r)
    = hold_down_routes r.
Proof.
  unfold initialize_routing_table.
  apply (foldl_invariant _ (λ r1, id r1 = id r ∧ neighbors r1 = neighbors r
    ∧ hold_down_routes r1 = hold_down_routes r)).
  - intros s x _ (? & ? & ?).
    destruct (init_neighbor_frame σ now s x) as (-> & -> & ->). done.
  - apply init_entries_frame.
Qed.

Lemma initialize_routing_table_timers σ now all r D e :
  D ∈ all →
  routing_table (initialize_routing_table σ now all r) !! D = Some e →
  RouteEntry.timeout_time e = 0 ∧ RouteEntry.garbage_time e = 0.
Proof.
  intros HD. unfold initialize_routing_table. revert e.
  apply (foldl_invariant _ (λ r1, ∀ e, routing_table r1 !! D = Some e →
    RouteEntry.timeout_time e = 0 ∧ RouteEntry.garbage_time e = 0)).
  - intros s x _ IH e He.
    apply init_neighbor_timers in He as (e0 & He0 & -> & ->). by apply IH.
  - intros e. rewrite init_entries_lookup, decide_True by done.
    intros [= <-]. unfold initial_entry. by case_decide.
Qed.

Lemma initialize_routing_table_self σ now all r :
  neighbors r !! id r = None → id r ∈ all →
  self_route_ok (initialize_routing_table σ now all r).
Proof.
  intros Hself Hall.
  destruct (initialize_routing_table_frame σ now all r) as (Hid & _ & _).
  unfold self_route_ok. rewrite Hid.
  exists (RouteEntry.new now (id r) (Fin 0) (Some (id r)) VALID).
  split; [|done]. unfold initialize_routing_table.
  apply (foldl_invariant _ (λ r1, routing_table r1 !! id r = Some _)).
  - intros s [n l] Hx Hs. rewrite init_neighbor_other; [done|]. simpl.
    apply elem_of_map_to_list in Hx. intros ->. congruence.
  - rewrite init_entries_lookup, decide_True by done.
    unfold initial_entry. by rewrite decide_True.
Qed.

Lemma initialize_routing_table_neighbor σ now all r N l link :
  neighbors r !! N = Some l → σ !! l = Some link →
  Link.is_operational link = true → N ∈ all →
  routing_table (initialize_routing_table σ now all r) !! N
  = Some (RouteEntry.mk N (Fin (Link.cost link)) (Some N) VALID now 0 0).
Proof.
  intros HN Hl Hop Hall. unfold initialize_routing_table.
  destruct (foldl_visit_once (init_neighbor σ now)
              (λ r1, routing_table r1 !! N) (λ _, True)
              (map_to_list (neighbors r)) N l
              (foldl (init_entry now) r all))
    as (s1 & _ & Hs1 & ->); try done.
  - apply NoDup_fst_map_to_list.
  - by apply elem_of_map_to_list.
  - intros s x Hx. by apply init_neighbor_other.
  - rewrite init_entries_lookup, decide_True in Hs1 by done.
    unfold init_neighbor. rewrite Hl, Hs1, Hop. simpl.
    rewrite lookup_insert_eq. unfold initial_entry. by case_decide.
Qed.

(** C4, against the claim.  A's row for its operational neighbour B after
    an initialisation at time 40: the timeout is 0, not 40 +
    ROUTE_TIMEOUT. *)
Lemma initial_neighbor_timeout_is_zero :
  link_of (store loaded) (router "A" loaded) "B"
  = Some (Link.mk "A" "B" 2 UP 0)
  ∧ ∃ e, routing_table
           (initialize_routing_table (store loaded) 40 ["A"; "B"; "C"; "D"]
              (router "A" loaded)) !! "B" = Some e
       ∧ RouteEntry.timeout_time e = 0
       ∧ RouteEntry.timeout_time e ≠ 40 + RIPTimers.ROUTE_TIMEOUT.
Proof.
  split; [vm_compute; reflexivity|].
  exists (RouteEntry.mk "B" (Fin 2) (Some "B") VALID 40 0 0).
  repeat split; try (vm_compute; reflexivity). vm_compute. discriminate.
Qed.

(** C4, as amended.  For each operational neighbour N with link cost c
    that is listed in [all_routers], [initialize_routing_table] leaves the
    row of N with cost c, next hop N, status VALID and last update time
    [now]; its timeout stays at the 0 given by [__post_init__]. *)
Theorem initialize_routing_table_neighbor_row (σ : list Link.t) (now : Z)
    (all_routers : list string) (r : AsyncRouter.t)
    (N : string) (l : nat) (link : Link.t) :
  neighbors r !! N = Some l → σ !! l = Some link →
  Link.is_operational link = true →
  N ∈ all_routers →
  ∃ e, routing_table (initialize_routing_table σ now all_routers r) !! N
       = Some e
     ∧ RouteEntry.cost e = Fin (Link.cost link)
     ∧ RouteEntry.next_hop e = Some N
     ∧ RouteEntry.status e = VALID
     ∧ RouteEntry.last_update_time e = now
     ∧ RouteEntry.timeout_time e = 0.
Proof.
  intros HN Hl Hop Hall. eexists. split.
  - by apply (initialize_routing_table_neighbor σ now all_routers r N l link).
  - done.
Qed.

Lemma initialize_routing_table_neighbor_row_witness :
  let all_routers := ["A"; "B"; "C"; "D"] in
  let r := router "A" loaded in
  let link := Link.mk "A" "C" 5 UP 0 in
  neighbors r !! "C" = Some 1%nat
  ∧ store loaded !! 1%nat = Some link
  ∧ Link.is_operational link = true
  ∧ "C" ∈ all_routers
  ∧ ∃ e, routing_table
           (initialize_routing_table (store loaded) 7 all_routers r) !! "C"
         = Some e
       ∧ RouteEntry.cost e = Fin (Link.cost link)
       ∧ RouteEntry.next_hop e = Some "C"
       ∧ RouteEntry.status e = VALID
       ∧ RouteEntry.last_update_time e = 7
       ∧ RouteEntry.timeout_time e = 0.
Proof.
  intros all_routers r link.
  assert (Hn : neighbors r !! "C" = Some 1%nat) by (vm_compute; reflexivity).
  assert (Hl : store loaded !! 1%nat = Some link) by (vm_compute; reflexivity).
  assert (Hop : Link.is_operational link = true) by reflexivity.
  assert (Hall : "C" ∈ all_routers) by (right; right; left).
  split; [exact Hn|]. split; [exact Hl|]. split; [exact Hop|].
  split; [exact Hall|].
  exact (initialize_routing_table_neighbor_row (store loaded) 7 all_routers r
           "C" 1%nat link Hn Hl Hop Hall).
Defined.

(** ** The self-route *)

Lemma self_row_ok r r' : self_row r' = self_row r → self_route_ok r → self_route_ok r'.
Proof.
  unfold self_row, self_route_ok. intros [= Hid Hnb Hrow]. by rewrite Hrow, Hid.
Qed.

Lemma self_row_update_entry from nc now st x :
  self_row (update_entry from nc now st x).1.1 = self_row st.1.1.
Proof.
  destruct st as [[r s] u], x as [d a]. unfold update_entry, self_row.
  repeat (case_decide || case_match); simplify_eq/=;
    by rewrite ?lookup_insert_ne by done.
Qed.

Lemma self_row_sweep_entry now st x :
  self_row (sweep_entry now st x).1 = self_row st.1.
Proof.
  destruct st as [r u], x as [d e]. unfold sweep_entry, self_row.
  repeat (case_decide || case_match); simplify_eq/=;
    by rewrite ?lookup_insert_ne by done.
Qed.

Lemma self_row_fail_entry n now st x :
  self_row (fail_entry n now st x).1 = self_row st.1.
Proof.
  destruct st as [r u], x as [d e]. unfold fail_entry, self_row.
  case_match; simpl; [|done].
  apply andb_true_iff in H as [_ Hd%bool_decide_eq_true].
  by rewrite lookup_insert_ne.
Qed.

Lemma self_route_update_routing_table σ now from vec r stats :
  let r' := (update_routing_table σ now from vec r stats).1.1 in
  id r' = id r ∧ neighbors r' = neighbors r
  ∧ (self_route_ok r → self_route_ok r').
Proof.
  unfold update_routing_table.
  destruct (link_of σ r from) as [link|]; simpl; [|done].
  set (r0 := set_routing_table _ r).
  assert (Hfold : self_row (foldl (update_entry from (Link.cost link) now)
                    (r0, stats, false) (map_to_list vec)).1.1 = self_row r0).
  { apply (foldl_invariant _ (λ st, self_row st.1.1 = self_row r0)); [|done].
    intros st x _ <-. apply self_row_update_entry. }
  pose proof Hfold as [= Hid Hnb _]. simpl in Hid, Hnb.
  split; [done|]. split; [done|].
  intros (e & He & Hc & Hn & Hs). apply (self_row_ok _ _ Hfold).
  unfold self_route_ok, r0. simpl. rewrite lookup_alter.
  case_decide; [subst from|]; rewrite He; simpl; eauto.
Qed.

Lemma self_route_process_message σ now m r stats :
  let r' := (process_message σ now m r stats).1.1 in
  id r' = id r ∧ neighbors r' = neighbors r
  ∧ (self_route_ok r → self_route_ok r').
Proof.
  unfold process_message.
  destruct (link_of σ r _) as [link|]; simpl; [|done].
  destruct (Link.is_operational link); simpl; [|done].
  apply self_route_update_routing_table.
Qed.

Lemma self_row_check_timeouts now r stats :
  self_row (check_timeouts now r stats).1.1 = self_row r.
Proof.
  unfold check_timeouts.
  assert (Hfold : self_row (foldl (sweep_entry now) (r, false)
                    (map_to_list (routing_table r))).1 = self_row r).
  { apply (foldl_invariant _ (λ st, self_row st.1 = self_row r)); [|done].
    intros st x _ <-. apply self_row_sweep_entry. }
  destruct (foldl _ _ _) as [r' [|]]; done.
Qed.

Lemma self_row_handle_link_failure now n r stats :
  self_row (handle_link_failure now n r stats).1.1 = self_row r.
Proof.
  unfold handle_link_failure. destruct (neighbors r !! n); [|done].
  assert (Hfold : self_row (foldl (fail_entry n now) (r, false)
                    (map_to_list (routing_table r))).1 = self_row r).
  { apply (foldl_invariant _ (λ st, self_row st.1 = self_row r)); [|done].
    intros st x _ <-. apply self_row_fail_entry. }
  destruct (foldl _ _ _) as [r' [|]]; done.
Qed.

Lemma self_row_handle_link_recovery now n c r stats :
  neighbors r !! id r = None →
  self_row (handle_link_recovery now n c r stats).1.1 = self_row r.
Proof.
  intros Hself. unfold handle_link_recovery.
  destruct (neighbors r !! n) eqn:Hn; [|done].
  destruct (routing_table r !! n); [|done].
  unfold self_row. simpl. rewrite lookup_insert_ne; [done|].
  intros ->. congruence.
Qed.

Lemma self_row_get_distance_vector now n r :
  self_row (get_distance_vector_for_neighbor now n r).2 = self_row r.
Proof.
  unfold get_distance_vector_for_neighbor.
  by destruct (foldl _ _ _) as [[v p] hd].
Qed.

Lemma self_row_inv r r' :
  self_row r' = self_row r → self_route_inv r → self_route_inv r'.
Proof.
  intros Hrow [Hnb Hok]. split; [|by apply (self_row_ok r)].
  injection Hrow as Hid Hn _. by rewrite Hid, Hn.
Qed.

Lemma router_step_self_route r r' :
  router_step r r' → self_route_inv r → self_route_inv r'.
Proof.
  intros Hstep Hinv.
  destruct Hstep as [σ now all_routers r Hall | σ now message st r
    | now st r | now n st r | now n c st r | now n r].
  - destruct Hinv as [Hnb _].
    destruct (initialize_routing_table_frame σ now all_routers r) as (Hid & Hn & _).
    split; [by rewrite Hid, Hn|by apply initialize_routing_table_self].
  - destruct Hinv as [Hnb Hok].
    destruct (self_route_process_message σ now message r st)
      as (Hid & Hn & Hkeep).
    split; [by rewrite Hid, Hn | by apply Hkeep].
  - apply (self_row_inv r); [apply self_row_check_timeouts|done].
  - apply (self_row_inv r); [apply self_row_handle_link_failure|done].
  - apply (self_row_inv r); [|done]. apply self_row_handle_link_recovery, Hinv.
  - apply (self_row_inv r); [apply self_row_get_distance_vector|done].
Qed.




(** A topology without self-loops gives routers that meet the two
    conditions of the invariant, so every router of a network loaded from
    such a topology has its self-route once the tables are initialised. *)
Lemma load_link_no_self_loop topo st n :
  Forall (λ d, ld_router1 d ≠ ld_router2 d) topo →
  st.1.1 !! (n, n) = None →
  (foldl load_link st topo).1.1 !! (n, n) = None.
Proof.
  intros Htopo. revert st. induction Htopo as [|d topo Hd _ IH]; intros st Hst.
  - done.
  - simpl. apply IH. destruct st as [[lks σ] ids]. simpl in *.
    rewrite !lookup_insert_ne; [done|congruence|congruence].
Qed.

Lemma attach_links_id lks name r : id (attach_links lks name r) = id r.
Proof.
  unfold attach_links.
  apply (foldl_invariant _ (λ r', id r' = id r)); [|done].
  intros r' [[r1 r2] l] _ Hr'. by case_decide.
Qed.

Lemma attach_links_no_self lks name r :
  lks !! (name, name) = None →
  neighbors r !! name = None →
  neighbors (attach_links lks name r) !! name = None.
Proof.
  intros Hlks Hr. unfold attach_links.
  apply (foldl_invariant _ (λ r', neighbors r' !! name = None)); [|done].
  intros r' [[r1 r2] l] Hx Hr'. apply elem_of_map_to_list in Hx.
  case_decide; [|done]. subst r1. simpl.
  rewrite lookup_insert_ne; [done|]. intros ->. congruence.
Qed.

Lemma fresh_routers_lookup (ids : list string) (m : gmap string AsyncRouter.t)
    name r :
  (∀ n r', m !! n = Some r' → r' = AsyncRouter.new n) →
  foldl (λ m router_id, <[router_id := AsyncRouter.new router_id]> m) m ids
    !! name = Some r →
  r = AsyncRouter.new name.
Proof.
  intros Hm. revert name r.
  apply (foldl_invariant _ (λ m', ∀ n r', m' !! n = Some r' →
                                   r' = AsyncRouter.new n)); [|done].
  intros m' x _ IH n r'. destruct (decide (x = n)) as [->|Hne].
  - rewrite lookup_insert_eq. congruence.
  - rewrite lookup_insert_ne by done. apply IH.
Qed.

Lemma loaded_router_well_formed topo name r :
  Forall (λ d, ld_router1 d ≠ ld_router2 d) topo →
  routers (_load_json_topology topo AsyncNetwork.new) !! name = Some r →
  id r = name ∧ neighbors r !! id r = None.
Proof.
  intros Htopo. unfold _load_json_topology.
  pose proof (load_link_no_self_loop topo (∅, [], ∅) name Htopo) as Hlks.
  simpl in *.
  destruct (foldl load_link _ topo) as [[lks σ] ids]. simpl in *.
  rewrite map_lookup_imap.
  destruct (foldl _ ∅ (elements ids) !! name) as [r0|] eqn:Hr0; [|done].
  simpl. intros [= <-].
  apply fresh_routers_lookup in Hr0 as ->; [|by intros n r'].
  rewrite attach_links_id. simpl. split; [done|].
  apply attach_links_no_self; [by apply Hlks|done].
Qed.

Lemma loaded_network_self_routes topo now name r :
  Forall (λ d, ld_router1 d ≠ ld_router2 d) topo →
  routers (initialize_routing_tables now
             (_load_json_topology topo AsyncNetwork.new)) !! name = Some r →
  self_route_ok r.
Proof.
  intros Htopo. unfold initialize_routing_tables. simpl.
  rewrite lookup_fmap.
  destruct (routers (_load_json_topology topo AsyncNetwork.new) !! name)
    as [r0|] eqn:Hr0; [|done].
  simpl. intros [= <-].
  destruct (loaded_router_well_formed topo name r0 Htopo Hr0) as [Hid Hnb].
  apply initialize_routing_table_self; [done|].
  rewrite Hid. apply elem_of_map_to_list in Hr0.
  change name with (name, r0).1. by apply list_elem_of_fmap_2.
Qed.

(** ** The timer sweep *)

Lemma sweep_entry_unarmed now D e st x :
  (x.1 = D → x.2 = e) →
  RouteEntry.status e = VALID → RouteEntry.timeout_time e = 0 →
  routing_table st.1 !! D = Some e →
  routing_table (sweep_entry now st x).1 !! D = Some e.
Proof.
  destruct st as [r u], x as [d e']. simpl. intros Hx Hs Ht He.
  unfold sweep_entry. case_decide; [done|].
  destruct (decide (d = D)) as [->|Hne].
  - rewrite (Hx eq_refl), Hs, Ht. simpl. done.
  - repeat case_match; simpl; by rewrite ?lookup_insert_ne.
Qed.

Lemma check_timeouts_unarmed now r stats D e :
  routing_table r !! D = Some e →
  RouteEntry.status e = VALID → RouteEntry.timeout_time e = 0 →
  routing_table (check_timeouts now r stats).1.1 !! D = Some e.
Proof.
  intros He Hs Ht. unfold check_timeouts.
  assert (Hfold : routing_table (foldl (sweep_entry now) (r, false)
                    (map_to_list (routing_table r))).1 !! D = Some e).
  { apply (foldl_invariant _ (λ st, routing_table st.1 !! D = Some e)); [|done].
    intros st x Hx Hst. apply sweep_entry_unarmed; try done.
    destruct x as [d e']. simpl. intros ->.
    apply elem_of_map_to_list in Hx. congruence. }
  destruct (foldl _ _ _) as [r' [|]]; done.
Qed.

Lemma run_sweeps_unarmed sweeps r D e :
  routing_table r !! D = Some e →
  RouteEntry.status e = VALID → RouteEntry.timeout_time e = 0 →
  routing_table (run_sweeps sweeps r) !! D = Some e.
Proof.
  intros He Hs Ht. unfold run_sweeps.
  apply (foldl_invariant _ (λ r', routing_table r' !! D = Some e)); [|done].
  intros r' x _ Hr'. by apply check_timeouts_unarmed.
Qed.

(** C10. [check_timeouts] leaves a VALID row whose timeout is 0 as it is,
    at any time and however often it runs.  The VALID rows that
    [initialize_routing_table] writes for the destinations of
    [all_routers], the neighbour routes among them, are such rows: their
    timeout is 0, so no sequence of sweeps expires them. *)
Theorem check_timeouts_spares_unarmed_routes (σ : list Link.t) (now0 : Z)
    (all_routers : list string) (r0 r : AsyncRouter.t) (D : string)
    (e : RouteEntry.t) (sweeps : list (Z * NetworkStats.t)) :
  routing_table r !! D = Some e →
  RouteEntry.status e = VALID →
  RouteEntry.timeout_time e = 0
  ∨ (r = initialize_routing_table σ now0 all_routers r0 ∧ D ∈ all_routers) →
  RouteEntry.timeout_time e = 0
  ∧ (∀ now stats,
       routing_table (check_timeouts now r stats).1.1 !! D = Some e)
  ∧ routing_table (run_sweeps sweeps r) !! D = Some e.
Proof.
  intros He Hs Harmed.
  assert (Ht : RouteEntry.timeout_time e = 0).
  { destruct Harmed as [Ht | [-> HD]]; [done|].
    by destruct (initialize_routing_table_timers σ now0 all_routers r0 D e). }
  split; [done|]. split.
  - intros now stats. by apply check_timeouts_unarmed.
  - by apply run_sweeps_unarmed.
Qed.

Lemma check_timeouts_spares_unarmed_routes_witness :
  let all_routers := ["A"; "B"; "C"; "D"] in
  let r0 := router "A" loaded in
  let r := initialize_routing_table (store loaded) 0 all_routers r0 in
  let e := RouteEntry.mk "B" (Fin 2) (Some "B") VALID 0 0 0 in
  let sweeps := [(91, NetworkStats.fresh); (1000, NetworkStats.fresh)] in
  routing_table r !! "B" = Some e
  ∧ RouteEntry.status e = VALID
  ∧ (RouteEntry.timeout_time e = 0
     ∨ (r = initialize_routing_table (store loaded) 0 all_routers r0
        ∧ "B" ∈ all_routers))
  ∧ RouteEntry.timeout_time e = 0
  ∧ (∀ now stats,
       routing_table (check_timeouts now r stats).1.1 !! "B" = Some e)
  ∧ routing_table (run_sweeps sweeps r) !! "B" = Some e.
Proof.
  intros all_routers r0 r e sweeps.
  assert (He : routing_table r !! "B" = Some e) by (vm_compute; reflexivity).
  assert (Hs : RouteEntry.status e = VALID) by reflexivity.
  assert (Hinit : RouteEntry.timeout_time e = 0
     ∨ (r = initialize_routing_table (store loaded) 0 all_routers r0
        ∧ "B" ∈ all_routers)).
  { right. split; [reflexivity|]. right. left. }
  split; [exact He|]. split; [exact Hs|]. split; [exact Hinit|].
  exact (check_timeouts_spares_unarmed_routes (store loaded) 0 all_routers
           r0 r "B" e sweeps He Hs Hinit).
Defined.

(** ** Cost arithmetic *)

Lemma update_entry_cost from nc now r s u d a e' :
  routing_table (update_entry from nc now (r, s, u) (d, a)).1.1 !! d = Some e' →
  RouteEntry.cost e' = new_cost nc a
  ∨ routing_table r !! d = Some e'
  ∨ RouteEntry.cost e' = inf.
Proof.
  unfold update_entry, entry_for.
  repeat (case_decide || case_match); simplify_eq/=;
    rewrite ?lookup_insert_eq; intros; simplify_eq/=; eauto.
Qed.

Lemma update_routing_table_cost_origin σ now from vec r stats link d e c :
  link_of σ r from = Some link →
  routing_table (update_routing_table σ now from vec r stats).1.1 !! d = Some e →
  RouteEntry.cost e = Fin c →
  cost_origin (Link.cost link) vec r d c.
Proof.
  intros Hlink. unfold update_routing_table. rewrite Hlink. revert d e c.
  apply (foldl_invariant _ (λ st, ∀ d e c,
    routing_table st.1.1 !! d = Some e → RouteEntry.cost e = Fin c →
    cost_origin (Link.cost link) vec r d c)).
  - intros [[r1 s1] u1] [d0 a] Hx IH d e c He Hc.
    apply elem_of_map_to_list in Hx.
    destruct (decide (d = d0)) as [->|Hne].
    + apply update_entry_cost in He as [Hnew | [Hold | Hinf]].
      * right. rewrite Hc in Hnew. destruct a as [a|]; simplify_eq/=. eauto.
      * by apply (IH d0 e c).
      * congruence.
    + destruct (update_entry_other from (Link.cost link) now (r1, s1, u1)
                  (d0, a) d) as [Hrt _]; [done|].
      rewrite Hrt in He. by apply (IH d e c).
  - simpl. intros d e c. rewrite lookup_alter.
    case_decide; [subst|]; intros He Hc; left.
    + destruct (routing_table r !! d) as [e0|]; simplify_eq/=. eauto.
    + eauto.
Qed.

(** C3, against the claim.  In a line A - B - C with both links of cost
    10, B advertises C at 10 and A stores the route at cost 20: finite and
    above 15. *)
Lemma cost_exceeds_15 :
  line_vector_B_to_A !! "C" = Some (Fin 10)
  ∧ cost_in_range (Fin 10)
  ∧ ¬ cost_in_range (new_cost 10 (Fin 10))
  ∧ ∃ e, routing_table
           (update_routing_table (store line0) 10 "B" line_vector_B_to_A
              (router "A" line0) (stats line0)).1.1 !! "C" = Some e
       ∧ RouteEntry.cost e = Fin 20
       ∧ ¬ cost_in_range (RouteEntry.cost e).
Proof.
  split; [vm_compute; reflexivity|].
  split; [vm_compute; split; discriminate|].
  split; [vm_compute; intros [_ H]; by apply H|].
  exists (RouteEntry.mk "C" (Fin 20) (Some "B") VALID 10 100 0).
  split; [vm_compute; reflexivity|]. split; [reflexivity|].
  vm_compute. intros [_ H]. by apply H.
Qed.

(** C3, as amended.  Costs do not saturate at 16.  The new cost is [inf]
    exactly when the advertised cost is [inf], and is otherwise the exact
    sum of the link cost and the advertised cost.  Every finite cost in the
    table after [update_routing_table] was in that row before or is such a
    sum for that destination; so, with a non-negative link cost,
    non-negative advertised costs and non-negative costs in the table,
    the finite costs stay non-negative, with no upper bound. *)
Theorem cost_arithmetic_unsaturated (σ : list Link.t) (now : Z)
    (from_neighbor : string) (received_vector : gmap string Cost)
    (r : AsyncRouter.t) (stats : NetworkStats.t) (link : Link.t) :
  link_of σ r from_neighbor = Some link →
  0 ≤ Link.cost link →
  map_Forall (λ _ a, cost_nonneg a) received_vector →
  map_Forall (λ _ e, cost_nonneg (RouteEntry.cost e)) (routing_table r) →
  (∀ a, new_cost (Link.cost link) a = inf ↔ a = inf)
  ∧ (∀ a, new_cost (Link.cost link) (Fin a) = Fin (Link.cost link + a))
  ∧ ∀ d e c,
      routing_table
        (update_routing_table σ now from_neighbor received_vector r stats).1.1
        !! d = Some e →
      RouteEntry.cost e = Fin c →
      0 ≤ c ∧ cost_origin (Link.cost link) received_vector r d c.
Proof.
  intros Hlink Hlc Hvec Hrt. split; [|split].
  - intros [a|]; simpl; split; congruence.
  - done.
  - intros d e c He Hc.
    pose proof (update_routing_table_cost_origin _ _ _ _ _ _ _ _ _ _ Hlink He Hc)
      as Horigin.
    split; [|done].
    destruct Horigin as [(e0 & He0 & Hc0) | (a & Ha & ->)].
    + specialize (Hrt d e0 He0). simpl in Hrt. by rewrite Hc0 in Hrt.
    + specialize (Hvec d (Fin a) Ha). simpl in Hvec. lia.
Qed.

Lemma cost_arithmetic_unsaturated_witness :
  let r := router "A" line0 in
  let link := Link.mk "A" "B" 10 UP 0 in
  link_of (store line0) r "B" = Some link
  ∧ 0 ≤ Link.cost link
  ∧ map_Forall (λ _ a, cost_nonneg a) line_vector_B_to_A
  ∧ map_Forall (λ _ e, cost_nonneg (RouteEntry.cost e)) (routing_table r)
  ∧ (∀ a, new_cost (Link.cost link) a = inf ↔ a = inf)
  ∧ (∀ a, new_cost (Link.cost link) (Fin a) = Fin (Link.cost link + a))
  ∧ ∀ d e c,
      routing_table
        (update_routing_table (store line0) 10 "B" line_vector_B_to_A r
           (stats line0)).1.1 !! d = Some e →
      RouteEntry.cost e = Fin c →
      0 ≤ c ∧ cost_origin (Link.cost link) line_vector_B_to_A r d c.
Proof.
  intros r link.
  assert (Hlink : link_of (store line0) r "B" = Some link)
    by (vm_compute; reflexivity).
  assert (Hlc : 0 ≤ Link.cost link) by (vm_compute; discriminate).
  assert (Hvec : map_Forall (λ _ a, cost_nonneg a) line_vector_B_to_A).
  { apply (bool_decide_unpack _). vm_compute. exact I. }
  assert (Hrt : map_Forall (λ _ e, cost_nonneg (RouteEntry.cost e))
                  (routing_table r)).
  { apply (bool_decide_unpack _). vm_compute. exact I. }
  split; [exact Hlink|]. split; [exact Hlc|]. split; [exact Hvec|].
  split; [exact Hrt|].
  exact (cost_arithmetic_unsaturated (store line0) 10 "B" line_vector_B_to_A
           r (stats line0) link Hlink Hlc Hvec Hrt).
Defined.

(** ** Idempotence of [update_routing_table] *)

Lemma view_entry_for now r d :
  (RouteEntry.cost (entry_for now r d), RouteEntry.next_hop (entry_for now r d))
  = view r d.
Proof. unfold entry_for, view. by destruct (routing_table r !! d). Qed.

Lemma settled_ext from nc r r' x :
  id r' = id r → view r' x.1 = view r x.1 →
  hold_down_routes r' !! x.1 = hold_down_routes r !! x.1 →
  settled from nc r x → settled from nc r' x.
Proof. unfold settled. by intros -> -> ->. Qed.

Lemma update_entry_other_view from nc now st x d' :
  d' ≠ x.1 → view (update_entry from nc now st x).1.1 d' = view st.1.1 d'.
Proof.
  intros Hne. unfold view.
  by destruct (update_entry_other from nc now st x d' Hne) as [-> _].
Qed.

Lemma update_entry_settles from nc now st x :
  settled from nc (update_entry from nc now st x).1.1 x.
Proof.
  destruct st as [[r s] u], x as [d a]. unfold settled, view. simpl.
  pose proof (view_entry_for now r d) as Hview. unfold view in Hview.
  unfold update_entry.
  destruct (decide (d = id r)) as [->|Hd]; [by left|]. right.
  revert Hview. generalize (entry_for now r d). intros entry Hview.
  repeat (case_decide || case_match); simplify_eq/=;
    rewrite ?lookup_insert_eq in *; simplify_eq/=; eauto.
Qed.

Lemma update_entry_keeps_settled from nc now st x x' :
  x'.1 ≠ x.1 →
  settled from nc st.1.1 x' →
  settled from nc (update_entry from nc now st x).1.1 x'.
Proof.
  intros Hne. apply settled_ext.
  - apply id_update_entry.
  - by apply update_entry_other_view.
  - by destruct (update_entry_other from nc now st x x'.1 Hne) as [_ ->].
Qed.

Lemma update_entry_quiet from nc now st x :
  settled from nc st.1.1 x →
  (update_entry from nc now st x).2 = st.2
  ∧ id (update_entry from nc now st x).1.1 = id st.1.1
  ∧ (∀ d, view (update_entry from nc now st x).1.1 d = view st.1.1 d)
  ∧ hold_down_routes (update_entry from nc now st x).1.1
    = hold_down_routes st.1.1.
Proof.
  destruct st as [[r s] u], x as [d a]. unfold settled. simpl.
  pose proof (view_entry_for now r d) as Hview.
  assert (Hsame : ∀ d',
    view (set_hold_down_routes (hold_down_routes r)
            (set_routing_table
               (<[d := entry_for now r d]> (routing_table r)) r)) d'
    = view r d').
  { intros d'. unfold view at 1. simpl.
    destruct (decide (d = d')) as [->|Hne].
    - by rewrite lookup_insert_eq.
    - by rewrite lookup_insert_ne. }
  unfold update_entry.
  destruct (decide (d = id r)) as [->|Hd]; [done|].
  intros [?|Hsettled]; [done|]. rewrite <- Hview in Hsettled. simpl in Hsettled.
  destruct (decide (RouteEntry.next_hop (entry_for now r d) = Some from)).
  - rewrite decide_False by (intros Hne; by apply Hne). done.
  - destruct Hsettled as [-> | [t ->]]; [done|].
    by destruct (_ && _).
Qed.

Lemma update_loop_settles from nc now l st :
  NoDup l.*1 →
  Forall (settled from nc (foldl (update_entry from nc now) st l).1.1) l.
Proof.
  revert st. induction l as [|x l IH]; intros st Hnd; [constructor|].
  rewrite fmap_cons in Hnd. apply NoDup_cons in Hnd as [Hx Hnd].
  simpl. constructor; [|by apply IH].
  apply (foldl_invariant _ (λ st', settled from nc st'.1.1 x)).
  - intros st' y Hy Hst'. apply update_entry_keeps_settled; [|done].
    intros Heq. apply Hx. rewrite Heq. by apply list_elem_of_fmap_2.
  - apply update_entry_settles.
Qed.

Lemma update_loop_quiet from nc now l st :
  Forall (settled from nc st.1.1) l →
  (foldl (update_entry from nc now) st l).2 = st.2.
Proof.
  revert st. induction l as [|x l IH]; intros st Hl; [done|].
  apply Forall_cons in Hl as [Hx Hl]. simpl.
  destruct (update_entry_quiet from nc now st x Hx) as (Hu & Hid & Hview & Hhd).
  rewrite IH; [done|].
  eapply Forall_impl; [exact Hl|]. intros y.
  apply settled_ext; [done|apply Hview|by rewrite Hhd].
Qed.

Lemma update_routing_table_frame σ now from vec r stats :
  id (update_routing_table σ now from vec r stats).1.1 = id r
  ∧ neighbors (update_routing_table σ now from vec r stats).1.1 = neighbors r.
Proof.
  destruct (self_route_update_routing_table σ now from vec r stats)
    as (? & ? & _). done.
Qed.

Lemma view_refresh now from r d :
  view (set_routing_table (alter (refresh now) from (routing_table r)) r) d
  = view r d.
Proof.
  unfold view. simpl. rewrite lookup_alter.
  case_decide; [subst|done]. by destruct (routing_table r !! d).
Qed.

(** C7. Applying the same advertisement twice in succession: the second
    call of [update_routing_table], with the same neighbour and the same
    vector on the router and the statistics left by the first call,
    returns [False], for every router, every vector and any two clock
    readings. *)
Theorem update_routing_table_idempotent (σ : list Link.t) (now1 now2 : Z)
    (from_neighbor : string) (received_vector : gmap string Cost)
    (r : AsyncRouter.t) (stats : NetworkStats.t) :
  let first := update_routing_table σ now1 from_neighbor received_vector r stats in
  (update_routing_table σ now2 from_neighbor received_vector
     first.1.1 first.1.2).2 = false.
Proof.
  simpl.
  destruct (update_routing_table_frame σ now1 from_neighbor received_vector
              r stats) as [Hid Hnb].
  unfold update_routing_table at 1.
  unfold link_of at 1. rewrite Hnb. fold (link_of σ r from_neighbor).
  unfold update_routing_table in *.
  destruct (link_of σ r from_neighbor) as [link|]; [|done].
  set (first := foldl _ _ _) in *.
  rewrite update_loop_quiet; [done|]. simpl.
  eapply Forall_impl.
  - apply update_loop_settles, NoDup_fst_map_to_list.
  - intros x. apply settled_ext; [done|apply view_refresh|done].
Qed.

(** ** Advertisements *)

Lemma advertise_entry_other self n now st x D :
  x.1 ≠ D →
  advertised_at D (advertise_entry self n now st x) = advertised_at D st.
Proof.
  destruct st as [[v p] hd], x as [d e]. simpl. intros Hne.
  unfold advertise_entry, advertised_at.
  assert (Hp : bool_decide (D ∈ {[d]} ∪ p) = bool_decide (D ∈ p)).
  { apply bool_decide_ext. rewrite elem_of_union, elem_of_singleton.
    split; [by intros [?|?]|by right]. }
  repeat (case_decide || case_match); simplify_eq/=;
    by rewrite ?lookup_insert_ne, ?lookup_delete_ne, ?Hp by done.
Qed.

Lemma get_distance_vector_at now n r D e :
  routing_table r !! D = Some e →
  ∃ st, advertised_at D st = (None, false, hold_down_routes r !! D)
        ∧ advertised_at D
            ((get_distance_vector_for_neighbor now n r).1.1,
             (get_distance_vector_for_neighbor now n r).1.2,
             hold_down_routes (get_distance_vector_for_neighbor now n r).2)
          = advertised_at D (advertise_entry (id r) n now st (D, e)).
Proof.
  intros He. unfold get_distance_vector_for_neighbor.
  destruct (foldl_visit_once (advertise_entry (id r) n now)
              (advertised_at D) (λ _, True)
              (map_to_list (routing_table r)) D e
              (∅, ∅, hold_down_routes r))
    as (st & _ & Hst & Hfold); try done.
  - apply NoDup_fst_map_to_list.
  - by apply elem_of_map_to_list.
  - intros s x Hx. by apply advertise_entry_other.
  - exists st. split; [done|]. rewrite <- Hfold.
    by destruct (foldl _ _ _) as [[v p] hd].
Qed.

(** C2, against the claim.  A has learnt its routes to C and D through B;
    the link A-B fails at 30 and is back at 50.  In the advertisement A
    builds for B at 50, C is held down: it is in the poison set but not
    in the vector.  At 95 the row of C is GARBAGE: it still has next hop
    B, and it is neither in the vector nor in the poison set. *)
Lemma garbage_and_held_routes_not_advertised :
  (∃ e, routing_table A95 !! "C" = Some e
        ∧ RouteEntry.next_hop e = Some "B"
        ∧ RouteEntry.status e = GARBAGE)
  ∧ "C" ≠ id A95
  ∧ (get_distance_vector_for_neighbor 95 "B" A95).1.1 !! "C" ≠ Some inf
  ∧ ("C" ∉ (get_distance_vector_for_neighbor 95 "B" A95).1.2)
  ∧ (∃ e, routing_table (router "A" net50) !! "C" = Some e
          ∧ RouteEntry.next_hop e = Some "B"
          ∧ RouteEntry.status e = INVALID)
  ∧ hold_down_routes (router "A" net50) !! "C" = Some 120
  ∧ (get_distance_vector_for_neighbor 50 "B" (router "A" net50)).1.1 !! "C"
    = None.
Proof.
  split.
  { exists (RouteEntry.mk "C" inf (Some "B") GARBAGE 10 100 90).
    repeat split; vm_compute; reflexivity. }
  split; [vm_compute; discriminate|].
  split; [vm_compute; discriminate|].
  split; [vm_compute; discriminate|].
  split.
  { exists (RouteEntry.mk "C" inf (Some "B") INVALID 10 100 90).
    repeat split; vm_compute; reflexivity. }
  split; vm_compute; reflexivity.
Qed.

(** C2, as amended.  In the advertisement built for neighbour N, a
    destination D other than the router itself whose row has next hop N
    and is not GARBAGE is in the poison set; it is advertised at [inf]
    unless it is held down and the hold-down has not expired, in which
    case it is left out of the vector.  When the row is GARBAGE, D is in
    neither the vector nor the poison set. *)
Theorem poison_reverse_advertisement (now : Z) (N : string)
    (r : AsyncRouter.t) (D : string) (e : RouteEntry.t) :
  routing_table r !! D = Some e →
  RouteEntry.next_hop e = Some N →
  D ≠ id r →
  let vector := (get_distance_vector_for_neighbor now N r).1.1 in
  let poison_routes := (get_distance_vector_for_neighbor now N r).1.2 in
  if decide (RouteEntry.status e = GARBAGE)
  then vector !! D = None ∧ D ∉ poison_routes
  else D ∈ poison_routes
       ∧ vector !! D =
           match hold_down_routes r !! D with
           | Some expiry => if bool_decide (now < expiry) then None else Some inf
           | None => Some inf
           end.
Proof.
  intros He Hnh Hself. simpl.
  destruct (get_distance_vector_at now N r D e He)
    as ([[v p] hd] & Hst & Hres).
  unfold advertised_at in Hst, Hres. simpl in Hst, Hres.
  injection Hst as Hv Hp Hhd.
  apply bool_decide_eq_false in Hp.
  unfold advertise_entry in Hres. rewrite Hnh in Hres.
  rewrite (bool_decide_eq_true_2 (Some N = Some N)) in Hres by done.
  rewrite (bool_decide_eq_true_2 (D ≠ id r)) in Hres by done.
  simpl in Hres.
  rewrite Hhd in Hres.
  destruct (decide (RouteEntry.status e = GARBAGE)) as [Hg|Hg].
  - simpl in Hres. injection Hres as -> Hp' _. split; [done|].
    apply (bool_decide_eq_false (D ∈ _)). by rewrite Hp', bool_decide_eq_false.
  - assert (HD : D ∈ {[D]} ∪ p).
    { apply elem_of_union. left. by apply elem_of_singleton. }
    destruct (hold_down_routes r !! D) as [expiry|].
    + destruct (bool_decide (now < expiry)); simpl in Hres;
        injection Hres as -> Hp' _;
        rewrite (bool_decide_eq_true_2 _ HD) in Hp';
        apply bool_decide_eq_true in Hp';
        by rewrite ?lookup_insert_eq.
    + simpl in Hres. injection Hres as -> Hp' _.
      rewrite (bool_decide_eq_true_2 _ HD) in Hp'.
      apply bool_decide_eq_true in Hp'. by rewrite lookup_insert_eq.
Qed.

Lemma poison_reverse_advertisement_witness :
  let r := router "A" net10 in
  let e := RouteEntry.mk "D" (Fin 5) (Some "B") VALID 10 100 0 in
  routing_table r !! "D" = Some e
  ∧ RouteEntry.next_hop e = Some "B"
  ∧ "D" ≠ id r
  ∧ ("D" ∈ (get_distance_vector_for_neighbor 12 "B" r).1.2)
  ∧ (get_distance_vector_for_neighbor 12 "B" r).1.1 !! "D" = Some inf.
Proof.
  intros r e.
  assert (He : routing_table r !! "D" = Some e) by (vm_compute; reflexivity).
  assert (Hnh : RouteEntry.next_hop e = Some "B") by reflexivity.
  assert (Hself : "D" ≠ id r) by (vm_compute; discriminate).
  split; [exact He|]. split; [exact Hnh|]. split; [exact Hself|].
  exact (poison_reverse_advertisement 12 "B" r "D" e He Hnh Hself).
Defined.

(** ** Refreshing the timeout of a route *)

Lemma update_entry_same_cost from nc now st d a e :
  routing_table st.1.1 !! d = Some e →
  RouteEntry.next_hop e = Some from →
  new_cost nc a = RouteEntry.cost e →
  routing_table (update_entry from nc now st (d, a)).1.1 !! d = Some e.
Proof.
  destruct st as [[r s] u]. simpl. intros He Hnh Hc.
  unfold update_entry, entry_for. rewrite He.
  case_decide; [done|].
  rewrite decide_True by done.
  rewrite decide_False by (intros Hne; by apply Hne).
  simpl. by rewrite lookup_insert_eq.
Qed.

(** Whatever the clock says, a row that goes through the advertiser and
    is advertised again at the cost it has is left as it is, timers
    included, unless it is the advertiser's own row. *)
Lemma update_routing_table_same_cost_keeps_row σ now from vec r stats
    link D a e :
  link_of σ r from = Some link →
  routing_table r !! D = Some e →
  RouteEntry.next_hop e = Some from →
  D ≠ from →
  vec !! D = Some a →
  new_cost (Link.cost link) a = RouteEntry.cost e →
  routing_table (update_routing_table σ now from vec r stats).1.1 !! D
  = Some e.
Proof.
  intros Hlink He Hnh Hne Ha Hc. unfold update_routing_table. rewrite Hlink.
  destruct (foldl_visit_once (update_entry from (Link.cost link) now)
              (λ st, routing_table st.1.1 !! D) (λ _, True)
              (map_to_list vec) D a
              (set_routing_table
                 (alter (refresh now) from (routing_table r)) r, stats, false))
    as (s1 & _ & Hs1 & ->); try done.
  - apply NoDup_fst_map_to_list.
  - by apply elem_of_map_to_list.
  - intros s x Hx.
    by destruct (update_entry_other from (Link.cost link) now s x D) as [-> _].
  - simpl in Hs1. rewrite lookup_alter_ne in Hs1 by done.
    apply update_entry_same_cost; [by rewrite Hs1, He|done..].
Qed.

(** C1, on the code.  A learns its route to D through B at time 10
    (timeout 100).  B advertises D again at the same cost at 25, 40, 55,
    70, 85 and 100: the row has next hop B and D is in the vector, yet its
    last update time stays 10 and its timeout stays 100, not 25 +
    ROUTE_TIMEOUT.  The sweep at 101 then expires the route that was
    advertised a second before. *)
Lemma same_cost_advertisement_does_not_refresh :
  vector_B_to_A !! "D" = Some (Fin 3)
  ∧ "D" ≠ id (router "A" net10)
  ∧ routing_table (router "A" net10) !! "D"
    = Some (RouteEntry.mk "D" (Fin 5) (Some "B") VALID 10 100 0)
  ∧ routing_table (router "A" net25) !! "D"
    = Some (RouteEntry.mk "D" (Fin 5) (Some "B") VALID 10 100 0)
  ∧ 100 ≠ 25 + RIPTimers.ROUTE_TIMEOUT
  ∧ routing_table (router "A" net100) !! "D"
    = Some (RouteEntry.mk "D" (Fin 5) (Some "B") VALID 10 100 0)
  ∧ routing_table
      (check_timeouts 101 (router "A" net100) (stats net100)).1.1 !! "D"
    = Some (RouteEntry.mk "D" inf (Some "B") INVALID 10 100 161).
Proof. repeat split; try (vm_compute; reflexivity); vm_compute; discriminate. Qed.

(** ** Restart *)

(** What [restart_simulation] does achieve: every link that the
    coordinator knows is UP, the statistics are fresh with periodic
    updates enabled, and every table has been re-initialised, against the
    store as it was before the links were forced UP. *)
Lemma all_links_up_lookup lks σ ref :
  all_links_up lks σ !! ref =
    if decide (ref ∈ (map_to_list lks).*2)
    then Link.set_status UP <$> σ !! ref
    else σ !! ref.
Proof.
  unfold all_links_up. generalize (map_to_list lks). intros items.
  induction items as [|x items IH] using rev_ind.
  - by rewrite decide_False by apply not_elem_of_nil.
  - rewrite foldl_app. cbn [foldl]. rewrite fmap_app. simpl.
    destruct (decide (x.2 = ref)) as [<-|Hne].
    + rewrite list_lookup_alter, IH.
      rewrite (decide_True (P := x.2 ∈ items.*2 ++ [x.2])).
      2:{ apply elem_of_app. right. by left. }
      rewrite (decide_True (P := x.2 = x.2)) by done.
      case_decide; [|done]. by destruct (σ !! x.2) as [[]|].
    + rewrite list_lookup_alter, (decide_False (P := x.2 = ref)) by done.
      rewrite IH.
      destruct (decide (ref ∈ items.*2)) as [Hin|Hout].
      * rewrite decide_True; [done|]. apply elem_of_app. by left.
      * rewrite decide_False; [done|]. apply not_elem_of_app. split; [done|].
        intros ?%list_elem_of_singleton. congruence.
Qed.

Lemma restart_simulation_links_up now net k ref l :
  links net !! k = Some ref →
  store (restart_simulation now net) !! ref = Some l →
  Link.status l = UP.
Proof.
  intros Hk. unfold restart_simulation. simpl.
  rewrite all_links_up_lookup, decide_True.
  - destruct (store net !! ref) as [l0|]; simpl; [|done]. by intros [= <-].
  - apply elem_of_map_to_list in Hk.
    change ref with (k, ref).2. by apply list_elem_of_fmap_2.
Qed.

Lemma restart_simulation_stats now net :
  stats (restart_simulation now net) = NetworkStats.fresh
  ∧ NetworkStats.periodic_updates_enabled (stats (restart_simulation now net))
    = true.
Proof. done. Qed.

Lemma restart_simulation_routers now net :
  routers (restart_simulation now net)
  = initialize_routing_table (store net) now (map_to_list (routers net)).*1
      <$> routers net.
Proof. done. Qed.

(** C5, on the code.  The link A-B is DOWN when the simulation is
    restarted at 40.  After the restart every link is UP and the
    statistics are fresh, but A's row for B is the unreachable one,
    because the tables were initialised while the link was still DOWN; a
    fresh initialisation of the topology at 40 gives cost 2 through B. *)
Lemma restart_initializes_before_links_up :
  store net30_failed !! 0%nat = Some (Link.mk "A" "B" 2 DOWN 30)
  ∧ Forall (λ l, Link.status l = UP) (store net40_restarted)
  ∧ stats net40_restarted = NetworkStats.fresh
  ∧ routing_table (router "A" net40_restarted) !! "B"
    = Some (RouteEntry.mk "B" inf None INVALID 40 0 0)
  ∧ routing_table (router "A" net40_fresh) !! "B"
    = Some (RouteEntry.mk "B" (Fin 2) (Some "B") VALID 40 0 0).
Proof.
  repeat split; vm_compute; try reflexivity. repeat constructor.
Qed.

(** * Further properties of the code *)

(** ** More on loops over the items of a dictionary *)

Section keyed_fold_split.
Context {S K V : Type} (f : S → K * V → S).

(** The loop cut at the one iteration that visits a given key. *)
Lemma foldl_visit_split (l : list (K * V)) (k : K) (v : V) (s : S) :
  NoDup l.*1 → (k, v) ∈ l →
  ∃ l1 l2, l = l1 ++ (k, v) :: l2 ∧ (k ∉ l1.*1) ∧ (k ∉ l2.*1)
           ∧ foldl f s l = foldl f (f (foldl f s l1) (k, v)) l2.
Proof.
  intros Hnd Hin.
  apply list_elem_of_split in Hin as (l1 & l2 & ->).
  rewrite fmap_app, fmap_cons in Hnd. simpl in Hnd.
  apply NoDup_app in Hnd as (_ & Hl1 & Hnd).
  apply NoDup_cons in Hnd as (Hl2 & _).
  exists l1, l2. split; [done|]. split; [|split; [done|]].
  - intros Hk. apply (Hl1 k Hk). by left.
  - by rewrite foldl_app.
Qed.

(** What an iteration at another key leaves alone is left alone by a
    loop that does not visit the key. *)
Lemma foldl_skips {T} (get : S → T) (l : list (K * V)) (k : K) (s : S) :
  k ∉ l.*1 →
  (∀ s x, x.1 ≠ k → get (f s x) = get s) →
  get (foldl f s l) = get s.
Proof.
  intros Hk Hother.
  apply (foldl_invariant f (λ s', get s' = get s)); [|done].
  intros s' x Hx Hs'. rewrite Hother; [done|].
  intros Heq. apply Hk. rewrite <- Heq. by apply list_elem_of_fmap_2.
Qed.
End keyed_fold_split.

Lemma not_elem_of_map_to_list_fst `{Countable K} {V} (m : gmap K V) (k : K) :
  m !! k = None → k ∉ (map_to_list m).*1.
Proof.
  intros Hk Hin. apply list_elem_of_fmap in Hin as ([k' v] & -> & Hin).
  apply elem_of_map_to_list in Hin. simpl in Hk. congruence.
Qed.

(** ** [handle_link_failure] *)

Lemma fail_entry_other n now st x D :
  x.1 ≠ D → at_dest D (fail_entry n now st x).1 = at_dest D st.1.
Proof.
  intros Hne. rewrite fail_entry_unfold.
  destruct (_ && _); [|done]. unfold apply_failure, at_dest. simpl.
  by rewrite !lookup_insert_ne.
Qed.

Lemma fail_loop_id n now l st :
  id (foldl (fail_entry n now) st l).1 = id st.1.
Proof.
  apply (foldl_invariant _ (λ st', id st'.1 = id st.1)); [|done].
  intros st' x _ <-. apply id_fail_entry.
Qed.

Lemma fail_entry_flag n now st x :
  st.2 = true → (fail_entry n now st x).2 = true.
Proof. rewrite fail_entry_unfold. by destruct (_ && _). Qed.

Lemma fail_loop_flag n now l st :
  st.2 = true → (foldl (fail_entry n now) st l).2 = true.
Proof.
  intros Hst. apply (foldl_invariant _ (λ st', st'.2 = true)); [|done].
  intros st' x _. apply fail_entry_flag.
Qed.

Lemma handle_link_failure_at (now : Z) (n : string) (r : AsyncRouter.t)
    (stats : NetworkStats.t) (l : nat) (D : string) :
  neighbors r !! n = Some l →
  let r' := (handle_link_failure now n r stats).1.1 in
  match routing_table r !! D with
  | Some e =>
      if bool_decide (RouteEntry.next_hop e = Some n)
         && bool_decide (D ≠ id r)
      then at_dest D r'
           = (Some (unreachable_row now e), Some inf,
              Some (now + RIPTimers.HOLD_DOWN))
           ∧ (handle_link_failure now n r stats).2 = true
      else at_dest D r' = at_dest D r
  | None => at_dest D r' = at_dest D r
  end.
Proof.
  intros Hn. simpl. unfold handle_link_failure. rewrite Hn.
  destruct (routing_table r !! D) as [e|] eqn:He.
  - destruct (foldl_visit_split (fail_entry n now)
                (map_to_list (routing_table r)) D e (r, false))
      as (l1 & l2 & Hl & Hl1 & Hl2 & Hfold).
    { apply NoDup_fst_map_to_list. }
    { by apply elem_of_map_to_list. }
    rewrite Hfold. clear Hfold Hl.
    set (s1 := foldl (fail_entry n now) (r, false) l1).
    assert (Hs1 : at_dest D s1.1 = at_dest D r).
    { apply (foldl_skips _ (λ st, at_dest D st.1) _ D); [done|].
      intros. by apply fail_entry_other. }
    assert (Hid : id s1.1 = id r) by apply fail_loop_id.
    assert (Hrest : ∀ st,
      at_dest D (foldl (fail_entry n now) st l2).1 = at_dest D st.1).
    { intros st. apply (foldl_skips _ (λ st, at_dest D st.1) _ D); [done|].
      intros. by apply fail_entry_other. }
    rewrite (fail_entry_unfold n now s1 (D, e)). simpl. rewrite Hid.
    destruct (bool_decide (RouteEntry.next_hop e = Some n)
              && bool_decide (D ≠ id r)) eqn:Hc.
    + pose proof (Hrest (apply_failure now D e s1)) as Hr.
      pose proof (fail_loop_flag n now l2 (apply_failure now D e s1) eq_refl)
        as Hflag.
      destruct (foldl _ (apply_failure now D e s1) l2) as [r' [|]];
        [|done]. simpl in *. split; [|done].
      rewrite Hr. unfold at_dest. simpl. by rewrite !lookup_insert_eq.
    + pose proof (Hrest s1) as Hr.
      destruct (foldl _ s1 l2) as [r' [|]]; simpl in *; by rewrite Hr.
  - assert (Hfold : at_dest D (foldl (fail_entry n now) (r, false)
                       (map_to_list (routing_table r))).1 = at_dest D r).
    { apply (foldl_skips _ (λ st, at_dest D st.1) _ D).
      - by apply not_elem_of_map_to_list_fst.
      - intros. by apply fail_entry_other. }
    destruct (foldl _ _ _) as [r' [|]]; done.
Qed.


(** X12. The failure of a link that no route uses changes neither the
    router nor the statistics, and reports no change. *)
Theorem handle_link_failure_quiet (now : Z) (n : string)
    (r : AsyncRouter.t) (stats : NetworkStats.t) :
  (∀ D e, routing_table r !! D = Some e →
          RouteEntry.next_hop e = Some n → D = id r) →
  handle_link_failure now n r stats = (r, stats, false).
Proof.
  intros Hnone. unfold handle_link_failure.
  destruct (neighbors r !! n); [|done].
  assert (Hfold : foldl (fail_entry n now) (r, false)
                    (map_to_list (routing_table r)) = (r, false)).
  { apply (foldl_invariant _ (λ st, st = (r, false))); [|done].
    intros st [D e] Hx ->. apply elem_of_map_to_list in Hx.
    rewrite fail_entry_unfold. simpl.
    destruct (bool_decide (RouteEntry.next_hop e = Some n)) eqn:Hnh; [|done].
    apply bool_decide_eq_true in Hnh.
    by rewrite (bool_decide_eq_false_2 (D ≠ id r))
      by (intros Hne; apply Hne; by apply (Hnone D e)). }
  by rewrite Hfold.
Qed.

Lemma handle_link_failure_quiet_witness :
  let r := router "A" net10 in
  neighbors r !! "C" = Some 1%nat
  ∧ (∀ D e, routing_table r !! D = Some e →
            RouteEntry.next_hop e = Some "C" → D = id r)
  ∧ handle_link_failure 30 "C" r (stats net10) = (r, stats net10, false).
Proof.
  intros r.
  assert (Hall : map_Forall (λ _ e, RouteEntry.next_hop e ≠ Some "C")
                   (routing_table r)).
  { apply (bool_decide_unpack _). vm_compute. reflexivity. }
  assert (Hnone : ∀ D e, routing_table r !! D = Some e →
                         RouteEntry.next_hop e = Some "C" → D = id r).
  { intros D e He Hnh. destruct (Hall D e He Hnh). }
  split; [vm_compute; reflexivity|]. split; [exact Hnone|].
  exact (handle_link_failure_quiet 30 "C" r (stats net10) Hnone).
Defined.

(** ** [check_timeouts] *)

Lemma sweep_entry_other now st x D :
  x.1 ≠ D → at_dest D (sweep_entry now st x).1 = at_dest D st.1.
Proof.
  intros Hne. rewrite sweep_entry_unfold. case_decide; [done|].
  unfold apply_sweep, at_dest.
  destruct (sweep_action now x.2) as [[e [|]]|]; simpl;
    by rewrite ?lookup_insert_ne.
Qed.

Lemma id_sweep_entry now st x : id (sweep_entry now st x).1 = id st.1.
Proof.
  rewrite sweep_entry_unfold. case_decide; [done|].
  unfold apply_sweep. by destruct (sweep_action now x.2) as [[e b]|].
Qed.

Lemma sweep_loop_id now l st :
  id (foldl (sweep_entry now) st l).1 = id st.1.
Proof.
  apply (foldl_invariant _ (λ st', id st'.1 = id st.1)); [|done].
  intros st' x _ <-. apply id_sweep_entry.
Qed.

Lemma sweep_entry_flag now st x :
  st.2 = true → (sweep_entry now st x).2 = true.
Proof.
  rewrite sweep_entry_unfold. case_decide; [done|].
  unfold apply_sweep. by destruct (sweep_action now x.2) as [[e b]|].
Qed.

Lemma sweep_loop_flag now l st :
  st.2 = true → (foldl (sweep_entry now) st l).2 = true.
Proof.
  intros Hst. apply (foldl_invariant _ (λ st', st'.2 = true)); [|done].
  intros st' x _. apply sweep_entry_flag.
Qed.

(** The row of a destination after a sweep, in terms of what the sweep
    decides for it. *)
Lemma check_timeouts_at now r stats D e :
  routing_table r !! D = Some e → D ≠ id r →
  match sweep_action now e with
  | Some (e', expired) =>
      at_dest D (check_timeouts now r stats).1.1
      = (Some e',
         if expired then Some inf else distance_vector r !! D,
         if expired then Some (now + RIPTimers.HOLD_DOWN)
         else hold_down_routes r !! D)
      ∧ (check_timeouts now r stats).2 = true
  | None => at_dest D (check_timeouts now r stats).1.1 = at_dest D r
  end.
Proof.
  intros He Hself. unfold check_timeouts.
  destruct (foldl_visit_split (sweep_entry now)
              (map_to_list (routing_table r)) D e (r, false))
    as (l1 & l2 & Hl & Hl1 & Hl2 & Hfold).
  { apply NoDup_fst_map_to_list. }
  { by apply elem_of_map_to_list. }
  rewrite Hfold. clear Hfold Hl.
  set (s1 := foldl (sweep_entry now) (r, false) l1).
  assert (Hs1 : at_dest D s1.1 = at_dest D r).
  { apply (foldl_skips _ (λ st, at_dest D st.1) _ D); [done|].
    intros. by apply sweep_entry_other. }
  assert (Hid : id s1.1 = id r) by apply sweep_loop_id.
  assert (Hrest : ∀ st,
    at_dest D (foldl (sweep_entry now) st l2).1 = at_dest D st.1).
  { intros st. apply (foldl_skips _ (λ st, at_dest D st.1) _ D); [done|].
    intros. by apply sweep_entry_other. }
  rewrite (sweep_entry_unfold now s1 (D, e)). simpl.
  rewrite Hid, decide_False by done.
  injection Hs1 as Hrt Hdv Hhd.
  destruct (sweep_action now e) as [[e' expired]|].
  - pose proof (Hrest (apply_sweep now D (Some (e', expired)) s1)) as Hr.
    pose proof (sweep_loop_flag now l2
                  (apply_sweep now D (Some (e', expired)) s1) eq_refl)
      as Hflag.
    destruct (foldl _ (apply_sweep now D (Some (e', expired)) s1) l2)
      as [r' [|]]; [|done]. simpl in *. split; [|done].
    rewrite Hr. unfold at_dest. simpl. rewrite lookup_insert_eq.
    destruct expired; by rewrite ?lookup_insert_eq, ?Hdv, ?Hhd.
  - pose proof (Hrest s1) as Hr. unfold apply_sweep.
    destruct (foldl _ s1 l2) as [r' [|]]; simpl in *; rewrite Hr;
      unfold at_dest; by rewrite Hrt, Hdv, Hhd.
Qed.


Lemma sweep_action_none now e :
  ¬ (RouteEntry.status e = VALID ∧ 0 < RouteEntry.timeout_time e
     ∧ RouteEntry.timeout_time e < now) →
  ¬ (RouteEntry.status e = INVALID ∧ 0 < RouteEntry.garbage_time e
     ∧ RouteEntry.garbage_time e < now) →
  sweep_action now e = None.
Proof.
  intros Hv Hi. unfold sweep_action.
  destruct (bool_decide (RouteEntry.status e = VALID) && _ && _) eqn:H1.
  { exfalso. apply Hv.
    apply andb_true_iff in H1 as [[?%bool_decide_eq_true ?%bool_decide_eq_true]
      %andb_true_iff ?%bool_decide_eq_true]. by repeat split. }
  destruct (bool_decide (RouteEntry.status e = INVALID) && _ && _) eqn:H2;
    [|done].
  exfalso. apply Hi.
  apply andb_true_iff in H2 as [[?%bool_decide_eq_true ?%bool_decide_eq_true]
    %andb_true_iff ?%bool_decide_eq_true]. by repeat split.
Qed.

(** X9. A sweep at a time when no timer is due changes neither the
    router nor the statistics, and reports no change. *)
Theorem check_timeouts_quiet (now : Z) (r : AsyncRouter.t)
    (stats : NetworkStats.t) :
  (∀ D e, routing_table r !! D = Some e → D ≠ id r →
          ¬ (RouteEntry.status e = VALID ∧ 0 < RouteEntry.timeout_time e
             ∧ RouteEntry.timeout_time e < now)
          ∧ ¬ (RouteEntry.status e = INVALID
               ∧ 0 < RouteEntry.garbage_time e
               ∧ RouteEntry.garbage_time e < now)) →
  check_timeouts now r stats = (r, stats, false).
Proof.
  intros Hnone. unfold check_timeouts.
  assert (Hfold : foldl (sweep_entry now) (r, false)
                    (map_to_list (routing_table r)) = (r, false)).
  { apply (foldl_invariant _ (λ st, st = (r, false))); [|done].
    intros st [D e] Hx ->. apply elem_of_map_to_list in Hx.
    rewrite sweep_entry_unfold. simpl. case_decide; [done|].
    destruct (Hnone D e) as [Hv Hi]; [done..|].
    by rewrite sweep_action_none. }
  by rewrite Hfold.
Qed.

Lemma check_timeouts_quiet_witness :
  let r := router "A" net10 in
  (∀ D e, routing_table r !! D = Some e → D ≠ id r →
          ¬ (RouteEntry.status e = VALID ∧ 0 < RouteEntry.timeout_time e
             ∧ RouteEntry.timeout_time e < 100)
          ∧ ¬ (RouteEntry.status e = INVALID
               ∧ 0 < RouteEntry.garbage_time e
               ∧ RouteEntry.garbage_time e < 100))
  ∧ check_timeouts 100 r (stats net10) = (r, stats net10, false).
Proof.
  intros r.
  assert (Hall : map_Forall (λ _ e,
            ¬ (RouteEntry.status e = VALID ∧ 0 < RouteEntry.timeout_time e
               ∧ RouteEntry.timeout_time e < 100)
            ∧ ¬ (RouteEntry.status e = INVALID
                 ∧ 0 < RouteEntry.garbage_time e
                 ∧ RouteEntry.garbage_time e < 100)) (routing_table r)).
  { apply (bool_decide_unpack _). vm_compute. reflexivity. }
  assert (Hnone : ∀ D e, routing_table r !! D = Some e → D ≠ id r →
          ¬ (RouteEntry.status e = VALID ∧ 0 < RouteEntry.timeout_time e
             ∧ RouteEntry.timeout_time e < 100)
          ∧ ¬ (RouteEntry.status e = INVALID
               ∧ 0 < RouteEntry.garbage_time e
               ∧ RouteEntry.garbage_time e < 100)).
  { intros D e He _. exact (Hall D e He). }
  split; [exact Hnone|].
  exact (check_timeouts_quiet 100 r (stats net10) Hnone).
Defined.

(** X10. The life of a route that is no longer refreshed: the first sweep
    after its timeout makes it INVALID and holds it down, a sweep more
    than GARBAGE_COLLECTION seconds later makes it GARBAGE, and no later
    sweep changes the row again: the row is never removed from the
    table. *)
Theorem route_expires_then_is_collected (t1 t2 : Z) (r : AsyncRouter.t)
    (stats1 stats2 : NetworkStats.t) (D : string) (e : RouteEntry.t)
    (sweeps : list (Z * NetworkStats.t)) :
  routing_table r !! D = Some e →
  D ≠ id r →
  RouteEntry.status e = VALID →
  0 < RouteEntry.timeout_time e →
  RouteEntry.timeout_time e < t1 →
  t1 + RIPTimers.GARBAGE_COLLECTION < t2 →
  let r1 := (check_timeouts t1 r stats1).1.1 in
  let r2 := (check_timeouts t2 r1 stats2).1.1 in
  routing_table r1 !! D = Some (unreachable_row t1 e)
  ∧ hold_down_routes r1 !! D = Some (t1 + RIPTimers.HOLD_DOWN)
  ∧ routing_table r2 !! D
    = Some (RouteEntry.set_status GARBAGE (unreachable_row t1 e))
  ∧ routing_table (run_sweeps sweeps r2) !! D
    = Some (RouteEntry.set_status GARBAGE (unreachable_row t1 e)).
Proof.
  intros He Hself Hs Ht0 Ht1 Ht2. simpl.
  pose proof (check_timeouts_at t1 r stats1 D e He Hself) as H1.
  unfold sweep_action in H1. rewrite Hs in H1.
  rewrite !bool_decide_eq_true_2 in H1 by done. simpl in H1.
  destruct H1 as [H1 _]. injection H1 as Hrt1 _ Hhd1.
  assert (Hid1 : id (check_timeouts t1 r stats1).1.1 = id r).
  { pose proof (self_row_check_timeouts t1 r stats1) as Hrow.
    by injection Hrow. }
  pose proof (check_timeouts_at t2 _ stats2 D _ Hrt1) as H2.
  rewrite Hid1 in H2. specialize (H2 Hself).
  unfold sweep_action in H2. simpl in H2.
  rewrite (bool_decide_eq_true_2 (0 < t1 + RIPTimers.GARBAGE_COLLECTION))
    in H2 by (unfold RIPTimers.GARBAGE_COLLECTION; lia).
  rewrite (bool_decide_eq_true_2 (t1 + RIPTimers.GARBAGE_COLLECTION < t2))
    in H2 by done.
  simpl in H2. destruct H2 as [H2 _]. injection H2 as Hrt2 _ _.
  split; [exact Hrt1|]. split; [exact Hhd1|]. split; [exact Hrt2|].
  unfold run_sweeps.
  apply (foldl_invariant _ (λ r', routing_table r' !! D = Some _)); [|exact Hrt2].
  intros r' [t s] _ Hr'. simpl.
  destruct (decide (D = id r')) as [Heq|Hne].
  - pose proof (self_row_check_timeouts t r' s) as Hrow.
    injection Hrow as _ _ Hrow'. rewrite Heq. rewrite Heq in Hr'.
    pose proof (self_row_check_timeouts t r' s) as [= Hid' _ _].
    rewrite <- Hid' in Hrow' at 1. rewrite <- Hid' at 1. congruence.
  - pose proof (check_timeouts_at t r' s D _ Hr' Hne) as H3.
    rewrite sweep_action_none in H3 by (by intros [? _]).
    injection H3 as -> _ _. exact Hr'.
Qed.

Lemma route_expires_then_is_collected_witness :
  let r := router "A" net10 in
  let e := RouteEntry.mk "D" (Fin 5) (Some "B") VALID 10 100 0 in
  let r1 := (check_timeouts 101 r (stats net10)).1.1 in
  let r2 := (check_timeouts 162 r1 (stats net10)).1.1 in
  let sweeps := [(170, stats net10); (300, stats net10)] in
  routing_table r !! "D" = Some e
  ∧ "D" ≠ id r
  ∧ RouteEntry.status e = VALID
  ∧ 0 < RouteEntry.timeout_time e
  ∧ RouteEntry.timeout_time e < 101
  ∧ 101 + RIPTimers.GARBAGE_COLLECTION < 162
  ∧ routing_table r1 !! "D" = Some (unreachable_row 101 e)
  ∧ hold_down_routes r1 !! "D" = Some (101 + RIPTimers.HOLD_DOWN)
  ∧ routing_table r2 !! "D"
    = Some (RouteEntry.set_status GARBAGE (unreachable_row 101 e))
  ∧ routing_table (run_sweeps sweeps r2) !! "D"
    = Some (RouteEntry.set_status GARBAGE (unreachable_row 101 e)).
Proof.
  intros r e r1 r2 sweeps.
  assert (He : routing_table r !! "D" = Some e) by (vm_compute; reflexivity).
  assert (Hself : "D" ≠ id r) by (vm_compute; discriminate).
  assert (Hs : RouteEntry.status e = VALID) by reflexivity.
  assert (Ht0 : 0 < RouteEntry.timeout_time e) by (simpl; lia).
  assert (Ht1 : RouteEntry.timeout_time e < 101) by (simpl; lia).
  assert (Ht2 : 101 + RIPTimers.GARBAGE_COLLECTION < 162)
    by (unfold RIPTimers.GARBAGE_COLLECTION; lia).
  split; [exact He|]. split; [exact Hself|]. split; [exact Hs|].
  split; [exact Ht0|]. split; [exact Ht1|]. split; [exact Ht2|].
  exact (route_expires_then_is_collected 101 162 r (stats net10)
           (stats net10) "D" e sweeps He Hself Hs Ht0 Ht1 Ht2).
Defined.

(** ** [update_routing_table], row by row *)

Lemma update_entry_other_at from nc now st x D :
  x.1 ≠ D →
  at_dest D (update_entry from nc now st x).1.1 = at_dest D st.1.1.
Proof.
  intros Hne. rewrite update_entry_unfold. case_decide; [done|].
  unfold apply_decision, at_dest. simpl.
  destruct (route_decision _ _ _ _ _) as [[e [t|]] [|]]; simpl;
    by rewrite ?lookup_insert_ne.
Qed.

Lemma update_entry_flag from nc now st x :
  st.2 = true → (update_entry from nc now st x).2 = true.
Proof.
  intros Hst. rewrite update_entry_unfold. case_decide; [done|].
  unfold apply_decision. simpl. by destruct (route_decision _ _ _ _ _).2.
Qed.

Lemma update_loop_flag from nc now l st :
  st.2 = true → (foldl (update_entry from nc now) st l).2 = true.
Proof.
  intros Hst. apply (foldl_invariant _ (λ st', st'.2 = true)); [|done].
  intros st' x _. apply update_entry_flag.
Qed.

Lemma update_loop_id from nc now l st :
  id (foldl (update_entry from nc now) st l).1.1 = id st.1.1.
Proof.
  apply (foldl_invariant _ (λ st', id st'.1.1 = id st.1.1)); [|done].
  intros st' x _ <-. apply id_update_entry.
Qed.

(** What the call leaves at a destination of the vector: what the
    decision taken on the row says. *)
Lemma update_routing_table_at σ now from vec r stats link D a :
  link_of σ r from = Some link →
  vec !! D = Some a →
  D ≠ id r →
  let dec :=
    route_decision from (new_cost (Link.cost link) a) now
      (entry_for now (refreshed now from r) D) (hold_down_routes r !! D) in
  at_dest D (update_routing_table σ now from vec r stats).1.1
  = (Some dec.1.1,
     if dec.2 then Some (RouteEntry.cost dec.1.1) else distance_vector r !! D,
     match dec.1.2 with Some t => Some t | None => hold_down_routes r !! D end)
  ∧ (dec.2 = true →
     (update_routing_table σ now from vec r stats).2 = true).
Proof.
  intros Hlink Ha Hself. simpl. unfold update_routing_table. rewrite Hlink.
  fold (refreshed now from r).
  destruct (foldl_visit_split (update_entry from (Link.cost link) now)
              (map_to_list vec) D a (refreshed now from r, stats, false))
    as (l1 & l2 & Hl & Hl1 & Hl2 & Hfold).
  { apply NoDup_fst_map_to_list. }
  { by apply elem_of_map_to_list. }
  rewrite Hfold. clear Hfold Hl.
  set (s1 := foldl _ (refreshed now from r, stats, false) l1).
  assert (Hs1 : at_dest D s1.1.1 = at_dest D (refreshed now from r)).
  { apply (foldl_skips _ (λ st, at_dest D st.1.1) _ D); [done|].
    intros. by apply update_entry_other_at. }
  assert (Hid : id s1.1.1 = id r) by apply update_loop_id.
  injection Hs1 as Hrt Hdv Hhd. simpl in Hdv, Hhd.
  assert (Hentry : entry_for now s1.1.1 D = entry_for now (refreshed now from r) D).
  { unfold entry_for. by rewrite Hrt. }
  rewrite (update_entry_unfold from (Link.cost link) now s1 (D, a)). simpl.
  rewrite Hid, decide_False by done. rewrite Hentry, Hhd.
  set (dec := route_decision _ _ _ _ _).
  split.
  - rewrite (foldl_skips _ (λ st, at_dest D st.1.1) _ D); [|done|].
    2:{ intros. by apply update_entry_other_at. }
    unfold apply_decision, at_dest. simpl. rewrite lookup_insert_eq.
    destruct dec.2, dec.1.2; by rewrite ?lookup_insert_eq, ?Hdv, ?Hhd.
  - intros Hdec. apply update_loop_flag.
    unfold apply_decision. simpl. by rewrite Hdec.
Qed.

(** Destinations that the vector does not mention. *)
Lemma update_routing_table_absent σ now from vec r stats link D :
  link_of σ r from = Some link →
  vec !! D = None →
  at_dest D (update_routing_table σ now from vec r stats).1.1
  = at_dest D (refreshed now from r).
Proof.
  intros Hlink Ha. unfold update_routing_table. rewrite Hlink.
  apply (foldl_skips _ (λ st, at_dest D st.1.1) _ D).
  - by apply not_elem_of_map_to_list_fst.
  - intros. by apply update_entry_other_at.
Qed.

(** X2. A finite advertisement for a destination that is not held down
    and whose row goes through another neighbour (or does not exist) at
    a higher cost: [update_routing_table] installs the route through
    the advertiser at cost link cost + advertised cost, VALID, with the
    timeout started and the garbage timer cleared, records the cost in
    [distance_vector], leaves the destination out of hold-down and
    answers [True]. *)
Theorem better_route_is_adopted (σ : list Link.t) (now : Z) (N : string)
    (received_vector : gmap string Cost) (r : AsyncRouter.t)
    (stats : NetworkStats.t) (link : Link.t) (D : string) (a : Z) :
  link_of σ r N = Some link →
  received_vector !! D = Some (Fin a) →
  D ≠ id r →
  hold_down_routes r !! D = None →
  match routing_table r !! D with
  | Some e => RouteEntry.next_hop e ≠ Some N
              ∧ cost_lt (Fin (Link.cost link + a)) (RouteEntry.cost e) = true
  | None => True
  end →
  let result := update_routing_table σ now N received_vector r stats in
  (∃ e', routing_table result.1.1 !! D = Some e'
         ∧ RouteEntry.cost e' = Fin (Link.cost link + a)
         ∧ RouteEntry.next_hop e' = Some N
         ∧ RouteEntry.status e' = VALID
         ∧ RouteEntry.last_update_time e' = now
         ∧ RouteEntry.timeout_time e' = now + RIPTimers.ROUTE_TIMEOUT
         ∧ RouteEntry.garbage_time e' = 0)
  ∧ distance_vector result.1.1 !! D = Some (Fin (Link.cost link + a))
  ∧ hold_down_routes result.1.1 !! D = None
  ∧ result.2 = true.
Proof.
  intros Hlink Ha Hself Hhd Hrow. simpl.
  destruct (update_routing_table_at σ now N received_vector r stats link D
              (Fin a) Hlink Ha Hself) as [Hat Hflag].
  simpl in Hat, Hflag. rewrite Hhd in Hat, Hflag.
  assert (Hentry : RouteEntry.next_hop (entry_for now (refreshed now N r) D)
                   ≠ Some N
                   ∧ cost_lt (Fin (Link.cost link + a))
                       (RouteEntry.cost (entry_for now (refreshed now N r) D))
                     = true).
  { unfold entry_for, refreshed. simpl. rewrite lookup_alter.
    destruct (routing_table r !! D) as [e|] eqn:He.
    - destruct Hrow as [Hnh Hlt]. by case_decide; subst; rewrite ?He.
    - by case_decide; subst; rewrite ?He. }
  destruct Hentry as [Hnh Hlt].
  unfold route_decision in Hat, Hflag.
  rewrite decide_False in Hat, Hflag by done.
  rewrite Hlt in Hat, Hflag. simpl in Hat, Hflag.
  injection Hat as Hrt Hdv Hhd'.
  split; [|by auto].
  eexists. split; [exact Hrt|]. done.
Qed.

Lemma better_route_is_adopted_witness :
  let r := router "A" net0 in
  let link := Link.mk "A" "B" 2 UP 0 in
  let result := update_routing_table (store net0) 10 "B" vector_B_to_A r
                  NetworkStats.fresh in
  link_of (store net0) r "B" = Some link
  ∧ vector_B_to_A !! "C" = Some (Fin 1)
  ∧ "C" ≠ id r
  ∧ hold_down_routes r !! "C" = None
  ∧ routing_table r !! "C"
    = Some (RouteEntry.mk "C" (Fin 5) (Some "C") VALID 0 0 0)
  ∧ distance_vector result.1.1 !! "C" = Some (Fin 3)
  ∧ result.2 = true.
Proof.
  intros r link result.
  assert (Hlink : link_of (store net0) r "B" = Some link)
    by (vm_compute; reflexivity).
  assert (Ha : vector_B_to_A !! "C" = Some (Fin 1))
    by (vm_compute; reflexivity).
  assert (Hself : "C" ≠ id r) by (vm_compute; discriminate).
  assert (Hhd : hold_down_routes r !! "C" = None)
    by (vm_compute; reflexivity).
  assert (He : routing_table r !! "C"
               = Some (RouteEntry.mk "C" (Fin 5) (Some "C") VALID 0 0 0))
    by (vm_compute; reflexivity).
  assert (Hrow : match routing_table r !! "C" with
                 | Some e => RouteEntry.next_hop e ≠ Some "B"
                             ∧ cost_lt (Fin (Link.cost link + 1))
                                 (RouteEntry.cost e) = true
                 | None => True
                 end).
  { rewrite He. split; [vm_compute; discriminate|reflexivity]. }
  split; [exact Hlink|]. split; [exact Ha|]. split; [exact Hself|].
  split; [exact Hhd|]. split; [exact He|].
  destruct (better_route_is_adopted (store net0) 10 "B" vector_B_to_A r
              NetworkStats.fresh link "C" 1 Hlink Ha Hself Hhd Hrow)
    as (_ & Hdv & _ & Hflag).
  split; [exact Hdv|exact Hflag].
Defined.

(** X3. An advertisement of [inf] for a destination that has a row:
    when the row goes through the advertiser and is not yet at [inf],
    the row becomes INVALID at cost [inf] with the garbage timer
    started, the destination enters hold-down for HOLD_DOWN seconds and
    the call answers [True]; in every other case the row, the vector
    item and the hold-down record are left as they are. *)
Theorem unreachable_advertisement (σ : list Link.t) (now : Z) (N : string)
    (received_vector : gmap string Cost) (r : AsyncRouter.t)
    (stats : NetworkStats.t) (link : Link.t) (D : string)
    (e : RouteEntry.t) :
  link_of σ r N = Some link →
  received_vector !! D = Some inf →
  routing_table r !! D = Some e →
  D ≠ id r →
  D ≠ N →
  let result := update_routing_table σ now N received_vector r stats in
  if bool_decide (RouteEntry.next_hop e = Some N)
     && bool_decide (RouteEntry.cost e ≠ inf)
  then at_dest D result.1.1
       = (Some (RouteEntry.mk (RouteEntry.destination e) inf (Some N) INVALID
                  now (now + RIPTimers.ROUTE_TIMEOUT)
                  (now + RIPTimers.GARBAGE_COLLECTION)),
          Some inf, Some (now + RIPTimers.HOLD_DOWN))
       ∧ result.2 = true
  else at_dest D result.1.1 = at_dest D r.
Proof.
  intros Hlink Ha He Hself HN. simpl.
  destruct (update_routing_table_at σ now N received_vector r stats link D
              inf Hlink Ha Hself) as [Hat Hflag].
  simpl in Hat, Hflag.
  assert (Hentry : entry_for now (refreshed now N r) D = e).
  { unfold entry_for, refreshed. simpl.
    by rewrite lookup_alter_ne, He by done. }
  rewrite Hentry in Hat, Hflag. unfold route_decision in Hat, Hflag.
  destruct (decide (RouteEntry.next_hop e = Some N)) as [Hnh|Hnh].
  - rewrite (bool_decide_eq_true_2 _ Hnh). simpl.
    destruct (decide (inf ≠ RouteEntry.cost e)) as [Hc|Hc].
    + rewrite bool_decide_eq_true_2 by congruence. simpl in *.
      split; [|by apply Hflag]. rewrite Hat, <- Hnh. reflexivity.
    + rewrite bool_decide_eq_false_2 by (intros ?; apply Hc; congruence).
      simpl in *. rewrite Hat. unfold at_dest. by rewrite He.
  - rewrite (bool_decide_eq_false_2 _ Hnh). simpl in *.
    rewrite Hat. unfold at_dest. by rewrite He.
Qed.

Lemma unreachable_advertisement_witness :
  let r := router "A" net10 in
  let link := Link.mk "A" "B" 2 UP 0 in
  let vector : gmap string Cost := {["D" := inf]} in
  let e := RouteEntry.mk "D" (Fin 5) (Some "B") VALID 10 100 0 in
  let result := update_routing_table (store net10) 25 "B" vector r
                  (stats net10) in
  link_of (store net10) r "B" = Some link
  ∧ vector !! "D" = Some inf
  ∧ routing_table r !! "D" = Some e
  ∧ "D" ≠ id r
  ∧ "D" ≠ "B"
  ∧ at_dest "D" result.1.1
    = (Some (RouteEntry.mk "D" inf (Some "B") INVALID 25 115 85),
       Some inf, Some 115)
  ∧ result.2 = true.
Proof.
  intros r link vector e result.
  assert (Hlink : link_of (store net10) r "B" = Some link)
    by (vm_compute; reflexivity).
  assert (Ha : vector !! "D" = Some inf) by (vm_compute; reflexivity).
  assert (He : routing_table r !! "D" = Some e) by (vm_compute; reflexivity).
  assert (Hself : "D" ≠ id r) by (vm_compute; discriminate).
  assert (HN : "D" ≠ "B") by discriminate.
  split; [exact Hlink|]. split; [exact Ha|]. split; [exact He|].
  split; [exact Hself|]. split; [exact HN|].
  exact (unreachable_advertisement (store net10) 25 "B" vector r
           (stats net10) link "D" e Hlink Ha He Hself HN).
Defined.

(** The router's own destination is passed over by the loop. *)
Lemma update_routing_table_unvisited σ now from vec r stats link D :
  link_of σ r from = Some link →
  vec !! D = None ∨ D = id r →
  at_dest D (update_routing_table σ now from vec r stats).1.1
  = at_dest D (refreshed now from r).
Proof.
  intros Hlink [Ha| ->].
  { by apply (update_routing_table_absent _ _ _ _ _ _ link). }
  unfold update_routing_table. rewrite Hlink. fold (refreshed now from r).
  apply (foldl_invariant _ (λ st, id st.1.1 = id r ∧
    at_dest (id r) st.1.1 = at_dest (id r) (refreshed now from r))); [|done].
  intros st x _ [Hid Hat]. split; [by rewrite id_update_entry|].
  rewrite update_entry_unfold. case_decide as Hx; [done|].
  rewrite <- Hat. rewrite <- Hid. rewrite Hid in Hx.
  pose proof (update_entry_other_at from (Link.cost link) now st x (id r)) as Ho.
  rewrite update_entry_unfold, decide_False in Ho by (by rewrite Hid).
  rewrite Hid. by apply Ho.
Qed.

Lemma is_Some_refreshed now from (rt : gmap string RouteEntry.t) D :
  is_Some (alter (refresh now) from rt !! D) ↔ is_Some (rt !! D).
Proof. by rewrite <- !elem_of_dom, dom_alter. Qed.

(** X1. [update_routing_table] on a vector received from a neighbour:
    the destinations with a row afterwards are the ones that had a row
    and the destinations of the vector other than the router itself; no
    row is deleted.  A destination that is not in the vector (or is the
    router itself), other than the advertiser, keeps its row, its item
    of [distance_vector] and its hold-down record. *)
Theorem update_routing_table_rows (σ : list Link.t) (now : Z) (N : string)
    (received_vector : gmap string Cost) (r : AsyncRouter.t)
    (stats : NetworkStats.t) (link : Link.t) :
  link_of σ r N = Some link →
  let r' := (update_routing_table σ now N received_vector r stats).1.1 in
  dom (routing_table r')
  = dom (routing_table r) ∪ (dom received_vector ∖ {[id r]})
  ∧ ∀ D, received_vector !! D = None ∨ D = id r →
         D ≠ N →
         at_dest D r' = at_dest D r.
Proof.
  intros Hlink. simpl. split.
  - apply set_eq. intros D.
    rewrite elem_of_union, elem_of_difference, !elem_of_dom,
      not_elem_of_singleton.
    destruct (decide (is_Some (received_vector !! D) ∧ D ≠ id r))
      as [[[a Ha] Hself]|Hno].
    + destruct (update_routing_table_at σ now N received_vector r stats
                  link D a Hlink Ha Hself) as [Hat _].
      injection Hat as -> _ _. split; [|by eexists].
      intros _. right. split; [by eexists|done].
    + assert (HD : received_vector !! D = None ∨ D = id r).
      { destruct (received_vector !! D) eqn:Ha; [|by left].
        right. destruct (decide (D = id r)); [done|].
        exfalso. apply Hno. split; [by eexists|done]. }
      pose proof (update_routing_table_unvisited σ now N received_vector r
                    stats link D Hlink HD) as Hat.
      injection Hat as Hrt _ _. simpl in Hrt. rewrite Hrt, is_Some_refreshed.
      split; [by left|]. by intros [?|?].
  - intros D HD HN.
    rewrite (update_routing_table_unvisited _ _ _ _ _ _ link) by done.
    unfold at_dest, refreshed. simpl. by rewrite lookup_alter_ne.
Qed.

Lemma update_routing_table_rows_witness :
  let r := router "A" net0 in
  let link := Link.mk "A" "B" 2 UP 0 in
  let r' := (update_routing_table (store net0) 10 "B" vector_B_to_A r
               NetworkStats.fresh).1.1 in
  link_of (store net0) r "B" = Some link
  ∧ dom (routing_table r')
    = dom (routing_table r) ∪ (dom vector_B_to_A ∖ {[id r]}).
Proof.
  intros r link r'.
  assert (Hlink : link_of (store net0) r "B" = Some link)
    by (vm_compute; reflexivity).
  split; [exact Hlink|].
  exact (proj1 (update_routing_table_rows (store net0) 10 "B" vector_B_to_A
                  r NetworkStats.fresh link Hlink)).
Defined.

(** ** Advertisements, row by row *)

Lemma get_distance_vector_absent now n r D :
  routing_table r !! D = None →
  advertised_at D
    ((get_distance_vector_for_neighbor now n r).1.1,
     (get_distance_vector_for_neighbor now n r).1.2,
     hold_down_routes (get_distance_vector_for_neighbor now n r).2)
  = (None, false, hold_down_routes r !! D).
Proof.
  intros HD. unfold get_distance_vector_for_neighbor.
  pose proof (foldl_skips (advertise_entry (id r) n now) (advertised_at D)
                (map_to_list (routing_table r)) D (∅, ∅, hold_down_routes r))
    as Hskip.
  destruct (foldl _ _ _) as [[v p] hd]. simpl. rewrite Hskip.
  - unfold advertised_at. simpl. f_equal.
  - by apply not_elem_of_map_to_list_fst.
  - intros. by apply advertise_entry_other.
Qed.

(** What the advertisement says about a destination that has a row. *)
Lemma get_distance_vector_row now n r D e :
  routing_table r !! D = Some e →
  advertised_at D
    ((get_distance_vector_for_neighbor now n r).1.1,
     (get_distance_vector_for_neighbor now n r).1.2,
     hold_down_routes (get_distance_vector_for_neighbor now n r).2)
  = match advertise_action (id r) n now D e (hold_down_routes r !! D) with
    | None => (None, false, hold_down_routes r !! D)
    | Some (c, poisoned, expired) =>
        (c, poisoned, if expired then None else hold_down_routes r !! D)
    end.
Proof.
  intros He.
  destruct (get_distance_vector_at now n r D e He) as (st & Hst & ->).
  destruct st as [[v p] hd]. unfold advertised_at in Hst. simpl in Hst.
  injection Hst as Hv Hp Hhd.
  rewrite advertise_entry_unfold. simpl. rewrite Hhd.
  destruct (advertise_action _ _ _ _ _ _) as [[[c poisoned] expired]|]; simpl.
  - unfold advertised_at. simpl. f_equal; [f_equal|].
    + destruct c; [by rewrite lookup_insert_eq|done].
    + destruct poisoned; [|done].
      apply bool_decide_eq_true. apply elem_of_union. left.
      by apply elem_of_singleton.
    + destruct expired; [by rewrite lookup_delete_eq|done].
  - unfold advertised_at. simpl. by rewrite Hv, Hp, Hhd.
Qed.

(** The destinations poisoned in an advertisement. *)
Lemma poison_routes_spec now N r D :
  D ∈ (get_distance_vector_for_neighbor now N r).1.2
  ↔ ∃ e, routing_table r !! D = Some e
         ∧ RouteEntry.status e ≠ GARBAGE
         ∧ RouteEntry.next_hop e = Some N ∧ D ≠ id r.
Proof.
  rewrite <- (bool_decide_eq_true (D ∈ _)).
  destruct (routing_table r !! D) as [e|] eqn:He.
  - pose proof (get_distance_vector_row now N r D e He) as Hrow.
    unfold advertised_at in Hrow. simpl in Hrow.
    unfold advertise_action in Hrow.
    destruct (decide (RouteEntry.status e = GARBAGE)) as [Hg|Hg].
    { injection Hrow as _ -> _. split; [done|].
      by intros (e' & [= <-] & ? & _). }
    assert (Hp : bool_decide (D ∈ (get_distance_vector_for_neighbor
                                     now N r).1.2)
                 = bool_decide (RouteEntry.next_hop e = Some N)
                   && bool_decide (D ≠ id r)).
    { destruct (hold_down_routes r !! D) as [t|];
        [destruct (bool_decide (now < t))|]; by injection Hrow. }
    rewrite Hp, andb_true_iff, !bool_decide_eq_true. split.
    + intros [? ?]. by exists e.
    + by intros (e' & [= <-] & _ & ? & ?).
  - pose proof (get_distance_vector_absent now N r D He) as Hrow.
    unfold advertised_at in Hrow. simpl in Hrow.
    injection Hrow as _ -> _. split; [done|]. by intros (e & ? & _).
Qed.

(** X5. The advertisement built for neighbour [N].  A destination without
    a row is neither advertised nor poisoned.  A destination is in the
    poison set exactly when its row is not GARBAGE, goes through [N] and
    is not the router itself.  A row that is not GARBAGE and not
    poisoned is advertised at its own cost, unless the destination has
    a hold-down record that has not expired, in which case it is left
    out. *)
Theorem split_horizon_advertisement (now : Z) (N : string)
    (r : AsyncRouter.t) (D : string) :
  let vector := (get_distance_vector_for_neighbor now N r).1.1 in
  let poison_routes := (get_distance_vector_for_neighbor now N r).1.2 in
  match routing_table r !! D with
  | None => vector !! D = None ∧ D ∉ poison_routes
  | Some e =>
      (D ∈ poison_routes
       ↔ RouteEntry.status e ≠ GARBAGE
         ∧ RouteEntry.next_hop e = Some N ∧ D ≠ id r)
      ∧ (RouteEntry.status e ≠ GARBAGE →
         RouteEntry.next_hop e ≠ Some N ∨ D = id r →
         vector !! D =
           match hold_down_routes r !! D with
           | Some expiry =>
               if bool_decide (now < expiry) then None
               else Some (RouteEntry.cost e)
           | None => Some (RouteEntry.cost e)
           end)
  end.
Proof.
  simpl. destruct (routing_table r !! D) as [e|] eqn:He.
  - pose proof (get_distance_vector_row now N r D e He) as Hrow.
    unfold advertised_at in Hrow. simpl in Hrow.
    unfold advertise_action in Hrow.
    destruct (decide (RouteEntry.status e = GARBAGE)) as [Hg|Hg].
    { injection Hrow as Hv Hp _. apply bool_decide_eq_false in Hp.
      split; [|done]. split; [done|]. by intros [? _]. }
    set (poisoned := bool_decide (RouteEntry.next_hop e = Some N)
                     && bool_decide (D ≠ id r)) in *.
    assert (Hpoison : bool_decide (D ∈ (get_distance_vector_for_neighbor
                                          now N r).1.2) = poisoned).
    { destruct (hold_down_routes r !! D) as [t|];
        [destruct (bool_decide (now < t))|]; by injection Hrow. }
    split.
    + rewrite <- (bool_decide_eq_true (D ∈ _)), Hpoison. unfold poisoned.
      rewrite andb_true_iff, !bool_decide_eq_true. tauto.
    + intros _ Hnot.
      assert (Hfalse : poisoned = false).
      { unfold poisoned. destruct Hnot as [Hnh| ->].
        - by rewrite (bool_decide_eq_false_2 _ Hnh).
        - rewrite (bool_decide_eq_false_2 (id r ≠ id r)) by (by intros []).
          apply andb_false_r. }
      rewrite Hfalse in Hrow.
      destruct (hold_down_routes r !! D) as [t|];
        [destruct (bool_decide (now < t))|]; by injection Hrow.
  - pose proof (get_distance_vector_absent now N r D He) as Hrow.
    unfold advertised_at in Hrow. simpl in Hrow.
    injection Hrow as Hv Hp _. by apply bool_decide_eq_false in Hp.
Qed.

(** X6. Building an advertisement is what clears hold-down records: the
    table is left alone, a destination with a row that is not GARBAGE is
    in the vector exactly when no hold-down record is left for it, and
    a record that is left is the old one and has not expired. *)
Theorem hold_down_records_after_advertisement (now : Z) (N : string)
    (r : AsyncRouter.t) (D : string) (e : RouteEntry.t) :
  routing_table r !! D = Some e →
  RouteEntry.status e ≠ GARBAGE →
  let vector := (get_distance_vector_for_neighbor now N r).1.1 in
  let r' := (get_distance_vector_for_neighbor now N r).2 in
  routing_table r' = routing_table r
  ∧ (is_Some (vector !! D) ↔ hold_down_routes r' !! D = None)
  ∧ (∀ expiry, hold_down_routes r' !! D = Some expiry →
               hold_down_routes r !! D = Some expiry ∧ now < expiry).
Proof.
  intros He Hg. simpl.
  pose proof (get_distance_vector_row now N r D e He) as Hrow.
  unfold advertised_at in Hrow. simpl in Hrow.
  unfold advertise_action in Hrow. rewrite decide_False in Hrow by done.
  split.
  { unfold get_distance_vector_for_neighbor.
    by destruct (foldl _ _ _) as [[v p] hd]. }
  destruct (hold_down_routes r !! D) as [t|] eqn:Hhd.
  - destruct (bool_decide (now < t)) eqn:Ht; injection Hrow as -> _ ->.
    + apply bool_decide_eq_true in Ht. split.
      * split; [by intros [? ?]|done].
      * by intros ? [= <-].
    + split; [by split; [|eexists]|done].
  - injection Hrow as -> _ ->. split; [by split; [|eexists]|done].
Qed.

Lemma hold_down_records_after_advertisement_witness :
  let r := router "A" net30 in
  let e := RouteEntry.mk "D" inf (Some "B") INVALID 10 100 90 in
  let adv := get_distance_vector_for_neighbor 95 "C" r in
  routing_table r !! "D" = Some e
  ∧ RouteEntry.status e ≠ GARBAGE
  ∧ routing_table adv.2 = routing_table r
  ∧ (is_Some (adv.1.1 !! "D") ↔ hold_down_routes adv.2 !! "D" = None)
  ∧ ∀ expiry, hold_down_routes adv.2 !! "D" = Some expiry →
              hold_down_routes r !! "D" = Some expiry ∧ 95 < expiry.
Proof.
  intros r e adv.
  assert (He : routing_table r !! "D" = Some e) by (vm_compute; reflexivity).
  assert (Hg : RouteEntry.status e ≠ GARBAGE) by discriminate.
  split; [exact He|]. split; [exact Hg|].
  exact (hold_down_records_after_advertisement 95 "C" r "D" e He Hg).
Defined.

(** ** The statistics kept by [update_routing_table] *)

Lemma update_loop_stats from nc now l r0 stats :
  let res := foldl (update_entry from nc now) (r0, stats, false) l in
  (res.2 = false ∧ res.1.2 = stats)
  ∨ (res.2 = true ∧ ∃ k, 0 < k ∧ res.1.2 = after_route_changes now k stats).
Proof.
  simpl.
  apply (foldl_invariant (update_entry from nc now)
    (λ res, (res.2 = false ∧ res.1.2 = stats)
            ∨ (res.2 = true
               ∧ ∃ k, 0 < k ∧ res.1.2 = after_route_changes now k stats)));
    [|by left].
  intros [[r s] u] x _ Hres. rewrite update_entry_unfold.
  case_decide; [done|]. unfold apply_decision.
  destruct (route_decision _ _ _ _ _) as [[e' hd'] [|]]; simpl in *; [|done].
  right. split; [done|].
  destruct Hres as [[_ ->]|[_ (k & Hk & ->)]].
  - exists 1. split; [lia|]. by destruct stats.
  - exists (k + 1). split; [lia|]. unfold after_route_changes,
      NetworkStats.route_changed. simpl. f_equal. lia.
Qed.

Lemma update_loop_counts from nc now l r0 stats :
  let res := foldl (update_entry from nc now) (r0, stats, false) l in
  ∃ k, 0 ≤ k ∧ k ≤ Z.of_nat (length l)
       ∧ res.2 = bool_decide (0 < k)
       ∧ res.1.2 = if bool_decide (0 < k)
                   then after_route_changes now k stats else stats.
Proof.
  simpl. induction l as [|x l IH] using rev_ind.
  - exists 0. simpl. split; [lia|]. split; [lia|done].
  - rewrite foldl_app, length_app. simpl.
    destruct IH as (k & Hk0 & Hk & Hu & Hs).
    destruct (foldl _ _ l) as [[r s] u]. simpl in Hu, Hs.
    rewrite update_entry_unfold. cbn [fst snd].
    destruct (decide (x.1 = id r)) as [Hself|Hself].
    { exists k. split; [lia|]. split; [lia|]. by split. }
    unfold apply_decision.
    destruct (route_decision _ _ _ _ _) as [[e' hd'] [|]]; cbn [fst snd].
    + exists (k + 1). split; [lia|]. split; [lia|].
      rewrite (bool_decide_eq_true_2 (0 < k + 1)) by lia.
      split; [done|]. rewrite Hs. case_bool_decide.
      * unfold after_route_changes, NetworkStats.route_changed. simpl.
        f_equal. lia.
      * assert (k = 0) as -> by lia. by destruct stats.
    + exists k. split; [lia|]. split; [lia|]. by split.
Qed.


(** ** One advertisement *)

(** X7. One advertisement to a neighbour whose link is operational.  The
    hold-down cleaning of the vector construction is kept whether or not
    the packet is dropped.  A dropped packet gives no message and leaves
    the statistics alone.  Otherwise the message goes from the router to
    the neighbour with the vector and the poison set just built; its
    type is never TRIGGERED, and is POISON_REVERSE exactly when some row
    that is not GARBAGE goes through the neighbour; the message counter
    grows by one and the poison-reverse counter by one exactly for a
    POISON_REVERSE message. *)
Theorem advertise_to_sends (σ : list Link.t) (now : Z) (dropped : bool)
    (N : string) (r : AsyncRouter.t) (stats : NetworkStats.t)
    (link : Link.t) :
  link_of σ r N = Some link →
  Link.is_operational link = true →
  let res := advertise_to σ now dropped N r stats in
  let adv := get_distance_vector_for_neighbor now N r in
  res.1.2 = adv.2
  ∧ if dropped then res.1.1 = None ∧ res.2 = stats
    else ∃ m, res.1.1 = Some m
         ∧ Message.source m = id r ∧ Message.destination m = N
         ∧ Message.distance_vector m = adv.1.1
         ∧ Message.poison_reverse_routes m = adv.1.2
         ∧ Message.message_type m ≠ TRIGGERED
         ∧ (Message.message_type m = POISON_REVERSE
            ↔ ∃ D e, routing_table r !! D = Some e
                     ∧ RouteEntry.status e ≠ GARBAGE
                     ∧ RouteEntry.next_hop e = Some N ∧ D ≠ id r)
         ∧ res.2 = NetworkStats.message_sent
                     (bool_decide (Message.message_type m = POISON_REVERSE))
                     stats.
Proof.
  intros Hlink Hop. simpl. unfold advertise_to. rewrite Hlink, Hop.
  assert (Hid : id (get_distance_vector_for_neighbor now N r).2 = id r).
  { unfold get_distance_vector_for_neighbor.
    by destruct (foldl _ _ _) as [[v p] hd]. }
  assert (Hnb : link_of σ (get_distance_vector_for_neighbor now N r).2 N
                = Some link).
  { unfold get_distance_vector_for_neighbor.
    by destruct (foldl _ _ _) as [[v p] hd]. }
  pose proof (poison_routes_spec now N r) as Hpoison.
  destruct (get_distance_vector_for_neighbor now N r) as [[dv p] r'] eqn:Hadv.
  simpl in *. unfold send_message. rewrite Hnb, Hop. simpl.
  destruct dropped; simpl; [done|]. split; [done|].
  eexists. split; [done|]. simpl. rewrite Hid.
  do 4 (split; [done|]).
  assert (Hp : p ≠ ∅ ↔ ∃ D e, routing_table r !! D = Some e
                     ∧ RouteEntry.status e ≠ GARBAGE
                     ∧ RouteEntry.next_hop e = Some N ∧ D ≠ id r).
  { split.
    - intros Hne. apply set_choose_L in Hne as [D HD].
      apply Hpoison in HD as (e & ?). by exists D, e.
    - intros (D & e & Hrow) Hempty.
      assert (HD : D ∈ p) by (apply Hpoison; by exists e).
      rewrite Hempty in HD. by apply not_elem_of_empty in HD. }
  rewrite <- Hp. case_bool_decide; simpl.
  - split; [done|]. by split.
  - split; [done|]. split; [by split|done].
Qed.

Lemma advertise_to_sends_witness :
  let r := router "A" net10 in
  let link := Link.mk "A" "B" 2 UP 0 in
  let res := advertise_to (store net10) 15 false "B" r (stats net10) in
  link_of (store net10) r "B" = Some link
  ∧ Link.is_operational link = true
  ∧ ∃ m, res.1.1 = Some m
         ∧ Message.source m = "A" ∧ Message.destination m = "B"
         ∧ Message.message_type m = POISON_REVERSE
         ∧ NetworkStats.total_messages res.2
           = NetworkStats.total_messages (stats net10) + 1.
Proof.
  intros r link res.
  assert (Hlink : link_of (store net10) r "B" = Some link)
    by (vm_compute; reflexivity).
  assert (Hop : Link.is_operational link = true) by reflexivity.
  split; [exact Hlink|]. split; [exact Hop|].
  destruct (advertise_to_sends (store net10) 15 false "B" r (stats net10)
              link Hlink Hop)
    as (_ & m & Hm & Hsrc & Hdst & _ & _ & _ & Hty & Hstats).
  exists m. split; [exact Hm|]. split; [exact Hsrc|]. split; [exact Hdst|].
  assert (Hpoison : Message.message_type m = POISON_REVERSE).
  { apply Hty. exists "D", (RouteEntry.mk "D" (Fin 5) (Some "B") VALID 10 100 0).
    split; [vm_compute; reflexivity|]. split; [discriminate|].
    split; [reflexivity|vm_compute; discriminate]. }
  split; [exact Hpoison|].
  fold res in Hstats. rewrite Hstats. reflexivity.
Defined.

(** ** The statistics *)

(** A step either leaves the statistics alone, or records a change of the
    tables, or counts a message, or flags convergence, or flips the
    switch of the periodic updates, or starts afresh. *)
Lemma stats_step_cases s s' :
  stats_step s s' →
  s' = s
  ∨ (∃ now k, 0 ≤ k ∧ s' = after_route_changes now k s)
  ∨ (∃ poisoned, s' = NetworkStats.message_sent poisoned s)
  ∨ (∃ now, NetworkStats.convergence_state s = CONVERGING
            ∧ RIPTimers.CONVERGENCE_TIMEOUT
              < now - NetworkStats.last_route_change_time s
            ∧ s' = NetworkStats.converged now s)
  ∨ (∃ b, s' = NetworkStats.set_periodic_updates_enabled b s)
  ∨ s' = NetworkStats.fresh.
Proof.
  intros Hstep.
  assert (Htables : ∀ now, NetworkStats.tables_changed now s
                           = after_route_changes now 0 s).
  { intros now. unfold NetworkStats.tables_changed, after_route_changes.
    f_equal. lia. }
  destruct Hstep as [σ now message r s | now r s | now n r s | now n c r s
                    | σ now dropped n dv p r s | now s | net | now net].
  - unfold process_message.
    destruct (link_of σ r (Message.source message)) as [link|] eqn:Hlink;
      [|by left].
    destruct (Link.is_operational link); [|by left].
    unfold update_routing_table.
    destruct (link_of σ r (Message.source message)) as [link'|]; [|by left].
    destruct (update_loop_counts (Message.source message) (Link.cost link')
                now (map_to_list (Message.distance_vector message))
                (set_routing_table
                   (alter (refresh now) (Message.source message)
                      (routing_table r)) r) s) as (k & Hk & _ & _ & ->).
    case_bool_decide; [|by left]. right; left. by exists now, k.
  - unfold check_timeouts. destruct (foldl _ _ _) as [r' [|]]; [|by left].
    right; left. exists now, 0. by rewrite Htables.
  - unfold handle_link_failure. destruct (neighbors r !! n); [|by left].
    destruct (foldl _ _ _) as [r' [|]]; [|by left].
    right; left. exists now, 0. by rewrite Htables.
  - unfold handle_link_recovery. destruct (neighbors r !! n); [|by left].
    destruct (routing_table r !! n); [|by left].
    right; left. exists now, 0. by rewrite Htables.
  - unfold send_message. destruct (link_of σ r n) as [link|]; [|by left].
    destruct (Link.is_operational link); [|by left].
    destruct dropped; [by left|]. simpl. right; right; left. by eexists.
  - unfold AsyncNetwork.convergence_monitor.
    destruct (bool_decide (NetworkStats.convergence_state s = CONVERGING)
              && _) eqn:Hc; [|by left].
    apply andb_true_iff in Hc as [H1 H2].
    apply bool_decide_eq_true in H1, H2.
    do 3 right; left. by exists now.
  - do 4 right; left. by eexists.
  - do 5 right. done.
Qed.

(** X17. The statistics, from [NetworkStats()] through any sequence of
    the operations that write them: whenever the state is CONVERGED,
    the detection time is more than CONVERGENCE_TIMEOUT seconds after
    the last recorded route change; the state is never DIVERGING; the
    counters are not negative and the poison-reverse messages are never
    more than the messages. *)
Theorem stats_invariant (s : NetworkStats.t) :
  rtc stats_step NetworkStats.fresh s →
  (NetworkStats.convergence_state s = CONVERGED →
   RIPTimers.CONVERGENCE_TIMEOUT
   < NetworkStats.convergence_detected_at s
     - NetworkStats.last_route_change_time s)
  ∧ NetworkStats.convergence_state s ≠ DIVERGING
  ∧ 0 ≤ NetworkStats.total_route_changes s
  ∧ 0 ≤ NetworkStats.poison_reverse_messages s
  ∧ NetworkStats.poison_reverse_messages s ≤ NetworkStats.total_messages s.
Proof.
  intros Hrun. change (stats_ok s).
  assert (Hfresh : stats_ok NetworkStats.fresh).
  { unfold stats_ok. simpl. repeat split; done || lia. }
  revert s Hrun.
  apply (rtc_ind_r (R := stats_step) stats_ok); [done|].
  intros s s' _ Hstep (Hconv & Hdiv & Hch & Hp0 & Hp).
  apply stats_step_cases in Hstep
    as [->|[(now & k & Hk & ->)|[(b & ->)|[(now & Hc & Hgap & ->)
        |[(b & ->)| ->]]]]]; try done;
    unfold stats_ok; simpl; try destruct b; repeat split; done || lia.
Qed.

Lemma stats_invariant_witness :
  let s1 := (process_message (store net0) 10 (message_B_to_A 10)
               (router "A" net0) NetworkStats.fresh).1.2 in
  let s2 := (send_message (store net0) 15 false "B" vector_B_to_A {["D"]}
               (router "A" net10) s1).2 in
  let s3 := convergence_monitor 60 s2 in
  rtc stats_step NetworkStats.fresh s3
  ∧ NetworkStats.convergence_state s3 = CONVERGED
  ∧ RIPTimers.CONVERGENCE_TIMEOUT
    < NetworkStats.convergence_detected_at s3
      - NetworkStats.last_route_change_time s3
  ∧ NetworkStats.poison_reverse_messages s3 ≤ NetworkStats.total_messages s3.
Proof.
  intros s1 s2 s3.
  assert (Hrun : rtc stats_step NetworkStats.fresh s3).
  { apply (rtc_l _ _ s1); [apply stats_process_message|].
    apply (rtc_l _ _ s2); [apply stats_send_message|].
    apply rtc_once, stats_convergence_monitor. }
  assert (Hc : NetworkStats.convergence_state s3 = CONVERGED)
    by (vm_compute; reflexivity).
  split; [exact Hrun|]. split; [exact Hc|].
  destruct (stats_invariant s3 Hrun) as (Hgap & _ & _ & _ & Hp).
  split; [exact (Hgap Hc)|exact Hp].
Defined.


(** ** Rows are never deleted, and stay coherent *)

Lemma keeps_rows_refl r : keeps_rows r r.
Proof. by split. Qed.

Lemma keeps_rows_trans r1 r2 r3 :
  keeps_rows r1 r2 → keeps_rows r2 r3 → keeps_rows r1 r3.
Proof. intros [H1 D1] [H2 D2]. split; [auto|by etrans]. Qed.

Lemma keeps_rows_insert r r' D e :
  routing_table r' = <[D := e]> (routing_table r) →
  (map_Forall (λ _ e, row_coherent e) (routing_table r) → row_coherent e) →
  keeps_rows r r'.
Proof.
  intros Hrt He. unfold keeps_rows. rewrite Hrt. split.
  - intros Hall. apply map_Forall_insert_2; [by apply He|done].
  - rewrite dom_insert. apply union_subseteq_r.
Qed.

(** A loop over a snapshot of the items of the table. *)
Lemma keeps_rows_items {X} (f : AsyncRouter.t * X → string * RouteEntry.t
                              → AsyncRouter.t * X) r (u : X) :
  (∀ st D e, row_coherent e → keeps_rows st.1 (f st (D, e)).1) →
  (∀ st D e, dom (routing_table st.1)
             ⊆ dom (routing_table (f st (D, e)).1)) →
  keeps_rows r (foldl f (r, u) (map_to_list (routing_table r))).1.
Proof.
  intros Hf Hdom. split.
  - intros Hall.
    apply (foldl_invariant f (λ st', map_Forall (λ _ e, row_coherent e)
                                       (routing_table st'.1))); [|done].
    intros st' [D e] Hx Hst'. apply elem_of_map_to_list in Hx.
    apply (Hf st' D e); [by apply (Hall D e)|done].
  - apply (foldl_invariant f (λ st', dom (routing_table r)
                                     ⊆ dom (routing_table st'.1))); [|done].
    intros st' [D e] _ Hst'. etrans; [exact Hst'|apply Hdom].
Qed.

Lemma route_decision_coherent from nc now entry held :
  row_coherent entry →
  row_coherent (route_decision from nc now entry held).1.1.
Proof.
  intros He. unfold route_decision.
  destruct (decide (RouteEntry.next_hop entry = Some from)) as [Hnh|Hnh].
  - destruct (decide (nc ≠ RouteEntry.cost entry)); [|done].
    destruct (decide (nc = inf)); [done|].
    unfold row_coherent. simpl. split; [done|]. rewrite Hnh. by eexists.
  - destruct (cost_lt nc (RouteEntry.cost entry) && bool_decide (nc ≠ inf))
      eqn:Hc; [|done].
    destruct held; [done|].
    apply andb_true_iff in Hc as [_ Hc%bool_decide_eq_true].
    unfold row_coherent. simpl. split; [done|by eexists].
Qed.

Lemma entry_for_coherent now r D :
  map_Forall (λ _ e, row_coherent e) (routing_table r) →
  row_coherent (entry_for now r D).
Proof.
  intros Hall. unfold entry_for.
  destruct (routing_table r !! D) as [e|] eqn:He; [|done].
  by apply (Hall D e).
Qed.

Lemma update_entry_keeps from nc now st x :
  keeps_rows st.1.1 (update_entry from nc now st x).1.1.
Proof.
  rewrite update_entry_unfold. case_decide; [apply keeps_rows_refl|].
  eapply keeps_rows_insert; [done|].
  intros Hall. by apply route_decision_coherent, entry_for_coherent.
Qed.

Lemma update_routing_table_keeps σ now from vec r stats :
  keeps_rows r (update_routing_table σ now from vec r stats).1.1.
Proof.
  unfold update_routing_table.
  destruct (link_of σ r from); [|apply keeps_rows_refl].
  eapply keeps_rows_trans; last first.
  - apply (foldl_invariant _ (λ st', keeps_rows
             (set_routing_table (alter (refresh now) from (routing_table r)) r)
             st'.1.1)); [|apply keeps_rows_refl].
    intros st' x _ Hst'. eapply keeps_rows_trans; [exact Hst'|].
    apply update_entry_keeps.
  - split; simpl.
    + intros Hall D e. rewrite lookup_alter.
      case_decide; [subst|by apply Hall].
      destruct (routing_table r !! D) as [e0|] eqn:He0; [|done].
      simpl. intros [= <-]. by apply (Hall D e0).
    + by rewrite dom_alter.
Qed.

Lemma process_message_keeps σ now m r stats :
  keeps_rows r (process_message σ now m r stats).1.1.
Proof.
  unfold process_message.
  destruct (link_of σ r _) as [link|]; [|apply keeps_rows_refl].
  destruct (Link.is_operational link); [|apply keeps_rows_refl].
  apply update_routing_table_keeps.
Qed.

Lemma sweep_action_coherent now e e' b :
  row_coherent e → sweep_action now e = Some (e', b) → row_coherent e'.
Proof.
  unfold sweep_action. intros He.
  destruct (bool_decide (RouteEntry.status e = VALID) && _ && _).
  { by intros [= <- _]. }
  destruct (bool_decide (RouteEntry.status e = INVALID) && _ && _) eqn:Hc;
    [|done].
  intros [= <- _].
  apply andb_true_iff in Hc as [[Hs%bool_decide_eq_true _]%andb_true_iff _].
  unfold row_coherent in *. simpl. by rewrite Hs in He.
Qed.

Lemma check_timeouts_keeps now r stats :
  keeps_rows r (check_timeouts now r stats).1.1.
Proof.
  unfold check_timeouts.
  assert (Hfold : keeps_rows r
            (foldl (sweep_entry now) (r, false)
               (map_to_list (routing_table r))).1).
  { apply (keeps_rows_items (sweep_entry now)).
    - intros st D e He. rewrite sweep_entry_unfold. simpl.
      case_decide; [apply keeps_rows_refl|].
      destruct (sweep_action now e) as [[e' b]|] eqn:Ha;
        [|apply keeps_rows_refl].
      eapply keeps_rows_insert; [done|]. intros _.
      by apply (sweep_action_coherent now e e' b).
    - intros st D e. rewrite sweep_entry_unfold. simpl.
      case_decide; [done|].
      destruct (sweep_action now e) as [[e' b]|]; [|done]. simpl.
      rewrite dom_insert. apply union_subseteq_r. }
  destruct (foldl _ _ _) as [r' [|]]; done.
Qed.

Lemma handle_link_failure_keeps now n r stats :
  keeps_rows r (handle_link_failure now n r stats).1.1.
Proof.
  unfold handle_link_failure.
  destruct (neighbors r !! n); [|apply keeps_rows_refl].
  assert (Hfold : keeps_rows r
            (foldl (fail_entry n now) (r, false)
               (map_to_list (routing_table r))).1).
  { apply (keeps_rows_items (fail_entry n now)).
    - intros st D e He. rewrite fail_entry_unfold. simpl.
      destruct (_ && _); [|apply keeps_rows_refl].
      eapply keeps_rows_insert; [done|]. done.
    - intros st D e. rewrite fail_entry_unfold. simpl.
      destruct (_ && _); [|done]. simpl.
      rewrite dom_insert. apply union_subseteq_r. }
  destruct (foldl _ _ _) as [r' [|]]; done.
Qed.

Lemma handle_link_recovery_keeps now n c r stats :
  keeps_rows r (handle_link_recovery now n c r stats).1.1.
Proof.
  unfold handle_link_recovery.
  destruct (neighbors r !! n); [|apply keeps_rows_refl].
  destruct (routing_table r !! n); [|apply keeps_rows_refl].
  eapply keeps_rows_insert; [done|]. intros _.
  unfold row_coherent. simpl. split; [done|by eexists].
Qed.

Lemma get_distance_vector_keeps now n r :
  keeps_rows r (get_distance_vector_for_neighbor now n r).2.
Proof.
  unfold get_distance_vector_for_neighbor.
  destruct (foldl _ _ _) as [[v p] hd]. by split.
Qed.

Lemma initialize_routing_table_keeps σ now all r :
  keeps_rows r (initialize_routing_table σ now all r).
Proof.
  unfold initialize_routing_table.
  eapply keeps_rows_trans.
  - apply (foldl_invariant (init_entry now) (λ r', keeps_rows r r'));
      [|apply keeps_rows_refl].
    intros r' D _ Hr'. eapply keeps_rows_trans; [exact Hr'|].
    eapply keeps_rows_insert; [done|]. intros _.
    unfold row_coherent. case_decide; simpl; [|done]. split; [done|by eexists].
  - apply (foldl_invariant (init_neighbor σ now)
             (λ r', keeps_rows (foldl (init_entry now) r all) r'));
      [|apply keeps_rows_refl].
    intros r' x _ Hr'. eapply keeps_rows_trans; [exact Hr'|].
    rewrite init_neighbor_unfold.
    destruct (init_action σ now x.1 x.2 (routing_table r' !! x.1))
      as [[e c]|] eqn:Ha; [|apply keeps_rows_refl].
    eapply keeps_rows_insert; [done|]. intros _.
    unfold init_action in Ha.
    destruct (σ !! x.2) as [link|]; [|done].
    destruct (routing_table r' !! x.1); [|done].
    destruct (Link.is_operational link); [|done].
    injection Ha as <- _. unfold row_coherent. simpl.
    split; [done|by eexists].
Qed.

Lemma router_step_keeps r r' : router_step r r' → keeps_rows r r'.
Proof.
  intros []; auto using initialize_routing_table_keeps, process_message_keeps,
    check_timeouts_keeps, handle_link_failure_keeps,
    handle_link_recovery_keeps, get_distance_vector_keeps.
Qed.

Lemma router_run_keeps r r' : rtc router_step r r' → keeps_rows r r'.
Proof.
  induction 1 as [|r1 r2 r3 Hstep _ IH]; [apply keeps_rows_refl|].
  eapply keeps_rows_trans; [by apply router_step_keeps|done].
Qed.

(** X14. No operation of a router deletes a row: along every run, the
    destinations of the table only grow. *)
Theorem rows_are_never_deleted (r r' : AsyncRouter.t) :
  rtc router_step r r' →
  dom (routing_table r) ⊆ dom (routing_table r').
Proof. intros Hrun. by destruct (router_run_keeps r r' Hrun). Qed.

(** X15. Status and cost of a row agree along every run: a VALID row has
    a finite cost and a next hop, an INVALID or GARBAGE row has cost
    [inf]. *)
Theorem rows_stay_coherent (r r' : AsyncRouter.t) :
  map_Forall (λ _ e, row_coherent e) (routing_table r) →
  rtc router_step r r' →
  map_Forall (λ _ e, row_coherent e) (routing_table r').
Proof. intros Hall Hrun. destruct (router_run_keeps r r' Hrun). auto. Qed.

(** ** The distance vector mirrors the table *)

Lemma mirrors_write (r r' : AsyncRouter.t) D e c :
  vector_mirrors_table r →
  routing_table r' = <[D := e]> (routing_table r) →
  distance_vector r' = <[D := c]> (distance_vector r) →
  RouteEntry.cost e = c →
  vector_mirrors_table r'.
Proof.
  intros Hr Hrt Hdv Hc D'. rewrite Hrt, Hdv.
  destruct (decide (D = D')) as [->|Hne].
  - by rewrite !lookup_insert_eq.
  - rewrite !lookup_insert_ne by done. apply Hr.
Qed.

Lemma rows_stay_coherent_witness :
  let r := router "A" loaded in
  let r1 := initialize_routing_table (store loaded) 0 ["A"; "B"; "C"; "D"] r in
  let r2 := (process_message (store loaded) 10 (message_B_to_A 10) r1
               NetworkStats.fresh).1.1 in
  let r3 := (handle_link_failure 30 "B" r2 NetworkStats.fresh).1.1 in
  let r4 := (handle_link_recovery 50 "B" 2 r3 NetworkStats.fresh).1.1 in
  map_Forall (λ _ e, row_coherent e) (routing_table r)
  ∧ rtc router_step r r4
  ∧ map_Forall (λ _ e, row_coherent e) (routing_table r4).
Proof.
  intros r r1 r2 r3 r4.
  assert (Hall : map_Forall (λ _ e, row_coherent e) (routing_table r)).
  { assert (routing_table r = ∅) as -> by (vm_compute; reflexivity).
    apply map_Forall_empty. }
  assert (Hrun : rtc router_step r r4).
  { apply (rtc_l _ _ r1).
    { apply step_initialize. vm_compute. left. }
    apply (rtc_l _ _ r2); [apply step_process_message|].
    apply (rtc_l _ _ r3); [apply step_link_failure|].
    apply rtc_once, step_link_recovery. }
  split; [exact Hall|]. split; [exact Hrun|].
  exact (rows_stay_coherent r r4 Hall Hrun).
Defined.

Lemma rows_are_never_deleted_witness :
  let r := router "A" net0 in
  let r1 := (process_message (store net0) 10 (message_B_to_A 10) r
               NetworkStats.fresh).1.1 in
  let r2 := (check_timeouts 101 r1 NetworkStats.fresh).1.1 in
  let r3 := (check_timeouts 162 r2 NetworkStats.fresh).1.1 in
  rtc router_step r r3
  ∧ dom (routing_table r) ⊆ dom (routing_table r3).
Proof.
  intros r r1 r2 r3.
  assert (Hrun : rtc router_step r r3).
  { apply (rtc_l _ _ r1); [apply step_process_message|].
    apply (rtc_l _ _ r2); [apply step_check_timeouts|].
    apply rtc_once, step_check_timeouts. }
  split; [exact Hrun|].
  exact (rows_are_never_deleted r r3 Hrun).
Defined.

Lemma mirrors_row (r r' : AsyncRouter.t) D e :
  vector_mirrors_table r →
  routing_table r' = <[D := e]> (routing_table r) →
  distance_vector r' = distance_vector r →
  match distance_vector r !! D with
  | Some c => RouteEntry.cost e = c
  | None => RouteEntry.cost e = inf
  end →
  vector_mirrors_table r'.
Proof.
  intros Hr Hrt Hdv He D'. rewrite Hrt, Hdv.
  destruct (decide (D = D')) as [->|Hne].
  - by rewrite lookup_insert_eq.
  - rewrite lookup_insert_ne by done. apply Hr.
Qed.

Lemma route_decision_unchanged from nc now entry held :
  (route_decision from nc now entry held).2 = false →
  (route_decision from nc now entry held).1.1 = entry.
Proof. unfold route_decision. by repeat (case_decide || case_match). Qed.

Lemma update_entry_mirrors from nc now st x :
  vector_mirrors_table st.1.1 →
  vector_mirrors_table (update_entry from nc now st x).1.1.
Proof.
  intros Hst. rewrite update_entry_unfold. case_decide; [done|].
  unfold apply_decision.
  destruct (route_decision _ _ _ _ _) as [[e' hd'] changed] eqn:Hdec.
  cbn [fst snd]. destruct changed.
  - by eapply (mirrors_write st.1.1).
  - eapply (mirrors_row st.1.1); [done..|].
    pose proof (route_decision_unchanged from (new_cost nc x.2) now
                  (entry_for now st.1.1 x.1)
                  (hold_down_routes st.1.1 !! x.1)) as Hsame.
    rewrite Hdec in Hsame. simpl in Hsame. rewrite Hsame by done.
    unfold entry_for. specialize (Hst x.1).
    destruct (routing_table st.1.1 !! x.1) as [e|]; [done|].
    by destruct (distance_vector st.1.1 !! x.1).
Qed.

Lemma update_routing_table_mirrors σ now from vec r stats :
  vector_mirrors_table r →
  vector_mirrors_table (update_routing_table σ now from vec r stats).1.1.
Proof.
  intros Hr. unfold update_routing_table.
  destruct (link_of σ r from); [|done].
  apply (foldl_invariant _ (λ st, vector_mirrors_table st.1.1)).
  - intros st x _. apply update_entry_mirrors.
  - intros D. simpl. rewrite lookup_alter. specialize (Hr D).
    case_decide; [subst|done].
    by destruct (routing_table r !! D).
Qed.

Lemma check_timeouts_untouched now r stats D :
  routing_table r !! D = None ∨ D = id r →
  at_dest D (check_timeouts now r stats).1.1 = at_dest D r.
Proof.
  intros HD. unfold check_timeouts.
  assert (Hfold : at_dest D (foldl (sweep_entry now) (r, false)
                    (map_to_list (routing_table r))).1 = at_dest D r).
  { destruct HD as [HD| ->].
    - apply (foldl_skips _ (λ st, at_dest D st.1) _ D).
      + by apply not_elem_of_map_to_list_fst.
      + intros. by apply sweep_entry_other.
    - apply (foldl_invariant _
               (λ st, at_dest (id r) st.1 = at_dest (id r) r
                      ∧ id st.1 = id r)); [|done].
      intros st x _ [Hat Hid]. rewrite id_sweep_entry. split; [|done].
      destruct (decide (x.1 = id r)) as [Hx|Hx].
      + rewrite sweep_entry_unfold, Hid, decide_True; done.
      + by rewrite sweep_entry_other. }
  by destruct (foldl _ _ _) as [r' [|]].
Qed.

Lemma check_timeouts_mirrors now r stats :
  vector_mirrors_table r →
  vector_mirrors_table (check_timeouts now r stats).1.1.
Proof.
  intros Hr D. specialize (Hr D).
  destruct (routing_table r !! D) as [e|] eqn:He;
    [destruct (decide (D = id r)) as [Hself|Hself]|].
  - pose proof (check_timeouts_untouched now r stats D (or_intror Hself))
      as [= -> -> _]. by rewrite He.
  - pose proof (check_timeouts_at now r stats D e He Hself) as Hat.
    unfold sweep_action in Hat.
    destruct (bool_decide (RouteEntry.status e = VALID) && _ && _).
    { destruct Hat as [[= -> -> _] _]. done. }
    destruct (bool_decide (RouteEntry.status e = INVALID) && _ && _).
    { destruct Hat as [[= -> -> _] _]. done. }
    injection Hat as -> -> _. by rewrite He.
  - pose proof (check_timeouts_untouched now r stats D (or_introl He))
      as [= -> -> _]. by rewrite He.
Qed.

Lemma handle_link_failure_mirrors now n r stats :
  vector_mirrors_table r →
  vector_mirrors_table (handle_link_failure now n r stats).1.1.
Proof.
  intros Hr. destruct (neighbors r !! n) as [l|] eqn:Hn.
  - intros D. specialize (Hr D).
    pose proof (handle_link_failure_at now n r stats l D Hn) as Hat.
    simpl in Hat. destruct (routing_table r !! D) as [e|] eqn:He.
    + destruct (bool_decide (RouteEntry.next_hop e = Some n) && _).
      * destruct Hat as [[= -> -> _] _]. done.
      * injection Hat as -> -> _. by rewrite He.
    + injection Hat as -> -> _. by rewrite He.
  - unfold handle_link_failure. by rewrite Hn.
Qed.

Lemma handle_link_recovery_mirrors now n c r stats :
  vector_mirrors_table r →
  vector_mirrors_table (handle_link_recovery now n c r stats).1.1.
Proof.
  intros Hr. unfold handle_link_recovery.
  destruct (neighbors r !! n); [|done].
  destruct (routing_table r !! n) as [e|]; [|done].
  by eapply (mirrors_write r).
Qed.

Lemma initialize_routing_table_mirrors σ now all r :
  vector_mirrors_table r →
  vector_mirrors_table (initialize_routing_table σ now all r).
Proof.
  intros Hr. unfold initialize_routing_table.
  apply (foldl_invariant _ vector_mirrors_table).
  - intros r' x _ Hr'. rewrite init_neighbor_unfold.
    destruct (init_action σ now x.1 x.2 (routing_table r' !! x.1))
      as [[e c]|] eqn:Ha; [|done].
    unfold init_action in Ha.
    destruct (σ !! x.2) as [link|]; [|done].
    destruct (routing_table r' !! x.1) as [e0|]; [|done].
    destruct (Link.is_operational link); [|done].
    injection Ha as <- <-. unfold apply_init.
    by eapply (mirrors_write r').
  - apply (foldl_invariant _ vector_mirrors_table); [|done].
    intros r' D _ Hr'. by eapply (mirrors_write r').
Qed.

Lemma router_step_mirrors r r' :
  router_step r r' → vector_mirrors_table r → vector_mirrors_table r'.
Proof.
  intros [σ now all r0 _|σ now m st r0|now st r0|now n st r0|now n c st r0
         |now n r0] Hr.
  - by apply initialize_routing_table_mirrors.
  - unfold process_message. destruct (link_of σ r0 _) as [link|]; [|done].
    destruct (Link.is_operational link); [|done].
    by apply update_routing_table_mirrors.
  - by apply check_timeouts_mirrors.
  - by apply handle_link_failure_mirrors.
  - by apply handle_link_recovery_mirrors.
  - unfold get_distance_vector_for_neighbor.
    by destruct (foldl _ _ _) as [[v p] hd].
Qed.

(** X16. [distance_vector] agrees with the table along every run: an
    item of [distance_vector] is the cost of the row of its destination,
    and a row without an item is an unreachable one. *)
Theorem distance_vector_mirrors_table (r r' : AsyncRouter.t) :
  vector_mirrors_table r →
  rtc router_step r r' →
  vector_mirrors_table r'.
Proof.
  intros Hr Hrun. induction Hrun as [|r1 r2 r3 Hstep _ IH]; [done|].
  apply IH. by apply (router_step_mirrors r1).
Qed.

Lemma distance_vector_mirrors_table_witness :
  let r := router "A" loaded in
  let r1 := initialize_routing_table (store loaded) 0 ["A"; "B"; "C"; "D"] r in
  let r2 := (process_message (store loaded) 10 (message_B_to_A 10) r1
               NetworkStats.fresh).1.1 in
  let r3 := (check_timeouts 101 r2 NetworkStats.fresh).1.1 in
  vector_mirrors_table r
  ∧ rtc router_step r r3
  ∧ vector_mirrors_table r3.
Proof.
  intros r r1 r2 r3.
  assert (Hr : vector_mirrors_table r).
  { intros D.
    assert (routing_table r = ∅) as -> by (vm_compute; reflexivity).
    assert (distance_vector r = ∅) as -> by (vm_compute; reflexivity).
    by rewrite !lookup_empty. }
  assert (Hrun : rtc router_step r r3).
  { apply (rtc_l _ _ r1).
    { apply step_initialize. vm_compute. left. }
    apply (rtc_l _ _ r2); [apply step_process_message|].
    apply rtc_once, step_check_timeouts. }
  split; [exact Hr|]. split; [exact Hrun|].
  exact (distance_vector_mirrors_table r r3 Hr Hrun).
Defined.

(** ** [initialize_routing_table], every row *)

Lemma init_entries_vector now r all D :
  distance_vector (foldl (init_entry now) r all) !! D =
    if decide (D ∈ all)
    then Some (RouteEntry.cost (initial_entry now (id r) D))
    else distance_vector r !! D.
Proof.
  induction all as [|x all IH] using rev_ind.
  - rewrite decide_False; [done | apply not_elem_of_nil].
  - rewrite foldl_app. cbn [foldl].
    destruct (init_entries_frame now r all) as (Hid & _ & _).
    assert (Hstep :
      distance_vector (init_entry now (foldl (init_entry now) r all) x)
      = <[x := RouteEntry.cost (initial_entry now (id r) x)]>
          (distance_vector (foldl (init_entry now) r all))).
    { rewrite <- Hid. reflexivity. }
    rewrite Hstep. clear Hstep.
    destruct (decide (x = D)) as [->|Hne].
    + rewrite lookup_insert_eq.
      rewrite (decide_True (P := D ∈ all ++ [D])); [done|].
      apply elem_of_app. right. by apply list_elem_of_singleton.
    + rewrite lookup_insert_ne, IH by done.
      destruct (decide (D ∈ all)) as [Hin|Hout].
      * rewrite (decide_True (P := D ∈ all ++ [x])); [done|].
        apply elem_of_app. by left.
      * rewrite (decide_False (P := D ∈ all ++ [x])); [done|].
        apply not_elem_of_app. split; [done|].
        by intros ?%list_elem_of_singleton.
Qed.

Lemma init_neighbor_other_row σ now r x D :
  x.1 ≠ D → row_and_cost D (init_neighbor σ now r x) = row_and_cost D r.
Proof.
  intros Hne. rewrite init_neighbor_unfold. unfold row_and_cost.
  destruct (init_action _ _ _ _ _) as [[e c]|]; [|done].
  unfold apply_init. simpl. by rewrite !lookup_insert_ne.
Qed.

(** X19. [initialize_routing_table], every destination of [all_routers]:
    a neighbour reached by an operational link gets the direct route at
    the cost of the link; every other destination gets the initial row
    (cost 0 through itself for the router, unreachable otherwise);
    [distance_vector] gets the cost of the row. *)
Theorem initialize_routing_table_rows (σ : list Link.t) (now : Z)
    (all_routers : list string) (r : AsyncRouter.t) (D : string) :
  D ∈ all_routers →
  let r' := initialize_routing_table σ now all_routers r in
  let direct :=
    match link_of σ r D with
    | Some link => Link.is_operational link
    | None => false
    end in
  routing_table r' !! D
  = Some (if direct
          then RouteEntry.mk D
                 (from_option (λ link, Fin (Link.cost link)) inf (link_of σ r D))
                 (Some D) VALID now 0 0
          else initial_entry now (id r) D)
  ∧ distance_vector r' !! D
    = Some (if direct
            then from_option (λ link, Fin (Link.cost link)) inf (link_of σ r D)
            else RouteEntry.cost (initial_entry now (id r) D)).
Proof.
  intros HD. simpl. unfold initialize_routing_table, link_of.
  set (r0 := foldl (init_entry now) r all_routers).
  assert (H0 : row_and_cost D r0
               = (Some (initial_entry now (id r) D),
                  Some (RouteEntry.cost (initial_entry now (id r) D)))).
  { unfold row_and_cost, r0.
    by rewrite init_entries_lookup, init_entries_vector, !decide_True. }
  destruct (neighbors r !! D) as [l|] eqn:Hn; simpl.
  - destruct (foldl_visit_split (init_neighbor σ now)
                (map_to_list (neighbors r)) D l r0)
      as (l1 & l2 & _ & Hl1 & Hl2 & ->).
    { apply NoDup_fst_map_to_list. }
    { by apply elem_of_map_to_list. }
    set (s1 := foldl (init_neighbor σ now) r0 l1).
    assert (Hs1 : row_and_cost D s1 = row_and_cost D r0).
    { apply (foldl_skips _ (row_and_cost D) _ D); [done|].
      intros. by apply init_neighbor_other_row. }
    assert (Hrest : ∀ s, row_and_cost D (foldl (init_neighbor σ now) s l2)
                         = row_and_cost D s).
    { intros s. apply (foldl_skips _ (row_and_cost D) _ D); [done|].
      intros. by apply init_neighbor_other_row. }
    pose proof (Hrest (init_neighbor σ now s1 (D, l))) as [= -> ->].
    rewrite H0 in Hs1. injection Hs1 as Hrt Hdv.
    unfold init_neighbor. rewrite Hrt.
    destruct (σ !! l) as [link|]; simpl; [|by rewrite Hrt, Hdv].
    destruct (Link.is_operational link); simpl; [|by rewrite Hrt, Hdv].
    rewrite !lookup_insert_eq. split; [|done].
    unfold initial_entry. by case_decide.
  - assert (Hfold : row_and_cost D
              (foldl (init_neighbor σ now) r0 (map_to_list (neighbors r)))
              = row_and_cost D r0).
    { apply (foldl_skips _ (row_and_cost D) _ D).
      - by apply not_elem_of_map_to_list_fst.
      - intros. by apply init_neighbor_other_row. }
    rewrite H0 in Hfold. by injection Hfold.
Qed.

Lemma initialize_routing_table_rows_witness :
  let r := router "A" net30_failed in
  let r' := initialize_routing_table (store net30_failed) 40
              ["A"; "B"; "C"; "D"] r in
  "B" ∈ ["A"; "B"; "C"; "D"]
  ∧ "C" ∈ ["A"; "B"; "C"; "D"]
  ∧ routing_table r' !! "B"
    = Some (RouteEntry.mk "B" inf None INVALID 40 0 0)
  ∧ routing_table r' !! "C"
    = Some (RouteEntry.mk "C" (Fin 5) (Some "C") VALID 40 0 0)
  ∧ distance_vector r' !! "C" = Some (Fin 5).
Proof.
  intros r r'.
  assert (HB : "B" ∈ ["A"; "B"; "C"; "D"]) by (right; left).
  assert (HC : "C" ∈ ["A"; "B"; "C"; "D"]) by (do 2 right; left).
  split; [exact HB|]. split; [exact HC|].
  split.
  - exact (proj1 (initialize_routing_table_rows (store net30_failed) 40
                    ["A"; "B"; "C"; "D"] r "B" HB)).
  - exact (initialize_routing_table_rows (store net30_failed) 40
             ["A"; "B"; "C"; "D"] r "C" HC).
Defined.

(** ** [restart_simulation] *)

(** X21. What [restart_simulation] keeps.  Every router is still there
    with its name, its neighbours and, notably, its hold-down records;
    no destination leaves its table.  The links keep their cost and the
    time of their last failure; a link listed in [links] is UP, and a
    link that is not listed keeps its status. *)
Theorem restart_simulation_keeps (now : Z) (net : AsyncNetwork.t)
    (name : string) (r : AsyncRouter.t) :
  AsyncNetwork.routers net !! name = Some r →
  let net' := AsyncNetwork.restart_simulation now net in
  (∃ r', AsyncNetwork.routers net' !! name = Some r'
         ∧ id r' = id r
         ∧ neighbors r' = neighbors r
         ∧ hold_down_routes r' = hold_down_routes r
         ∧ dom (routing_table r) ⊆ dom (routing_table r'))
  ∧ AsyncNetwork.links net' = AsyncNetwork.links net
  ∧ length (AsyncNetwork.store net') = length (AsyncNetwork.store net)
  ∧ ∀ ref l, AsyncNetwork.store net !! ref = Some l →
      ∃ l', AsyncNetwork.store net' !! ref = Some l'
            ∧ Link.cost l' = Link.cost l
            ∧ Link.last_failure_time l' = Link.last_failure_time l
            ∧ (Link.status l' = UP
               ∨ (Link.status l' = Link.status l
                  ∧ ∀ k, AsyncNetwork.links net !! k ≠ Some ref)).
Proof.
  intros Hr net'. subst net'. split; [|split; [done|split]].
  - rewrite restart_simulation_routers, lookup_fmap, Hr. simpl.
    eexists. split; [done|].
    destruct (initialize_routing_table_frame (AsyncNetwork.store net) now
                (map_to_list (AsyncNetwork.routers net)).*1 r)
      as (Hid & Hnb & Hhd).
    do 3 (split; [done|]).
    unfold initialize_routing_table.
    apply (foldl_invariant _ (λ r', dom (routing_table r)
                                    ⊆ dom (routing_table r'))).
    + intros r' x _ Hr'. rewrite init_neighbor_unfold.
      destruct (init_action _ _ _ _ _) as [[e c]|]; [|done].
      unfold apply_init. simpl. rewrite dom_insert.
      etrans; [exact Hr'|apply union_subseteq_r].
    + apply (foldl_invariant _ (λ r', dom (routing_table r)
                                      ⊆ dom (routing_table r'))); [|done].
      intros r' x _ Hr'. unfold init_entry. simpl. rewrite dom_insert.
      etrans; [exact Hr'|apply union_subseteq_r].
  - unfold AsyncNetwork.restart_simulation, AsyncNetwork.all_links_up. simpl.
    apply (foldl_invariant _ (λ σ, length σ
                                   = length (AsyncNetwork.store net)));
      [|done].
    intros σ x _ <-. apply length_alter.
  - intros ref l Hl. unfold AsyncNetwork.restart_simulation. simpl.
    rewrite all_links_up_lookup, Hl. case_decide as Hin; simpl.
    + eexists. split; [done|]. destruct l. simpl. auto.
    + eexists. split; [done|]. do 2 (split; [done|]). right.
      split; [done|]. intros k Hk. apply Hin.
      apply elem_of_map_to_list in Hk.
      change ref with (k, ref).2. by apply list_elem_of_fmap_2.
Qed.

Lemma restart_simulation_keeps_witness :
  let r := router "A" net30 in
  routers net30 !! "A" = Some r
  ∧ hold_down_routes r !! "D" = Some 120
  ∧ ∃ r', routers (restart_simulation 40 net30) !! "A" = Some r'
          ∧ hold_down_routes r' = hold_down_routes r.
Proof.
  intros r.
  assert (Hr : routers net30 !! "A" = Some r) by (vm_compute; reflexivity).
  split; [exact Hr|]. split; [vm_compute; reflexivity|].
  destruct (restart_simulation_keeps 40 net30 "A" r Hr)
    as ((r' & Hr' & _ & _ & Hhd & _) & _).
  exists r'. split; [exact Hr'|exact Hhd].
Defined.

(** ** The topology, once loaded *)

Lemma load_links_spec topo :
  let st := foldl AsyncNetwork.load_link (∅, [], ∅) topo in
  (∀ a, a ∈ st.2 ↔ endpoint_of topo a)
  ∧ (∀ a b ref, st.1.1 !! (a, b) = Some ref →
       st.1.1 !! (b, a) = Some ref ∧ a ∈ st.2
       ∧ ∃ link, st.1.2 !! ref = Some link ∧ joins a b link).
Proof.
  simpl. induction topo as [|d topo [IHids IHlks]] using rev_ind.
  - simpl. split; [|done]. intros a. split; [by intros ?%not_elem_of_empty|].
    by intros (d & ?%not_elem_of_nil & _).
  - rewrite foldl_app. cbn [foldl].
    destruct (foldl AsyncNetwork.load_link (∅, [], ∅) topo)
      as [[lks σ] ids]. simpl in *.
    assert (Hnew : (σ ++ [Link.mk (AsyncNetwork.ld_router1 d)
                            (AsyncNetwork.ld_router2 d)
                            (AsyncNetwork.ld_cost d) UP 0]) !! length σ
                   = Some (Link.mk (AsyncNetwork.ld_router1 d)
                            (AsyncNetwork.ld_router2 d)
                            (AsyncNetwork.ld_cost d) UP 0)).
    { by rewrite lookup_app_r, Nat.sub_diag by done. }
    split.
    + intros a. rewrite !elem_of_union, !elem_of_singleton, IHids.
      unfold endpoint_of. split.
      * intros [[->| ->]|(d' & Hd' & Hend)].
        -- exists d. split; [|by left]. apply elem_of_app. right. by left.
        -- exists d. split; [|by right]. apply elem_of_app. right. by left.
        -- exists d'. split; [|done]. apply elem_of_app. by left.
      * intros (d' & [Hd'|Hd']%elem_of_app & Hend).
        -- right. by exists d'.
        -- apply list_elem_of_singleton in Hd' as ->. left.
           destruct Hend as [<-|<-]; auto.
    + intros a b ref.
      destruct (decide ((AsyncNetwork.ld_router2 d,
                         AsyncNetwork.ld_router1 d) = (a, b))) as [[= <- <-]|H21].
      { rewrite lookup_insert_eq. intros [= <-]. split.
        - destruct (decide (AsyncNetwork.ld_router1 d
                            = AsyncNetwork.ld_router2 d)) as [->|Hne].
          + by rewrite lookup_insert_eq.
          + rewrite lookup_insert_ne by congruence.
            by rewrite lookup_insert_eq.
        - split.
          { rewrite !elem_of_union, !elem_of_singleton. auto. }
          eexists. split; [exact Hnew|]. unfold joins. simpl. auto. }
      rewrite lookup_insert_ne by done.
      destruct (decide ((AsyncNetwork.ld_router1 d,
                         AsyncNetwork.ld_router2 d) = (a, b))) as [[= <- <-]|H12].
      { rewrite lookup_insert_eq. intros [= <-]. split.
        - by rewrite lookup_insert_eq.
        - split.
          { rewrite !elem_of_union, !elem_of_singleton. auto. }
          eexists. split; [exact Hnew|]. unfold joins. simpl. auto. }
      rewrite lookup_insert_ne by done. intros Hab.
      destruct (IHlks a b ref Hab) as (Hba & Ha & link & Hlink & Hj).
      split.
      { rewrite !lookup_insert_ne; [done|congruence|congruence]. }
      split.
      { rewrite !elem_of_union. auto. }
      exists link. split; [|done]. by apply lookup_app_l_Some.
Qed.

Lemma fresh_routers_spec (ids : list string) (a : string) :
  foldl (λ (m : gmap string AsyncRouter.t) router_id,
           <[router_id := AsyncRouter.new router_id]> m) ∅ ids !! a
  = if decide (a ∈ ids) then Some (AsyncRouter.new a) else None.
Proof.
  induction ids as [|x ids IH] using rev_ind.
  - by rewrite decide_False by apply not_elem_of_nil.
  - rewrite foldl_app. cbn [foldl].
    destruct (decide (x = a)) as [->|Hne].
    + rewrite lookup_insert_eq, decide_True; [done|].
      apply elem_of_app. right. by left.
    + rewrite lookup_insert_ne, IH by done.
      destruct (decide (a ∈ ids)) as [Hin|Hout].
      * rewrite decide_True; [done|]. apply elem_of_app. by left.
      * rewrite decide_False; [done|]. apply not_elem_of_app. split; [done|].
        by intros ?%list_elem_of_singleton.
Qed.

Lemma attach_links_neighbors lks a r b :
  neighbors (AsyncNetwork.attach_links lks a r) !! b
  = match lks !! (a, b) with
    | Some l => Some l
    | None => neighbors r !! b
    end.
Proof.
  unfold AsyncNetwork.attach_links.
  set (f := λ (rt : AsyncRouter.t) (item : string * string * nat),
              let '(r1, r2, l) := item in
              if decide (r1 = a) then add_neighbor r2 l rt else rt).
  assert (Hother : ∀ rt (x : string * string * nat),
            x.1 ≠ (a, b) → neighbors (f rt x) !! b = neighbors rt !! b).
  { intros rt [[r1 r2] l] Hne. simpl in *. case_decide; [|done].
    subst r1. simpl. rewrite lookup_insert_ne; [done|congruence]. }
  destruct (lks !! (a, b)) as [l|] eqn:Hl.
  - destruct (foldl_visit_split f (map_to_list lks) (a, b) l r)
      as (l1 & l2 & _ & Hl1 & Hl2 & ->).
    { apply NoDup_fst_map_to_list. }
    { by apply elem_of_map_to_list. }
    rewrite (foldl_skips f (λ rt, neighbors rt !! b) l2 (a, b)) by done.
    simpl. rewrite decide_True by done. simpl. by rewrite lookup_insert_eq.
  - apply (foldl_skips f (λ rt, neighbors rt !! b) _ (a, b)); [|done].
    by apply not_elem_of_map_to_list_fst.
Qed.

(** X20. A topology loaded into an empty network.  The routers are the
    endpoints of the records; each has its own name and an empty table;
    its neighbours are what [links] lists under its name.  A link is
    one object shared by both ends: when [a] has [b] as a neighbour
    through an object, [b] is a router and has [a] as a neighbour
    through the same object, which is UP and joins the two. *)
Theorem loaded_topology_neighbors (topo : list AsyncNetwork.link_data)
    (a b : string) :
  let net := AsyncNetwork._load_json_topology topo AsyncNetwork.new in
  (is_Some (AsyncNetwork.routers net !! a) ↔ endpoint_of topo a)
  ∧ ∀ ra, AsyncNetwork.routers net !! a = Some ra →
      id ra = a
      ∧ routing_table ra = ∅
      ∧ neighbors ra !! b = AsyncNetwork.links net !! (a, b)
      ∧ ∀ ref, neighbors ra !! b = Some ref →
          (∃ rb, AsyncNetwork.routers net !! b = Some rb
                 ∧ neighbors rb !! a = Some ref)
          ∧ ∃ link, AsyncNetwork.store net !! ref = Some link
                    ∧ joins a b link.
Proof.
  simpl. unfold AsyncNetwork._load_json_topology.
  pose proof (load_links_spec topo) as [Hids Hlks]. simpl in *.
  destruct (foldl AsyncNetwork.load_link (∅, [], ∅) topo)
    as [[lks σ] ids]. simpl in *.
  assert (Hrouter : ∀ n,
    map_imap (λ router_id router,
                Some (AsyncNetwork.attach_links lks router_id router))
      (foldl (λ (m : gmap string AsyncRouter.t) router_id,
                <[router_id := AsyncRouter.new router_id]> m) ∅
         (elements ids)) !! n
    = if decide (n ∈ elements ids)
      then Some (AsyncNetwork.attach_links lks n (AsyncRouter.new n))
      else None).
  { intros n. rewrite map_lookup_imap, fresh_routers_spec.
    by case_decide. }
  split.
  - rewrite Hrouter, <- Hids, <- elem_of_elements.
    case_decide; (split; [intros [? ?]|intros ?]); done || by eexists.
  - intros ra. rewrite Hrouter. case_decide as Ha; [|done].
    intros [= <-]. rewrite attach_links_id, attach_links_neighbors. simpl.
    split; [done|]. split.
    { unfold AsyncNetwork.attach_links.
      apply (foldl_invariant _ (λ rt, routing_table rt = ∅)); [|done].
      intros rt [[r1 r2] l] _ Hrt. by case_decide. }
    split; [by destruct (lks !! (a, b))|].
    intros ref Hab.
    assert (Hab' : lks !! (a, b) = Some ref)
      by (by destruct (lks !! (a, b))).
    destruct (Hlks a b ref Hab') as (Hba & _ & link & Hlink & Hj).
    destruct (Hlks b a ref Hba) as (_ & Hb & _).
    split; [|by exists link].
    eexists. rewrite Hrouter, decide_True by by apply elem_of_elements.
    split; [done|]. by rewrite attach_links_neighbors, Hba.
Qed.

(** ** Link failure, recovery and cost change *)

Lemma handle_link_failure_frame now n r stats :
  id (handle_link_failure now n r stats).1.1 = id r
  ∧ neighbors (handle_link_failure now n r stats).1.1 = neighbors r.
Proof.
  unfold handle_link_failure. destruct (neighbors r !! n); [|done].
  assert (Hfold : id (foldl (fail_entry n now) (r, false)
                        (map_to_list (routing_table r))).1 = id r
                  ∧ neighbors (foldl (fail_entry n now) (r, false)
                        (map_to_list (routing_table r))).1 = neighbors r).
  { apply (foldl_invariant _ (λ st, id st.1 = id r
                                    ∧ neighbors st.1 = neighbors r));
      [|done].
    intros st x _ [Hid Hnb]. rewrite fail_entry_unfold.
    by destruct (_ && _). }
  by destruct (foldl _ _ _) as [r' [|]].
Qed.

Lemma handle_link_recovery_row now n c r stats l e :
  neighbors r !! n = Some l →
  routing_table r !! n = Some e →
  handle_link_recovery now n c r stats
  = (AsyncRouter.mk (id r) (neighbors r)
        (<[n := recovered_row now n c e]> (routing_table r))
        (<[n := Fin c]> (distance_vector r)) (hold_down_routes r),
     NetworkStats.tables_changed now stats, true).
Proof.
  intros Hn He. unfold handle_link_recovery. rewrite Hn, He.
  by destruct r.
Qed.


(** ** The coordinator *)

Lemma notify_link_failure_frame now r n net x rx :
  AsyncNetwork.routers net !! x = Some rx →
  AsyncNetwork.store (AsyncNetwork.notify_link_failure now r n net)
  = AsyncNetwork.store net
  ∧ ∃ rx', AsyncNetwork.routers
             (AsyncNetwork.notify_link_failure now r n net) !! x = Some rx'
           ∧ id rx' = id rx ∧ neighbors rx' = neighbors rx.
Proof.
  intros Hx. unfold AsyncNetwork.notify_link_failure.
  destruct (AsyncNetwork.routers net !! r) as [router|] eqn:Hr.
  - pose proof (handle_link_failure_frame now n router
                  (AsyncNetwork.stats net)) as [Hid Hnb].
    destruct (handle_link_failure _ _ _ _) as [[router' stats'] u].
    simpl in *. split; [done|].
    destruct (decide (r = x)) as [->|Hne].
    + rewrite lookup_insert_eq. eexists. split; [done|].
      assert (router = rx) as -> by congruence. done.
    + rewrite lookup_insert_ne by done. by exists rx.
  - split; [done|]. by exists rx.
Qed.

(** X22. After [_simulate_link_failure] on a link, every router that
    holds this link object, under whatever neighbour name, drops every
    message from that neighbour and sends nothing to it: the object is
    DOWN, with the failure time recorded, for all of them. *)
Theorem link_failure_silences_link (now : Z) (r1 r2 : string) (ref : nat)
    (net : AsyncNetwork.t) (x y : string) (rx : AsyncRouter.t) :
  AsyncNetwork.routers net !! x = Some rx →
  neighbors rx !! y = Some ref →
  let net' := AsyncNetwork._simulate_link_failure now r1 r2 ref net in
  ∃ rx', AsyncNetwork.routers net' !! x = Some rx'
    ∧ id rx' = id rx
    ∧ neighbors rx' = neighbors rx
    ∧ (∀ l, AsyncNetwork.store net' !! ref = Some l →
            Link.status l = DOWN ∧ Link.last_failure_time l = now)
    ∧ (∀ t message stats,
         Message.source message = y →
         process_message (AsyncNetwork.store net') t message rx' stats
         = (rx', stats, false))
    ∧ (∀ t dropped vector poison_routes stats,
         send_message (AsyncNetwork.store net') t dropped y vector
           poison_routes rx' stats
         = (None, stats)).
Proof.
  intros Hx Hy net'. subst net'. unfold AsyncNetwork._simulate_link_failure.
  set (σ := alter (λ l, Link.set_last_failure_time now
                          (Link.set_status DOWN l))
              ref (AsyncNetwork.store net)).
  set (net0 := AsyncNetwork.mk (AsyncNetwork.routers net)
                 (AsyncNetwork.links net) σ (AsyncNetwork.stats net)).
  destruct (notify_link_failure_frame now r1 r2 net0 x rx Hx)
    as (Hσ1 & rx1 & Hx1 & Hid1 & Hnb1).
  destruct (notify_link_failure_frame now r2 r1 _ x rx1 Hx1)
    as (Hσ2 & rx2 & Hx2 & Hid2 & Hnb2).
  exists rx2. split; [done|]. split; [congruence|]. split; [congruence|].
  rewrite Hσ2, Hσ1. simpl.
  assert (Hdown : ∀ l, σ !! ref = Some l →
            Link.status l = DOWN ∧ Link.last_failure_time l = now).
  { intros l. unfold σ. rewrite list_lookup_alter, decide_True by done.
    destruct (AsyncNetwork.store net !! ref) as [l0|]; [|done].
    by intros [= <-]. }
  assert (Hlink : link_of σ rx2 y = σ !! ref).
  { unfold link_of. by rewrite Hnb2, Hnb1, Hy. }
  split; [done|]. split.
  - intros t message stats Hsrc. unfold process_message.
    rewrite Hsrc, Hlink. destruct (σ !! ref) as [l|] eqn:Hl; [|done].
    destruct (Hdown l eq_refl) as [Hst _].
    unfold Link.is_operational. by rewrite Hst.
  - intros t dropped vector poison_routes stats. unfold send_message.
    rewrite Hlink. destruct (σ !! ref) as [l|] eqn:Hl; [|done].
    destruct (Hdown l eq_refl) as [Hst _].
    unfold Link.is_operational. by rewrite Hst.
Qed.

Lemma link_failure_silences_link_witness :
  let rB := router "B" net10 in
  let net' := _simulate_link_failure 30 "A" "B" 0 net10 in
  routers net10 !! "B" = Some rB
  ∧ neighbors rB !! "A" = Some 0%nat
  ∧ ∃ rB', routers net' !! "B" = Some rB'
           ∧ process_message (store net') 35 (Message.mk "A" "B" ∅ 35
               "A-B" REGULAR ∅) rB' (stats net')
             = (rB', stats net', false).
Proof.
  intros rB net'.
  assert (Hx : routers net10 !! "B" = Some rB) by (vm_compute; reflexivity).
  assert (Hy : neighbors rB !! "A" = Some 0%nat) by (vm_compute; reflexivity).
  split; [exact Hx|]. split; [exact Hy|].
  destruct (link_failure_silences_link 30 "A" "B" 0 net10 "B" "A" rB Hx Hy)
    as (rB' & Hr' & _ & _ & _ & Hdrop & _).
  exists rB'. split; [exact Hr'|].
  exact (Hdrop 35 (Message.mk "A" "B" ∅ 35 "A-B" REGULAR ∅) (stats net')
           eq_refl).
Defined.

Lemma cost_change_at_returns now r n c net router l e :
  AsyncNetwork.routers net !! r = Some router →
  neighbors router !! n = Some l →
  routing_table router !! n = Some e →
  AsyncNetwork.cost_change_at now r n c net
  = AsyncNetwork.Returned
      (AsyncNetwork.mk
         (<[r := AsyncRouter.mk (id router) (neighbors router)
                   (<[n := recovered_row now n c e]> (routing_table router))
                   (<[n := Fin c]> (distance_vector router))
                   (hold_down_routes router)]> (AsyncNetwork.routers net))
         (AsyncNetwork.links net)
         (alter (Link.set_cost c) l (AsyncNetwork.store net))
         (NetworkStats.tables_changed now (AsyncNetwork.stats net))).
Proof.
  intros Hr Hn He. unfold AsyncNetwork.cost_change_at. rewrite Hr, Hn.
  unfold AsyncNetwork.notify_link_recovery. simpl. rewrite Hr.
  by rewrite (handle_link_recovery_row now n c router _ l e Hn He).
Qed.


(** X24. A recovery that was scheduled before a restart finds the link UP
    when its delay is over, and does nothing. *)
Theorem restart_cancels_pending_recovery (now t : Z) (r1 r2 : string)
    (k : string * string) (ref : nat) (net : AsyncNetwork.t) :
  AsyncNetwork.links net !! k = Some ref →
  AsyncNetwork._schedule_link_recovery t r1 r2 ref
    (AsyncNetwork.restart_simulation now net)
  = AsyncNetwork.restart_simulation now net.
Proof.
  intros Hk. unfold AsyncNetwork._schedule_link_recovery.
  destruct (AsyncNetwork.store (AsyncNetwork.restart_simulation now net)
              !! ref) as [l|] eqn:Hl; [|done].
  rewrite (restart_simulation_links_up now net k ref l Hk Hl).
  by rewrite decide_False.
Qed.

Lemma restart_cancels_pending_recovery_witness :
  links net30 !! ("A", "B") = Some 0%nat
  ∧ _schedule_link_recovery 50 "A" "B" 0 (restart_simulation 40 net30)
    = restart_simulation 40 net30.
Proof.
  assert (Hk : links net30 !! ("A", "B") = Some 0%nat)
    by (vm_compute; reflexivity).
  split; [exact Hk|].
  exact (restart_cancels_pending_recovery 40 50 "A" "B" ("A", "B") 0 net30 Hk).
Defined.

(** X27. The loops of the router over dictionaries give the same result
    for every order of the items: the loop of [update_routing_table]
    over the vector received, the loops of [check_timeouts],
    [handle_link_failure] and [get_distance_vector_for_neighbor] over
    the rows, and the neighbour loop of [initialize_routing_table]. *)
Theorem loops_do_not_depend_on_order (σ : list Link.t) (now : Z)
    (n : string) (received_vector : gmap string Cost)
    (all_routers : list string) (r : AsyncRouter.t)
    (stats : NetworkStats.t) (link : Link.t)
    (vector_items : list (string * Cost))
    (rows : list (string * RouteEntry.t))
    (neighbor_items : list (string * nat)) :
  link_of σ r n = Some link →
  vector_items ≡ₚ map_to_list received_vector →
  rows ≡ₚ map_to_list (routing_table r) →
  neighbor_items ≡ₚ map_to_list (neighbors r) →
  let finish (st : AsyncRouter.t * bool) :=
    if st.2 then (st.1, NetworkStats.tables_changed now stats, true)
    else (st.1, stats, false) in
  update_routing_table σ now n received_vector r stats
  = foldl (update_entry n (Link.cost link) now)
      (set_routing_table (alter (refresh now) n (routing_table r)) r,
       stats, false) vector_items
  ∧ check_timeouts now r stats
    = finish (foldl (sweep_entry now) (r, false) rows)
  ∧ handle_link_failure now n r stats
    = finish (foldl (fail_entry n now) (r, false) rows)
  ∧ get_distance_vector_for_neighbor now n r
    = (let st := foldl (advertise_entry (id r) n now)
                   (∅, ∅, hold_down_routes r) rows in
       (st.1.1, st.1.2, set_hold_down_routes st.2 r))
  ∧ initialize_routing_table σ now all_routers r
    = foldl (init_neighbor σ now) (foldl (init_entry now) r all_routers)
        neighbor_items.
Proof.
  intros Hlink Hvec Hrows Hnb. simpl.
  assert (∃ l, neighbors r !! n = Some l) as [l Hn].
  { unfold link_of in Hlink. destruct (neighbors r !! n); [by eexists|done]. }
  split; [by apply update_routing_table_any_order|].
  split.
  { rewrite (check_timeouts_any_order now r stats rows Hrows).
    by destruct (foldl _ _ _) as [r' [|]]. }
  split.
  { rewrite (handle_link_failure_any_order now n r stats rows l Hn Hrows).
    by destruct (foldl _ _ _) as [r' [|]]. }
  split.
  { rewrite (get_distance_vector_any_order now n r rows Hrows).
    by destruct (foldl _ _ _) as [[v p] hd]. }
  by apply initialize_routing_table_any_order.
Qed.

Lemma loops_do_not_depend_on_order_witness :
  let r := router "A" net10 in
  let link := Link.mk "A" "B" 2 UP 0 in
  let rows := reverse (map_to_list (routing_table r)) in
  link_of (store net10) r "B" = Some link
  ∧ reverse (map_to_list vector_B_to_A) ≡ₚ map_to_list vector_B_to_A
  ∧ rows ≡ₚ map_to_list (routing_table r)
  ∧ reverse (map_to_list (neighbors r)) ≡ₚ map_to_list (neighbors r)
  ∧ check_timeouts 101 r (stats net10)
    = (let st := foldl (sweep_entry 101) (r, false) rows in
       if st.2
       then (st.1, NetworkStats.tables_changed 101 (stats net10), true)
       else (st.1, stats net10, false)).
Proof.
  intros r link rows.
  assert (Hlink : link_of (store net10) r "B" = Some link)
    by (vm_compute; reflexivity).
  assert (Hvec : reverse (map_to_list vector_B_to_A)
                 ≡ₚ map_to_list vector_B_to_A) by apply reverse_Permutation.
  assert (Hrows : rows ≡ₚ map_to_list (routing_table r))
    by apply reverse_Permutation.
  assert (Hnb : reverse (map_to_list (neighbors r))
                ≡ₚ map_to_list (neighbors r)) by apply reverse_Permutation.
  split; [exact Hlink|]. split; [exact Hvec|]. split; [exact Hrows|].
  split; [exact Hnb|].
  destruct (loops_do_not_depend_on_order (store net10) 101 "B" vector_B_to_A
              ["A"; "B"; "C"; "D"] r (stats net10) link _ rows _
              Hlink Hvec Hrows Hnb) as (_ & Hsweep & _).
  exact Hsweep.
Defined.

(** ** The queue to the visualisation *)

Lemma put_update_running {A} now ty (d : A) (q : VisualizationQueue.t A) :
  VisualizationQueue.running (VisualizationQueue.put_update now ty d q)
  = VisualizationQueue.running q.
Proof.
  unfold VisualizationQueue.put_update.
  destruct (VisualizationQueue.running q) eqn:Hr; simpl; [|done].
  case_bool_decide; [done|]. by destruct (VisualizationQueue.queue q).
Qed.

Lemma put_all_newest {A}
    (us : list (VisualizationQueue.VisualizationUpdate A)) :
  VisualizationQueue.queue
    (VisualizationQueue.put_all us VisualizationQueue.new)
  = drop (length us - VisualizationQueue.maxsize) us
  ∧ VisualizationQueue.running
      (VisualizationQueue.put_all us VisualizationQueue.new) = true.
Proof.
  induction us as [|u us [IHq IHr]] using rev_ind; [done|].
  unfold VisualizationQueue.put_all in *. rewrite foldl_app. cbn [foldl].
  set (q := foldl _ VisualizationQueue.new us) in *.
  rewrite put_update_running. split; [|done].
  unfold VisualizationQueue.put_update. rewrite IHr, IHq. simpl.
  rewrite length_drop, length_app. simpl.
  case_bool_decide as Hlen.
  - assert (length us - VisualizationQueue.maxsize = 0)%nat as ->
      by (unfold VisualizationQueue.maxsize in *; lia).
    assert (length us + 1 - VisualizationQueue.maxsize = 0)%nat as ->
      by (unfold VisualizationQueue.maxsize in *; lia).
    by destruct u.
  - assert (Hk : (length us + 1 - VisualizationQueue.maxsize
                  = S (length us - VisualizationQueue.maxsize))%nat)
      by (unfold VisualizationQueue.maxsize in *; lia).
    rewrite Hk.
    destruct (drop (length us - VisualizationQueue.maxsize) us)
      as [|x rest] eqn:Hdrop.
    { apply (f_equal length) in Hdrop. rewrite length_drop in Hdrop.
      simpl in Hdrop. unfold VisualizationQueue.maxsize in *. lia. }
    rewrite drop_app_le by (unfold VisualizationQueue.maxsize in *; lia).
    assert (Hrest : drop (S (length us - VisualizationQueue.maxsize)) us
                    = rest).
    { change (S (length us - VisualizationQueue.maxsize))
        with (1 + (length us - VisualizationQueue.maxsize))%nat.
      rewrite Nat.add_comm, <- drop_drop, Hdrop. done. }
    rewrite Hrest. by destruct u.
Qed.

(** X25. What is put into the queue of a fresh [VisualizationQueue] is
    what [get_updates] returns, in the same order, limited to the
    newest [maxsize] updates; the queue is empty afterwards. *)
Theorem visualization_queue_round_trip {A}
    (us : list (VisualizationQueue.VisualizationUpdate A)) :
  let q := VisualizationQueue.put_all us VisualizationQueue.new in
  (VisualizationQueue.get_updates q).1
  = drop (length us - VisualizationQueue.maxsize) us
  ∧ (VisualizationQueue.get_updates (VisualizationQueue.get_updates q).2).1
    = []
  ∧ VisualizationQueue.running (VisualizationQueue.get_updates q).2 = true.
Proof.
  simpl. destruct (put_all_newest us) as [Hq Hr].
  unfold VisualizationQueue.get_updates. simpl. by rewrite Hq, Hr.
Qed.

(** X26. [put_update] keeps the queue within [maxsize].  While the
    queue is running the new update is always accepted, as the newest;
    at most one update, the oldest, is dropped for it.  A stopped queue
    is left as it is. *)
Theorem put_update_keeps_bound {A} (now : Z) (ty : string) (d : A)
    (q : VisualizationQueue.t A) :
  (length (VisualizationQueue.queue q) ≤ VisualizationQueue.maxsize)%nat →
  let q' := VisualizationQueue.put_update now ty d q in
  (length (VisualizationQueue.queue q') ≤ VisualizationQueue.maxsize)%nat
  ∧ if VisualizationQueue.running q
    then last (VisualizationQueue.queue q')
         = Some (VisualizationQueue.mk_update ty d now)
         ∧ ∃ older,
             VisualizationQueue.queue q
               ++ [VisualizationQueue.mk_update ty d now]
             = older ++ VisualizationQueue.queue q'
             ∧ (length older ≤ 1)%nat
    else q' = q.
Proof.
  intros Hlen. simpl. unfold VisualizationQueue.put_update.
  destruct (VisualizationQueue.running q) eqn:Hr; simpl; [|done].
  case_bool_decide as Hfull; simpl.
  - rewrite length_app, last_snoc. simpl. split; [lia|]. split; [done|].
    exists []. split; [done|simpl; lia].
  - destruct (VisualizationQueue.queue q) as [|x rest] eqn:Hq.
    { simpl in Hfull. unfold VisualizationQueue.maxsize in Hfull. lia. }
    simpl in *. rewrite length_app, last_snoc. simpl.
    split; [lia|]. split; [done|].
    exists [x]. split; [done|simpl; lia].
Qed.

Lemma put_update_keeps_bound_witness :
  let q : VisualizationQueue.t string := VisualizationQueue.new in
  let q' := VisualizationQueue.put_update 5 "event" "started" q in
  (length (VisualizationQueue.queue q) ≤ VisualizationQueue.maxsize)%nat
  ∧ (length (VisualizationQueue.queue q') ≤ VisualizationQueue.maxsize)%nat
  ∧ last (VisualizationQueue.queue q')
    = Some (VisualizationQueue.mk_update "event" "started" 5).
Proof.
  intros q q'.
  assert (Hlen : (length (VisualizationQueue.queue q)
                  ≤ VisualizationQueue.maxsize)%nat)
    by (unfold VisualizationQueue.maxsize; simpl; lia).
  split; [exact Hlen|].
  destruct (put_update_keeps_bound 5 "event" "started" q Hlen)
    as (Hbound & Hlast & _).
  split; [exact Hbound|exact Hlast].
Defined.

(** * The coroutines to their end, and the counters *)

(** ** Counting the changed routes *)

Lemma filter_length_ext {A} (P Q : A → Prop) `{∀ x, Decision (P x)}
    `{∀ x, Decision (Q x)} (l : list A) :
  (∀ x, x ∈ l → (P x ↔ Q x)) → length (filter P l) = length (filter Q l).
Proof.
  induction l as [|x l IH]; intros HPQ; [done|].
  rewrite !filter_cons.
  assert (Hx : P x ↔ Q x) by (apply HPQ; by left).
  assert (Hl : length (filter P l) = length (filter Q l)).
  { apply IH. intros y Hy. apply HPQ. by right. }
  destruct (decide (P x)), (decide (Q x)); simpl; try tauto; by rewrite Hl.
Qed.

Lemma cost_lt_irrefl c : cost_lt c c = false.
Proof. destruct c as [z|]; simpl; [|done]. apply bool_decide_eq_false. lia. Qed.

(** The loop reports a change of a row exactly when it gives the row
    another cost. *)
Lemma route_decision_changed_cost from nc now entry held :
  (route_decision from nc now entry held).2 = true
  ↔ RouteEntry.cost (route_decision from nc now entry held).1.1
    ≠ RouteEntry.cost entry.
Proof.
  unfold route_decision.
  destruct (decide (RouteEntry.next_hop entry = Some from)).
  - destruct (decide (nc ≠ RouteEntry.cost entry)) as [Hne|Heq].
    + destruct (decide (nc = inf)); simpl; by split.
    + simpl. by split.
  - destruct (cost_lt nc (RouteEntry.cost entry) && bool_decide (nc ≠ inf))
      eqn:Hc; [|simpl; by split].
    destruct held; simpl; [by split|].
    split; [|done]. intros _ Heq. rewrite Heq, cost_lt_irrefl in Hc. done.
Qed.

Lemma counted_succ now j s :
  0 ≤ j → NetworkStats.route_changed now (counted now j s)
          = counted now (j + 1) s.
Proof.
  intros Hj. unfold counted.
  rewrite (bool_decide_eq_true_2 (0 < j + 1)) by lia.
  case_bool_decide.
  - unfold after_route_changes, NetworkStats.route_changed. simpl.
    f_equal. lia.
  - assert (j = 0) as -> by lia. by destruct s.
Qed.

Lemma hit_update_entry from nc now st x y :
  y.1 ≠ x.1 →
  hit from nc now (update_entry from nc now st x).1.1 y
  ↔ hit from nc now st.1.1 y.
Proof.
  intros Hne. unfold hit, entry_for.
  destruct (update_entry_other from nc now st x y.1 Hne) as [-> ->].
  by rewrite id_update_entry.
Qed.

Lemma update_loop_hits from nc now l st j s0 :
  NoDup l.*1 → 0 ≤ j →
  st.1.2 = counted now j s0 → st.2 = bool_decide (0 < j) →
  let res := foldl (update_entry from nc now) st l in
  let j' := j + Z.of_nat (length (filter (hit from nc now st.1.1) l)) in
  res.1.2 = counted now j' s0 ∧ res.2 = bool_decide (0 < j').
Proof.
  revert st j. induction l as [|x l IH]; intros st j Hnd Hj Hs Hu.
  - simpl. by rewrite Z.add_0_r.
  - simpl. rewrite fmap_cons in Hnd. apply NoDup_cons in Hnd as [Hx Hnd].
    rewrite filter_cons.
    assert (Hrest : length (filter (hit from nc now
                              (update_entry from nc now st x).1.1) l)
                    = length (filter (hit from nc now st.1.1) l)).
    { apply filter_length_ext. intros y Hy. apply hit_update_entry.
      intros Heq. apply Hx. rewrite <- Heq. by apply list_elem_of_fmap_2. }
    destruct (decide (hit from nc now st.1.1 x)) as [[Hself Hdec]|Hno].
    + destruct (IH (update_entry from nc now st x) (j + 1) Hnd) as [H1 H2].
      * lia.
      * rewrite update_entry_unfold, decide_False by done.
        unfold apply_decision. cbn [fst snd]. rewrite Hdec, Hs.
        by apply counted_succ.
      * rewrite update_entry_unfold, decide_False by done.
        unfold apply_decision. cbn [fst snd]. rewrite Hdec.
        by rewrite bool_decide_eq_true_2 by lia.
      * rewrite Hrest in H1, H2. simpl.
        replace (j + Z.of_nat (S (length (filter (hit from nc now st.1.1) l))))
          with (j + 1 + Z.of_nat (length (filter (hit from nc now st.1.1) l)))
          by lia.
        done.
    + assert (Hsame : (update_entry from nc now st x).1.2 = st.1.2
                      ∧ (update_entry from nc now st x).2 = st.2).
      { rewrite update_entry_unfold.
        destruct (decide (x.1 = id st.1.1)) as [|Hself]; [done|].
        unfold apply_decision. cbn [fst snd].
        destruct (route_decision _ _ _ _ _).2 eqn:Hdec; [|done].
        exfalso. apply Hno. by split. }
      destruct Hsame as [Hs' Hu'].
      destruct (IH (update_entry from nc now st x) j Hnd Hj) as [H1 H2].
      * by rewrite Hs'.
      * by rewrite Hu'.
      * by rewrite Hrest in H1, H2.
Qed.

(** X4. [update_routing_table] counts the routes it changes.  Let [k] be
    the number of destinations of the vector, other than the router
    itself, whose route has another cost after the call than before (a
    destination without a row counting as unreachable).  The call
    answers [True] exactly when [k > 0]; [total_route_changes] has grown
    by [k], and when [k > 0] the last change time is [now] and the
    state CONVERGING; when [k = 0] the statistics are untouched.  The
    cost of no other destination has changed, and the message counters
    are never touched. *)
Theorem update_routing_table_counts_changes (σ : list Link.t) (now : Z)
    (from : string) (vector : gmap string Cost) (r : AsyncRouter.t)
    (stats : NetworkStats.t) :
  let res := update_routing_table σ now from vector r stats in
  let k := Z.of_nat (length (changed_routes vector r res.1.1)) in
  res.2 = bool_decide (0 < k)
  ∧ res.1.2 = (if bool_decide (0 < k)
               then after_route_changes now k stats else stats)
  ∧ ∀ D, route_cost res.1.1 D ≠ route_cost r D →
         is_Some (vector !! D) ∧ D ≠ id r.
Proof.
  simpl. destruct (link_of σ r from) as [link|] eqn:Hlink.
  - assert (Hview : ∀ D, route_cost (refreshed now from r) D = route_cost r D).
    { intros D. unfold route_cost, refreshed. by rewrite view_refresh. }
    assert (Hk : length (changed_routes vector r
                   (update_routing_table σ now from vector r stats).1.1)
                 = length (filter (hit from (Link.cost link) now
                                     (refreshed now from r))
                             (map_to_list vector))).
    { unfold changed_routes. apply filter_length_ext. intros [D a] Hx.
      apply elem_of_map_to_list in Hx. simpl. unfold hit. simpl.
      destruct (decide (D = id r)) as [Hself|Hself]; [by split; intros [? _]|].
      destruct (update_routing_table_at σ now from vector r stats link D a
                  Hlink Hx Hself) as [Hat _].
      simpl in Hat. injection Hat as Hrt _ _.
      assert (Hafter : route_cost
                (update_routing_table σ now from vector r stats).1.1 D
              = RouteEntry.cost
                  (route_decision from (new_cost (Link.cost link) a) now
                     (entry_for now (refreshed now from r) D)
                     (hold_down_routes r !! D)).1.1).
      { unfold route_cost, view. by rewrite Hrt. }
      assert (Hbefore : route_cost r D
                = RouteEntry.cost (entry_for now (refreshed now from r) D)).
      { rewrite <- Hview. unfold route_cost.
        by rewrite <- (view_entry_for now). }
      rewrite Hafter, Hbefore, <- route_decision_changed_cost.
      done. }
    rewrite Hk.
    pose proof (update_loop_hits from (Link.cost link) now
                  (map_to_list vector) (refreshed now from r, stats, false)
                  0 stats (NoDup_fst_map_to_list _) (Z.le_refl 0)
                  eq_refl eq_refl) as [Hs Hu].
    simpl in Hs, Hu. unfold update_routing_table. rewrite Hlink.
    fold (refreshed now from r). split; [exact Hu|]. split; [exact Hs|].
    intros D Hc.
    destruct (vector !! D) as [a|] eqn:Ha;
      [destruct (decide (D = id r)) as [Hself|Hself]|].
    + exfalso. apply Hc.
      pose proof (update_routing_table_unvisited σ now from vector r stats
                    link D Hlink (or_intror Hself)) as Hat.
      unfold update_routing_table in Hat. rewrite Hlink in Hat.
      fold (refreshed now from r) in Hat. injection Hat as Hrt _ _.
      rewrite <- Hview. unfold route_cost, view. by rewrite Hrt.
    + split; [by eexists|done].
    + exfalso. apply Hc.
      pose proof (update_routing_table_unvisited σ now from vector r stats
                    link D Hlink (or_introl Ha)) as Hat.
      unfold update_routing_table in Hat. rewrite Hlink in Hat.
      fold (refreshed now from r) in Hat. injection Hat as Hrt _ _.
      rewrite <- Hview. unfold route_cost, view. by rewrite Hrt.
  - unfold update_routing_table. rewrite Hlink. simpl.
    assert (Hk : length (changed_routes vector r r) = 0%nat).
    { unfold changed_routes.
      rewrite (filter_length_ext _ (λ _, False) (map_to_list vector)).
      - induction (map_to_list vector) as [|x l IH]; [done|].
        rewrite filter_cons. by destruct (decide False).
      - intros x _. split; [by intros [_ ?]|done]. }
    rewrite Hk. simpl. split; [done|]. split; [done|]. by intros D [].
Qed.

Lemma counters_grow_refl s : counters_grow s s.
Proof. unfold counters_grow. repeat split; lia. Qed.

Lemma counters_grow_changes now k s :
  0 ≤ k → counters_grow s (after_route_changes now k s).
Proof. intros Hk. unfold counters_grow. simpl. repeat split; done || lia. Qed.

Lemma counters_grow_tables now s :
  counters_grow s (NetworkStats.tables_changed now s).
Proof. unfold counters_grow. simpl. repeat split; done || lia. Qed.


(** ** The triggered update at the end of a coroutine *)

(** The hold-down record of a destination after one advertisement has
    been built. *)
Lemma get_distance_vector_hold_down now n r D :
  hold_down_routes (get_distance_vector_for_neighbor now n r).2 !! D
  = match routing_table r !! D, hold_down_routes r !! D with
    | Some e, Some expiry =>
        if decide (RouteEntry.status e = GARBAGE) then Some expiry
        else if bool_decide (now < expiry) then Some expiry else None
    | _, held => held
    end.
Proof.
  destruct (routing_table r !! D) as [e|] eqn:He.
  - pose proof (get_distance_vector_row now n r D e He) as Hrow.
    unfold advertised_at in Hrow. simpl in Hrow.
    unfold advertise_action in Hrow.
    destruct (decide (RouteEntry.status e = GARBAGE)).
    { injection Hrow as _ _ ->. by destruct (hold_down_routes r !! D). }
    destruct (hold_down_routes r !! D) as [expiry|];
      [destruct (bool_decide (now < expiry))|]; by injection Hrow.
  - pose proof (get_distance_vector_absent now n r D He) as Hrow.
    unfold advertised_at in Hrow. simpl in Hrow. by injection Hrow.
Qed.

Lemma get_distance_vector_tables now n r :
  id (get_distance_vector_for_neighbor now n r).2 = id r
  ∧ neighbors (get_distance_vector_for_neighbor now n r).2 = neighbors r
  ∧ routing_table (get_distance_vector_for_neighbor now n r).2
    = routing_table r
  ∧ distance_vector (get_distance_vector_for_neighbor now n r).2
    = distance_vector r.
Proof.
  unfold get_distance_vector_for_neighbor.
  by destruct (foldl _ _ _) as [[v p] hd].
Qed.

(** An iteration of the loop leaves the router alone or builds one
    advertisement. *)
Lemma advertise_to_router σ now dropped n r stats :
  (advertise_to σ now dropped n r stats).1.2 = r
  ∨ (advertise_to σ now dropped n r stats).1.2
    = (get_distance_vector_for_neighbor now n r).2.
Proof.
  unfold advertise_to. destruct (link_of σ r n) as [link|]; [|by left].
  destruct (Link.is_operational link); [|by left].
  destruct (get_distance_vector_for_neighbor now n r) as [[dv p] r'].
  destruct (send_message _ _ _ _ _ _ _ _). by right.
Qed.

Lemma send_triggered_update_snoc sends s r stats :
  send_triggered_update (sends ++ [s]) r stats
  = (let st := send_triggered_update sends r stats in
     let res := advertise_to (sending_store s) (sending_clock s)
                  (sending_dropped s) (sending_neighbor s) st.1.2 st.2 in
     (st.1.1 ++ option_list res.1.1, res.1.2, res.2)).
Proof.
  unfold send_triggered_update. rewrite foldl_app. cbn [foldl].
  by destruct (advertise_to _ _ _ _ _ _) as [[m r'] s'].
Qed.

(** The triggered update never writes the tables, and deletes only
    hold-down records that have expired. *)
Lemma send_triggered_update_router sends r stats :
  let r' := (send_triggered_update sends r stats).1.2 in
  id r' = id r
  ∧ neighbors r' = neighbors r
  ∧ routing_table r' = routing_table r
  ∧ distance_vector r' = distance_vector r
  ∧ ∀ D, match routing_table r !! D with
         | Some e =>
             if decide (RouteEntry.status e = GARBAGE)
             then hold_down_routes r' !! D = hold_down_routes r !! D
             else kept_or_expired sends (hold_down_routes r !! D)
                    (hold_down_routes r' !! D)
         | None => hold_down_routes r' !! D = hold_down_routes r !! D
         end.
Proof.
  simpl. induction sends as [|s sends IH] using rev_ind.
  - do 4 (split; [done|]). intros D.
    destruct (routing_table r !! D) as [e|]; [|done].
    case_decide; [done|]. by left.
  - rewrite send_triggered_update_snoc. cbn [fst snd].
    destruct IH as (Hid & Hnb & Hrt & Hdv & Hhd).
    set (r1 := (send_triggered_update sends r stats).1.2) in *.
    set (s1 := (send_triggered_update sends r stats).2) in *.
    assert (Hgrow : ∀ before after,
              kept_or_expired sends before after →
              kept_or_expired (sends ++ [s]) before after).
    { intros before after [->|(-> & expiry & s' & ? & ? & ?)]; [by left|].
      right. split; [done|]. exists expiry, s'. split; [done|].
      split; [|done]. apply elem_of_app. by left. }
    destruct (advertise_to_router (sending_store s) (sending_clock s)
                (sending_dropped s) (sending_neighbor s) r1 s1) as [->| ->].
    + do 4 (split; [done|]). intros D. specialize (Hhd D).
      destruct (routing_table r !! D) as [e|]; [|done].
      case_decide; [done|]. by apply Hgrow.
    + destruct (get_distance_vector_tables (sending_clock s)
                  (sending_neighbor s) r1) as (-> & -> & -> & ->).
      do 4 (split; [done|]). intros D. specialize (Hhd D).
      rewrite get_distance_vector_hold_down, Hrt.
      destruct (routing_table r !! D) as [e|] eqn:He.
      * destruct (decide (RouteEntry.status e = GARBAGE)) as [Hg|Hg].
        { rewrite Hhd. by destruct (hold_down_routes r !! D). }
        destruct (hold_down_routes r1 !! D) as [expiry|] eqn:H1.
        -- case_bool_decide as Ht; [by apply Hgrow|].
           right. split; [done|].
           destruct Hhd as [Hkept|(? & _)]; [|done].
           exists expiry, s. split; [done|]. split; [|lia].
           apply elem_of_app. right. by left.
        -- by apply Hgrow.
      * by rewrite Hhd.
Qed.

(** A record that has not expired at any of the iterations is kept. *)
Lemma kept_before_expiry sends expiry after :
  Forall (λ s, sending_clock s < expiry) sends →
  kept_or_expired sends (Some expiry) after → after = Some expiry.
Proof.
  intros Hall [->|(_ & expiry' & s & [= <-] & Hs & Hle)]; [done|].
  rewrite Forall_forall in Hall. specialize (Hall s Hs). simpl in Hall. lia.
Qed.

(** The router after the end of a coroutine, against the router as the
    part that writes the tables left it. *)
Lemma then_triggered_update_router sends (res : AsyncRouter.t * NetworkStats.t * bool) :
  let r' := (then_triggered_update sends res).1.1.2 in
  (then_triggered_update sends res).2 = res.2
  ∧ id r' = id res.1.1
  ∧ neighbors r' = neighbors res.1.1
  ∧ routing_table r' = routing_table res.1.1
  ∧ distance_vector r' = distance_vector res.1.1
  ∧ ∀ D, match routing_table res.1.1 !! D with
         | Some e =>
             if decide (RouteEntry.status e = GARBAGE)
             then hold_down_routes r' !! D = hold_down_routes res.1.1 !! D
             else kept_or_expired sends (hold_down_routes res.1.1 !! D)
                    (hold_down_routes r' !! D)
         | None => hold_down_routes r' !! D = hold_down_routes res.1.1 !! D
         end.
Proof.
  simpl. unfold then_triggered_update. destruct res as [[r s] [|]]; simpl.
  - split; [done|]. apply send_triggered_update_router.
  - do 5 (split; [done|]). intros D.
    destruct (routing_table r !! D) as [e|]; [|done].
    case_decide; [done|]. by left.
Qed.

(** ** The coroutines, to their end *)








